(** * CineFlix: the film record and the film manager of [localstorage.js]

    A shallow embedding of the classes [Pelicula] and [PeliculaManager],
    of the class [AuthManager] and of [escapeHtml], followed by the
    properties of validation, loading, the three mutators and the
    queries, and by those of the users and of the escaping.

    The manager is a JavaScript object that owns one array, mirrors it into
    a [localStorage] entry and hands out fresh arrays to its callers.  The
    embedding keeps that shape: arrays live in a heap and are reached
    through references, the storage entry is a cell of the world, and every
    method is a computation over the world that may throw.  Strings are
    sequences of UTF-16 code units and Numbers are binary64 values; the
    built-ins that the program calls on them without defining them (the
    URL parser, [parseInt], [parseFloat], [toLowerCase], the calendar) are
    parameters, and so are the clock, the random generator and the room
    left in the storage. *)

From Stdlib Require Import ZArith NArith List Bool Lia String Ascii.
From Stdlib Require Import DecimalString Permutation Sorted.
From Stdlib Require DecimalZ DecimalPos.
From Stdlib Require Import Floats.SpecFloat.
From stdpp Require Import gmap list.

Local Open Scope Z_scope.

(* ===================================================================== *)
(** * JavaScript strings *)
(* ===================================================================== *)

(** A JavaScript string is a sequence of UTF-16 code units; [length],
    [trim] and [includes] all work on code units. *)
Module JS.

Definition cadena := list N.

Fixpoint bytes_de (s : string) : list N :=
  match s with
  | EmptyString => []
  | String a r => N_of_ascii a :: bytes_de r
  end.

(** The source file is UTF-8; its string literals denote the UTF-16
    sequences obtained by decoding them. *)
Fixpoint utf16_de_utf8 (bs : list N) : cadena :=
  match bs with
  | [] => []
  | b0 :: r =>
    if (b0 <? 128)%N then b0 :: utf16_de_utf8 r
    else if (b0 <? 224)%N then
      match r with
      | b1 :: r1 => ((b0 - 192) * 64 + (b1 - 128))%N :: utf16_de_utf8 r1
      | _ => []
      end
    else if (b0 <? 240)%N then
      match r with
      | b1 :: b2 :: r2 =>
        ((b0 - 224) * 4096 + (b1 - 128) * 64 + (b2 - 128))%N :: utf16_de_utf8 r2
      | _ => []
      end
    else
      match r with
      | b1 :: b2 :: b3 :: r3 =>
        let cp := ((b0 - 240) * 262144 + (b1 - 128) * 4096
                   + (b2 - 128) * 64 + (b3 - 128))%N in
        let c := (cp - 65536)%N in
        (55296 + c / 1024)%N :: (56320 + c mod 1024)%N :: utf16_de_utf8 r3
      | _ => []
      end
  end.

Definition js (s : string) : cadena := utf16_de_utf8 (bytes_de s).

Arguments js s : simpl never.

(** ECMAScript WhiteSpace and LineTerminator code points, the ones
    [String.prototype.trim] strips. *)
Definition es_blanco (c : N) : bool :=
  ((c =? 9) || (c =? 10) || (c =? 11) || (c =? 12) || (c =? 13) || (c =? 32)
   || (c =? 160) || (c =? 5760) || ((8192 <=? c) && (c <=? 8202))
   || (c =? 8232) || (c =? 8233) || (c =? 8239) || (c =? 8287)
   || (c =? 12288) || (c =? 65279))%N.

Fixpoint quitar_blancos (s : cadena) : cadena :=
  match s with
  | c :: r => if es_blanco c then quitar_blancos r else s
  | [] => []
  end.

Definition trim (s : cadena) : cadena :=
  rev (quitar_blancos (rev (quitar_blancos s))).

Definition longitud (s : cadena) : Z := Z.of_nat (length s).

Definition igual (s t : cadena) : bool := bool_decide (s = t).

(** Truthiness of a string: every string but the empty one. *)
Definition verdadera (s : cadena) : bool :=
  match s with [] => false | _ => true end.

Fixpoint empieza_con (t s : cadena) : bool :=
  match t, s with
  | [], _ => true
  | a :: t', b :: s' => (a =? b)%N && empieza_con t' s'
  | _ :: _, [] => false
  end.

(** [s.includes(t)] *)
Fixpoint includes (s t : cadena) : bool :=
  empieza_con t s ||
  match s with
  | [] => false
  | _ :: s' => includes s' t
  end.

(** [a.join(sep)] on an array of strings *)
Fixpoint join (sep : cadena) (a : list cadena) : cadena :=
  match a with
  | [] => []
  | [x] => x
  | x :: r => x ++ sep ++ join sep r
  end.

(** Number-to-string conversion of an integral Number, as a template
    literal performs it on [Date.now()]. *)
Definition decimal (z : Z) : cadena :=
  bytes_de (NilZero.string_of_int (Z.to_int z)).

End JS.

Export JS.


(* ===================================================================== *)
(** * Numbers and raw values *)
(* ===================================================================== *)

(** [parseFloat] yields a binary64 Number: [spec_float] with precision 53
    and maximal exponent 1024.  [parseInt] yields NaN or an integral
    Number, carried here by the integer itself; the infinity it yields on
    a text of several hundred digits stands as such an integer, which the
    tests on [ano] tell from no other above the range. *)
Inductive entero : Type :=
  | NaN
  | Entero (z : Z).

Definition numero := spec_float.

Definition numero_de_Z (z : Z) : numero := binary_normalize 53 1024 z 0 false.

Definition uno : numero := Eval vm_compute in numero_de_Z 1.
Definition diez : numero := Eval vm_compute in numero_de_Z 10.

(** [!x] on a Number: true on NaN and on the two zeros. *)
Definition falso_entero (a : entero) : bool :=
  match a with
  | NaN => true
  | Entero z => z =? 0
  end.

Definition falso_numero (x : numero) : bool :=
  match x with
  | S754_nan | S754_zero _ => true
  | _ => false
  end.

(** [a < k] and [a > k] between an integral Number (or NaN) and an
    integer; every comparison with NaN is false. *)
Definition menor_entero (a : entero) (k : Z) : bool :=
  match a with
  | NaN => false
  | Entero z => z <? k
  end.

Definition mayor_entero (a : entero) (k : Z) : bool :=
  match a with
  | NaN => false
  | Entero z => k <? z
  end.

(** The sign that [Array.prototype.sort] reads off the value returned by
    its comparison function; NaN counts as zero. *)
Definition signo_Z (d : Z) : comparison := d ?= 0.

Definition signo_numero (v : numero) : comparison :=
  match v with
  | S754_finite s _ _ | S754_infinity s => if s then Lt else Gt
  | _ => Eq
  end.

Definition resta_numero (x y : numero) : numero := SFsub 53 1024 x y.

Definition resta_entero (a b : entero) : entero :=
  match a, b with
  | Entero x, Entero y => Entero (x - y)
  | _, _ => NaN
  end.

Definition signo_entero (a : entero) : comparison :=
  match a with
  | NaN => Eq
  | Entero z => signo_Z z
  end.

(** A value as it reaches the constructor in the position of [ano] or
    [calificacion]: form input (a string), a Number, or the [null] that
    JSON puts in place of NaN and the infinities. *)
Inductive valor : Type :=
  | Vnull
  | Ventero (z : Z)
  | Vnumero (x : numero)
  | Vcadena (s : cadena).

(* ===================================================================== *)
(** * The platform *)
(* ===================================================================== *)

(** Built-ins of the language and of the browser that the program calls
    and does not define.  A claim that holds for every platform holds for
    the real one. *)
Class Plataforma : Type := {
  (** [new URL(url)] returns instead of throwing *)
  URL_valida : cadena -> bool;
  parseInt : valor -> entero;
  parseFloat : valor -> numero;
  toLowerCase : cadena -> cadena;
  (** [getFullYear()] of the Date whose time value is the argument *)
  getFullYear : Z -> Z
}.

(** What ECMAScript fixes of the two conversions on the arguments that
    denote a Number outright.  [parseInt] goes through the decimal form of
    its argument, which for an integral Number below [10^21] is the
    sequence of its digits, and reads the decimal text of an integer
    exactly while binary64 holds the integer; [parseFloat] goes through
    the shortest decimal form that denotes its argument and no other
    Number ([bounded 53 1024] says that a mantissa and an exponent are
    those of a binary64 value).  On any other text both read the longest prefix that is a
    numeral, and of that nothing is assumed here. *)
Class Conversiones (P : Plataforma) : Prop := {
  parseInt_de_entero :
    forall z : Z, Z.abs z < 10 ^ 21 -> parseInt (Ventero z) = Entero z;
  parseInt_de_decimal :
    forall z : Z, Z.abs z <= 2 ^ 53 -> parseInt (Vcadena (decimal z)) = Entero z;
  parseFloat_de_numero :
    forall (s : bool) (m : positive) (e : Z),
      bounded 53 1024 m e = true ->
      parseFloat (Vnumero (S754_finite s m e)) = S754_finite s m e
}.

(* ===================================================================== *)
(** * Records *)
(* ===================================================================== *)

(** An instance of [class Pelicula], as the methods of the manager
    read it: they never assign to a field of a record that the
    collection holds.  [fechaCreacion] is the text
    [new Date().toISOString()]; it stands here as the instant, in
    milliseconds, that the text denotes and that [new Date(text)] gives
    back. *)
Record Pelicula : Type := {
  id : cadena;
  titulo : cadena;
  genero : cadena;
  director : cadena;
  ano : entero;
  calificacion : numero;
  descripcion : cadena;
  imagen : cadena;
  fechaCreacion : Z
}.

(** The plain object built by [toJSON]. *)
Record Plano : Type := {
  o_id : cadena;
  o_titulo : cadena;
  o_genero : cadena;
  o_director : cadena;
  o_ano : entero;
  o_calificacion : numero;
  o_descripcion : cadena;
  o_imagen : cadena;
  o_fechaCreacion : Z
}.

(** One element of the array that [JSON.parse] returns. *)
Record Registro : Type := {
  r_id : cadena;
  r_titulo : cadena;
  r_genero : cadena;
  r_director : cadena;
  r_ano : valor;
  r_calificacion : valor;
  r_descripcion : cadena;
  r_imagen : cadena;
  r_fechaCreacion : Z
}.

(** What [localStorage.getItem] can return besides [null].  The texts
    are told apart as far as [cargarPeliculas] tells them apart.  The
    arrays covered are the arrays of records: every element is an object
    with the fields that [toJSON] writes, strings where it writes strings
    and a Number or [null] where it writes a Number.  The text of an
    array with any other element (a [null], which makes [map] throw after
    the records before it have been constructed, a Number, an object
    with other fields) is not covered. *)
Inductive contenido : Type :=
  | CadenaVacia
      (** the empty string, the one falsy string *)
  | NoJSON
      (** a text on which [JSON.parse] throws, or the JSON text of a
          value that is not an array ([null], a Number, a string, a
          boolean, an object): the call of [map] then throws before any
          record is constructed *)
  | JSONArreglo (l : list Registro)
      (** the JSON text of an array of records; [JSON.stringify] of the
          array that [guardarPeliculas] builds is of this kind, never
          empty *).

(** [JSON.stringify] writes NaN and the infinities as [null], and both
    zeros as [0]. *)
Definition json_entero (a : entero) : valor :=
  match a with
  | NaN => Vnull
  | Entero z => Ventero z
  end.

Definition json_numero (x : numero) : valor :=
  match x with
  | S754_nan | S754_infinity _ => Vnull
  | S754_zero _ => Vnumero (S754_zero false)
  | S754_finite _ _ _ => Vnumero x
  end.

Definition json_plano (o : Plano) : Registro :=
  {| r_id := o_id o;
     r_titulo := o_titulo o;
     r_genero := o_genero o;
     r_director := o_director o;
     r_ano := json_entero (o_ano o);
     r_calificacion := json_numero (o_calificacion o);
     r_descripcion := o_descripcion o;
     r_imagen := o_imagen o;
     r_fechaCreacion := o_fechaCreacion o |}.

Definition JSON_stringify (a : list Plano) : contenido :=
  JSONArreglo (map json_plano a).

(* ===================================================================== *)
(** * The world and its computations *)
(* ===================================================================== *)

(** What the program reads from outside: the successive readings of the
    system clock (in milliseconds), the successive values of
    [Math.random().toString(36).substr(2, 9)], and whether the storage
    takes a given text or throws for lack of room. *)
Class Entorno : Type := {
  reloj : nat -> Z;
  azar : nat -> cadena;
  cuota : contenido -> bool
}.

Definition ref := nat.

(** The heap of arrays, the field [this.peliculas] of the one manager,
    the storage entry under ['cineflix_peliculas'], the texts passed to
    [setItem] so far, and how often the clock and the random generator
    have been read. *)
Record Mundo : Type := {
  monton : gmap ref (list Pelicula);
  siguiente : ref;
  this_peliculas : option ref;
  almacen : option contenido;
  escrituras : list contenido;
  lecturas_reloj : nat;
  lecturas_azar : nat
}.

Inductive excepcion : Type :=
  | TypeError
  | SyntaxError
  | QuotaExceededError
  | Error (mensaje : cadena).

Inductive salida (A : Type) : Type :=
  | Normal (a : A)
  | Lanza (e : excepcion).

Arguments Normal {A} a.
Arguments Lanza {A} e.

Definition M (A : Type) : Type := Mundo -> salida A * Mundo.

Definition devolver {A} (a : A) : M A := fun w => (Normal a, w).

Definition lanzar {A} (e : excepcion) : M A := fun w => (Lanza e, w).

Definition ligar {A B} (m : M A) (k : A -> M B) : M B :=
  fun w =>
    match m w with
    | (Normal a, w') => k a w'
    | (Lanza e, w') => (Lanza e, w')
    end.

(** [try { m } catch (e) { h e }] *)
Definition intentar {A} (m : M A) (h : excepcion -> M A) : M A :=
  fun w =>
    match m w with
    | (Normal a, w') => (Normal a, w')
    | (Lanza e, w') => h e w'
    end.

Notation "'sea' x <- m 'en' k" := (ligar m (fun x => k))
  (at level 10, x name, m at level 100, k at level 200).
Notation "m ;; k" := (ligar m (fun _ => k))
  (at level 100, k at level 200, right associativity).

Fixpoint mapM {A B} (f : A -> M B) (l : list A) : M (list B) :=
  match l with
  | [] => devolver []
  | x :: r => sea y <- f x en sea ys <- mapM f r en devolver (y :: ys)
  end.

(** ** Access to the world *)

Definition con_monton (h : gmap ref (list Pelicula)) (w : Mundo) : Mundo :=
  {| monton := h; siguiente := siguiente w;
     this_peliculas := this_peliculas w; almacen := almacen w;
     escrituras := escrituras w; lecturas_reloj := lecturas_reloj w;
     lecturas_azar := lecturas_azar w |}.

Definition con_siguiente (n : ref) (w : Mundo) : Mundo :=
  {| monton := monton w; siguiente := n;
     this_peliculas := this_peliculas w; almacen := almacen w;
     escrituras := escrituras w; lecturas_reloj := lecturas_reloj w;
     lecturas_azar := lecturas_azar w |}.

Definition con_this_peliculas (r : option ref) (w : Mundo) : Mundo :=
  {| monton := monton w; siguiente := siguiente w;
     this_peliculas := r; almacen := almacen w;
     escrituras := escrituras w; lecturas_reloj := lecturas_reloj w;
     lecturas_azar := lecturas_azar w |}.

Definition con_almacen (c : contenido) (w : Mundo) : Mundo :=
  {| monton := monton w; siguiente := siguiente w;
     this_peliculas := this_peliculas w; almacen := Some c;
     escrituras := escrituras w; lecturas_reloj := lecturas_reloj w;
     lecturas_azar := lecturas_azar w |}.

Definition con_escritura (c : contenido) (w : Mundo) : Mundo :=
  {| monton := monton w; siguiente := siguiente w;
     this_peliculas := this_peliculas w; almacen := almacen w;
     escrituras := escrituras w ++ [c]; lecturas_reloj := lecturas_reloj w;
     lecturas_azar := lecturas_azar w |}.

Definition con_lectura_reloj (w : Mundo) : Mundo :=
  {| monton := monton w; siguiente := siguiente w;
     this_peliculas := this_peliculas w; almacen := almacen w;
     escrituras := escrituras w; lecturas_reloj := S (lecturas_reloj w);
     lecturas_azar := lecturas_azar w |}.

Definition con_lectura_azar (w : Mundo) : Mundo :=
  {| monton := monton w; siguiente := siguiente w;
     this_peliculas := this_peliculas w; almacen := almacen w;
     escrituras := escrituras w; lecturas_reloj := lecturas_reloj w;
     lecturas_azar := S (lecturas_azar w) |}.

Section Programa.

Context {P : Plataforma} {E : Entorno}.

(** [Date.now()], and the time value of [new Date()] *)
Definition Date_now : M Z :=
  fun w => (Normal (reloj (lecturas_reloj w)), con_lectura_reloj w).

(** [Math.random().toString(36).substr(2, 9)] *)
Definition Math_random_base36 : M cadena :=
  fun w => (Normal (azar (lecturas_azar w)), con_lectura_azar w).

(** A new array with the elements [l]: an array literal, a spread copy,
    the result of [map], [filter] or [slice]. *)
Definition arreglo_nuevo (l : list Pelicula) : M ref :=
  fun w =>
    let r := siguiente w in
    (Normal r, con_siguiente (S r) (con_monton (<[r := l]> (monton w)) w)).

Definition arreglo_leer (r : ref) : M (list Pelicula) :=
  fun w =>
    match monton w !! r with
    | Some l => (Normal l, w)
    | None => (Lanza TypeError, w)
    end.

Definition arreglo_poner (r : ref) (l : list Pelicula) : M unit :=
  fun w => (Normal tt, con_monton (<[r := l]> (monton w)) w).

(** Reading [this.peliculas] to call a method on it; on [undefined] the
    call throws. *)
Definition leer_this_peliculas : M ref :=
  fun w =>
    match this_peliculas w with
    | Some r => (Normal r, w)
    | None => (Lanza TypeError, w)
    end.

Definition asignar_this_peliculas (r : ref) : M unit :=
  fun w => (Normal tt, con_this_peliculas (Some r) w).

Definition localStorage_getItem : M (option contenido) :=
  fun w => (Normal (almacen w), w).

Definition localStorage_setItem (c : contenido) : M unit :=
  fun w =>
    if cuota c then (Normal tt, con_almacen c (con_escritura c w))
    else (Lanza QuotaExceededError, con_escritura c w).

(** [JSON.parse(data)] and the look-up of [map] on its value: on a text
    that is not that of an array one of the two throws, a [SyntaxError]
    or a [TypeError], which [cargarPeliculas] catches without looking at
    it. *)
Definition JSON_parse (c : contenido) : M (list Registro) :=
  match c with
  | JSONArreglo l => devolver l
  | _ => lanzar SyntaxError
  end.

(** ** Array methods *)

(** [a.find(f)] and [a.findIndex(f)]; the latter answers [-1] when no
    element satisfies [f]. *)
Fixpoint find_ (f : Pelicula -> bool) (l : list Pelicula) : option Pelicula :=
  match l with
  | [] => None
  | p :: r => if f p then Some p else find_ f r
  end.

Fixpoint findIndex_desde (f : Pelicula -> bool) (l : list Pelicula) (i : Z) : Z :=
  match l with
  | [] => -1
  | p :: r => if f p then i else findIndex_desde f r (i + 1)
  end.

Definition findIndex (f : Pelicula -> bool) (l : list Pelicula) : Z :=
  findIndex_desde f l 0.

(** [a.push(p)] *)
Definition push (r : ref) (p : Pelicula) : M unit :=
  sea l <- arreglo_leer r en arreglo_poner r (l ++ [p]).

(** [a.splice(i, 1)] for an index [0 <= i]: the element at [i] goes and
    the later ones move down; nothing goes when [i] is past the end. *)
Definition splice1 (r : ref) (i : Z) : M unit :=
  sea l <- arreglo_leer r en arreglo_poner r (delete (Z.to_nat i) l).

(** [a[i] = p] for an index inside the array.  An index past the end
    would leave holes, which a list does not hold; [actualizar] passes
    the index [findIndex] found, and the array is left as it is
    otherwise. *)
Definition asignar_indice (r : ref) (i : Z) (p : Pelicula) : M unit :=
  sea l <- arreglo_leer r en arreglo_poner r (<[Z.to_nat i := p]> l).

(** [a[i]] *)
Definition leer_indice (r : ref) (i : Z) : M Pelicula :=
  sea l <- arreglo_leer r en
  match l !! Z.to_nat i with
  | Some p => devolver p
  | None => lanzar TypeError
  end.

(** [[...a]] *)
Definition copiar (r : ref) : M ref :=
  sea l <- arreglo_leer r en arreglo_nuevo l.

(** [a.filter(f)] *)
Definition filter_ (f : Pelicula -> bool) (r : ref) : M ref :=
  sea l <- arreglo_leer r en arreglo_nuevo (List.filter f l).

(** [a.slice(0, fin)] for an integer [fin]; a negative [fin] counts from
    the end. *)
Definition slice0 (fin : Z) (l : list Pelicula) : list Pelicula :=
  let n := Z.of_nat (length l) in
  let k := if fin <? 0 then Z.max (n + fin) 0 else Z.min fin n in
  take (Z.to_nat k) l.

Definition slice (r : ref) (fin : Z) : M ref :=
  sea l <- arreglo_leer r en arreglo_nuevo (slice0 fin l).

(** [a.sort(cmp)]: the array is sorted in place and returned.  The sort
    is stable; [cmp a b] above zero moves [b] before [a].  For a
    consistent comparison function the outcome is the one sequence that
    is ordered and keeps equal elements in their order, however the
    engine sorts; insertion computes it.  A comparison function that
    returns NaN when a key is NaN, as those of [ordenarPorCalificacion]
    and [ordenarPorAno] do, is not consistent on such records: the order
    of the result is then the engine's own, and insertion does not tell
    it. *)
Fixpoint insertar (cmp : Pelicula -> Pelicula -> comparison)
    (x : Pelicula) (l : list Pelicula) : list Pelicula :=
  match l with
  | [] => [x]
  | y :: r =>
    match cmp x y with
    | Gt => y :: insertar cmp x r
    | _ => x :: l
    end
  end.

Fixpoint ordenar (cmp : Pelicula -> Pelicula -> comparison)
    (l : list Pelicula) : list Pelicula :=
  match l with
  | [] => []
  | x :: r => insertar cmp x (ordenar cmp r)
  end.

Definition sort (cmp : Pelicula -> Pelicula -> comparison) (r : ref) : M ref :=
  sea l <- arreglo_leer r en
  (arreglo_poner r (ordenar cmp l) ;; devolver r).

(* ===================================================================== *)
(** * [class Pelicula] *)
(* ===================================================================== *)

(** [generarID()]: [`movie_${Date.now()}_${Math.random()...}`] *)
Definition generarID : M cadena :=
  sea t <- Date_now en
  sea r <- Math_random_base36 en
  devolver (js "movie_" ++ decimal t ++ js "_" ++ r).

(** [new Pelicula(titulo, ..., imagen, id = null)].  [ident = None] is
    the omitted (or [null]) last argument. *)
Definition Pelicula_new (titulo0 genero0 director0 : cadena)
    (ano0 calificacion0 : valor) (descripcion0 imagen0 : cadena)
    (ident : option cadena) : M Pelicula :=
  sea i <- match ident with
           | Some s => if verdadera s then devolver s else generarID
           | None => generarID
           end en
  sea f <- Date_now en
  devolver {| id := i;
              titulo := titulo0;
              genero := genero0;
              director := director0;
              ano := parseInt ano0;
              calificacion := parseFloat calificacion0;
              descripcion := descripcion0;
              imagen := imagen0;
              fechaCreacion := f |}.

(** [pelicula.fechaCreacion = f] on an object no one else holds yet *)
Definition con_fechaCreacion (f : Z) (p : Pelicula) : Pelicula :=
  {| id := id p; titulo := titulo p; genero := genero p;
     director := director p; ano := ano p; calificacion := calificacion p;
     descripcion := descripcion p; imagen := imagen p;
     fechaCreacion := f |}.

Definition validarURL (url : cadena) : bool := URL_valida url.

Record Validacion : Type := {
  valido : bool;
  errores : list cadena
}.

Definition msg_titulo : cadena :=
  js "El título debe tener al menos 2 caracteres".
Definition msg_genero : cadena :=
  js "Debe seleccionar un género".
Definition msg_director : cadena :=
  js "El director debe tener al menos 2 caracteres".
Definition msg_ano : cadena :=
  js "El año debe estar entre 1900 y el año actual + 5".
Definition msg_calificacion : cadena :=
  js "La calificación debe estar entre 1 y 10".
Definition msg_descripcion : cadena :=
  js "La descripción debe tener al menos 10 caracteres".
Definition msg_imagen : cadena :=
  js "Debe proporcionar una URL de imagen válida".

(** [if (c) { errores.push(m) }] on the local array [errores] *)
Definition anotar (c : bool) (m : cadena) (errores0 : list cadena) : list cadena :=
  if c then errores0 ++ [m] else errores0.

(** [validar()].  The clock is read only when the two tests before it in
    the disjunction of the year are false. *)
Definition validar (p : Pelicula) : M Validacion :=
  let e0 := [] in
  let e1 := anotar (negb (verdadera (titulo p))
                    || (longitud (trim (titulo p)) <? 2)) msg_titulo e0 in
  let e2 := anotar (negb (verdadera (genero p))) msg_genero e1 in
  let e3 := anotar (negb (verdadera (director p))
                    || (longitud (trim (director p)) <? 2)) msg_director e2 in
  sea c4 <- (if falso_entero (ano p) || menor_entero (ano p) 1900
             then devolver true
             else sea t <- Date_now en
                  devolver (mayor_entero (ano p) (getFullYear t + 5))) en
  let e4 := anotar c4 msg_ano e3 in
  let e5 := anotar (falso_numero (calificacion p)
                    || SFltb (calificacion p) uno
                    || SFltb diez (calificacion p)) msg_calificacion e4 in
  let e6 := anotar (negb (verdadera (descripcion p))
                    || (longitud (trim (descripcion p)) <? 10))
                   msg_descripcion e5 in
  let e7 := anotar (negb (verdadera (imagen p))
                    || negb (validarURL (imagen p))) msg_imagen e6 in
  devolver {| valido := bool_decide (length e7 = 0%nat); errores := e7 |}.

Definition toJSON (p : Pelicula) : Plano :=
  {| o_id := id p;
     o_titulo := titulo p;
     o_genero := genero p;
     o_director := director p;
     o_ano := ano p;
     o_calificacion := calificacion p;
     o_descripcion := descripcion p;
     o_imagen := imagen p;
     o_fechaCreacion := fechaCreacion p |}.

(* ===================================================================== *)
(** * [class PeliculaManager] *)
(* ===================================================================== *)

(** The object a mutator returns; [pelicula] is set by a successful
    [agregar] only. *)
Record Resultado : Type := {
  exito : bool;
  mensaje : cadena;
  pelicula : option Pelicula
}.

(** The object [datos] that [actualizar] receives. *)
Record Datos : Type := {
  d_titulo : cadena;
  d_genero : cadena;
  d_director : cadena;
  d_ano : valor;
  d_calificacion : valor;
  d_descripcion : cadena;
  d_imagen : cadena
}.

Definition msg_no_encontrada : cadena := js "Película no encontrada".
Definition msg_agregada : cadena := js "Película agregada exitosamente".
Definition msg_actualizada : cadena := js "Película actualizada exitosamente".
Definition msg_eliminada : cadena := js "Película eliminada exitosamente".
Definition msg_no_guardadas : cadena :=
  js "No se pudieron guardar las películas".

Definition salto : cadena := [10%N].

(** [guardarPeliculas()] *)
Definition guardarPeliculas : M unit :=
  intentar
    (sea r <- leer_this_peliculas en
     sea l <- arreglo_leer r en
     let peliculasJSON := map toJSON l in
     localStorage_setItem (JSON_stringify peliculasJSON))
    (fun _ => lanzar (Error msg_no_guardadas)).

(** A Number literal with one decimal digit, such as [8.7], denotes the
    binary64 value nearest to it: the correctly rounded quotient of two
    integers that binary64 holds exactly. *)
Definition literal_decimal (decimas : Z) : numero :=
  SFdiv 53 1024 (numero_de_Z decimas) diez.

Record Semilla : Type := {
  s_titulo : string;
  s_genero : string;
  s_director : string;
  s_ano : Z;
  s_calificacion : Z;  (** in tenths *)
  s_descripcion : string;
  s_imagen : string
}.

Definition semillas : list Semilla :=
  [ {| s_titulo := "Matrix";
       s_genero := "Ciencia Ficción";
       s_director := "Lana Wachowski, Lilly Wachowski";
       s_ano := 1999;
       s_calificacion := 87;
       s_descripcion := "Un hacker descubre la impactante verdad sobre su realidad y su papel en la guerra contra sus controladores.";
       s_imagen := "https://image.tmdb.org/t/p/w500/f89U3ADr1oiB1s9GkdPOEpXUk5H.jpg" |};
    {| s_titulo := "El Padrino";
       s_genero := "Drama";
       s_director := "Francis Ford Coppola";
       s_ano := 1972;
       s_calificacion := 92;
       s_descripcion := "El patriarca envejecido de una dinastía del crimen organizado transfiere el control de su imperio clandestino a su hijo reacio.";
       s_imagen := "https://image.tmdb.org/t/p/w500/3bhkrj58Vtu7enYsRolD1fZdja1.jpg" |};
    {| s_titulo := "Inception";
       s_genero := "Ciencia Ficción";
       s_director := "Christopher Nolan";
       s_ano := 2010;
       s_calificacion := 88;
       s_descripcion := "Un ladrón que roba secretos corporativos mediante el uso de tecnología de sueños compartidos recibe la tarea inversa de plantar una idea.";
       s_imagen := "https://image.tmdb.org/t/p/w500/9gk7adHYeDvHkCSEqAvQNLV5Uge.jpg" |};
    {| s_titulo := "Forrest Gump";
       s_genero := "Drama";
       s_director := "Robert Zemeckis";
       s_ano := 1994;
       s_calificacion := 88;
       s_descripcion := "Las presidencias de Kennedy y Johnson, los eventos de Vietnam, Watergate y otros eventos históricos se desarrollan a través de la perspectiva de un hombre de Alabama.";
       s_imagen := "https://image.tmdb.org/t/p/w500/arw2vcBveWOVZr6pxd9XTd1TdQa.jpg" |};
    {| s_titulo := "Pulp Fiction";
       s_genero := "Acción";
       s_director := "Quentin Tarantino";
       s_ano := 1994;
       s_calificacion := 89;
       s_descripcion := "Las vidas de dos asesinos a sueldo, un boxeador, la esposa de un gánster y dos bandidos se entrelazan en cuatro historias de violencia y redención.";
       s_imagen := "https://image.tmdb.org/t/p/w500/d5iIlFn5s0ImszYzBPb8JPIfbXD.jpg" |};
    {| s_titulo := "Interestelar";
       s_genero := "Ciencia Ficción";
       s_director := "Christopher Nolan";
       s_ano := 2014;
       s_calificacion := 86;
       s_descripcion := "Un equipo de exploradores viaja a través de un agujero de gusano en el espacio en un intento de asegurar la supervivencia de la humanidad.";
       s_imagen := "https://image.tmdb.org/t/p/w500/gEU2QniE6E77NI6lCU6MxlNBvIx.jpg" |};
    {| s_titulo := "El Señor de los Anillos: El Retorno del Rey";
       s_genero := "Aventura";
       s_director := "Peter Jackson";
       s_ano := 2003;
       s_calificacion := 89;
       s_descripcion := "Gandalf y Aragorn lideran el Mundo de los Hombres contra el ejército de Sauron para atraer su mirada de Frodo y Sam mientras se acercan al Monte del Destino.";
       s_imagen := "https://image.tmdb.org/t/p/w500/rCzpDGLbOoPwLjy3OAm5NUPOTrC.jpg" |};
    {| s_titulo := "Gladiador";
       s_genero := "Acción";
       s_director := "Ridley Scott";
       s_ano := 2000;
       s_calificacion := 85;
       s_descripcion := "Un ex general romano busca venganza contra el corrupto emperador que asesinó a su familia y lo envió a la esclavitud.";
       s_imagen := "https://image.tmdb.org/t/p/w500/ty8TGRuvJLPUmAR1H1nRIsgwvim.jpg" |} ].

Definition Pelicula_de_semilla (s : Semilla) : M Pelicula :=
  Pelicula_new (js (s_titulo s)) (js (s_genero s)) (js (s_director s))
    (Ventero (s_ano s)) (Vnumero (literal_decimal (s_calificacion s)))
    (js (s_descripcion s)) (js (s_imagen s)) None.

(** [obtenerPeliculasIniciales()]: the eight constructor calls run in the
    order of the array literal. *)
Definition obtenerPeliculasIniciales : M ref :=
  sea l <- mapM Pelicula_de_semilla semillas en
  sea peliculasIniciales <- arreglo_nuevo l en
  (asignar_this_peliculas peliculasIniciales ;;
   guardarPeliculas ;;
   devolver peliculasIniciales).

Definition Pelicula_de_registro (p : Registro) : M Pelicula :=
  sea pelicula <- Pelicula_new (r_titulo p) (r_genero p) (r_director p)
                    (r_ano p) (r_calificacion p) (r_descripcion p)
                    (r_imagen p) (Some (r_id p)) en
  devolver (con_fechaCreacion (r_fechaCreacion p) pelicula).

(** [if (data)] on the value of [getItem] *)
Definition hay_datos (data : option contenido) : bool :=
  match data with
  | None | Some CadenaVacia => false
  | Some _ => true
  end.

(** [cargarPeliculas()]; [console.error] leaves no trace in the world. *)
Definition cargarPeliculas : M ref :=
  intentar
    (sea data <- localStorage_getItem en
     match data with
     | Some c =>
       if hay_datos data then
         sea peliculasData <- JSON_parse c en
         sea l <- mapM Pelicula_de_registro peliculasData en
         arreglo_nuevo l
       else obtenerPeliculasIniciales
     | None => obtenerPeliculasIniciales
     end)
    (fun _ => obtenerPeliculasIniciales).

(** [new PeliculaManager()]: a new object, whose field [peliculas] is
    undefined until the assignment. *)
Definition PeliculaManager_new : M unit :=
  fun w =>
    (sea r <- cargarPeliculas en asignar_this_peliculas r)
      (con_this_peliculas None w).

(** [obtenerTodas()] *)
Definition obtenerTodas : M ref :=
  sea r <- leer_this_peliculas en copiar r.

(** [obtenerPorId(id)]; [None] is [null] *)
Definition obtenerPorId (ident : cadena) : M (option Pelicula) :=
  sea r <- leer_this_peliculas en
  sea l <- arreglo_leer r en
  devolver (find_ (fun p => igual (id p) ident) l).

(** [agregar(pelicula)] *)
Definition agregar (pelicula0 : Pelicula) : M Resultado :=
  sea validacion <- validar pelicula0 en
  if negb (valido validacion) then
    devolver {| exito := false;
                mensaje := join salto (errores validacion);
                pelicula := None |}
  else
    sea r <- leer_this_peliculas en
    (push r pelicula0 ;;
     guardarPeliculas ;;
     devolver {| exito := true;
                 mensaje := msg_agregada;
                 pelicula := Some pelicula0 |}).

(** [actualizar(id, datos)] *)
Definition actualizar (ident : cadena) (datos : Datos) : M Resultado :=
  sea r <- leer_this_peliculas en
  sea l <- arreglo_leer r en
  let index := findIndex (fun p => igual (id p) ident) l in
  if index =? -1 then
    devolver {| exito := false; mensaje := msg_no_encontrada; pelicula := None |}
  else
    sea nueva <- Pelicula_new (d_titulo datos) (d_genero datos)
                   (d_director datos) (d_ano datos) (d_calificacion datos)
                   (d_descripcion datos) (d_imagen datos) (Some ident) en
    sea r1 <- leer_this_peliculas en
    sea original <- leer_indice r1 index en
    let peliculaActualizada := con_fechaCreacion (fechaCreacion original) nueva in
    sea validacion <- validar peliculaActualizada en
    if negb (valido validacion) then
      devolver {| exito := false;
                  mensaje := join salto (errores validacion);
                  pelicula := None |}
    else
      sea r2 <- leer_this_peliculas en
      (asignar_indice r2 index peliculaActualizada ;;
       guardarPeliculas ;;
       devolver {| exito := true; mensaje := msg_actualizada; pelicula := None |}).

(** [eliminar(id)] *)
Definition eliminar (ident : cadena) : M Resultado :=
  sea r <- leer_this_peliculas en
  sea l <- arreglo_leer r en
  let index := findIndex (fun p => igual (id p) ident) l in
  if index =? -1 then
    devolver {| exito := false; mensaje := msg_no_encontrada; pelicula := None |}
  else
    sea r1 <- leer_this_peliculas en
    (splice1 r1 index ;;
     guardarPeliculas ;;
     devolver {| exito := true; mensaje := msg_eliminada; pelicula := None |}).

(** The test inside the [filter] of [buscar] and of [buscarYFiltrar] *)
Definition contiene_termino (terminoLower : cadena) (p : Pelicula) : bool :=
  includes (toLowerCase (titulo p)) terminoLower
  || includes (toLowerCase (director p)) terminoLower
  || includes (toLowerCase (descripcion p)) terminoLower.

(** [buscar(termino)] *)
Definition buscar (termino : cadena) : M ref :=
  if negb (verdadera termino) || igual (trim termino) []
  then obtenerTodas
  else
    let terminoLower := toLowerCase termino in
    sea r <- leer_this_peliculas en
    filter_ (contiene_termino terminoLower) r.

(** [filtrarPorGenero(genero)] *)
Definition filtrarPorGenero (genero0 : cadena) : M ref :=
  if negb (verdadera genero0) || igual genero0 []
  then obtenerTodas
  else
    sea r <- leer_this_peliculas en
    filter_ (fun p => igual (genero p) genero0) r.

(** [buscarYFiltrar(termino, genero)] *)
Definition buscarYFiltrar (termino genero0 : cadena) : M ref :=
  sea resultado0 <- obtenerTodas en
  sea resultado1 <- (if verdadera genero0 && negb (igual genero0 [])
                     then filter_ (fun p => igual (genero p) genero0) resultado0
                     else devolver resultado0) en
  sea resultado2 <- (if verdadera termino && negb (igual (trim termino) [])
                     then let terminoLower := toLowerCase termino in
                          filter_ (contiene_termino terminoLower) resultado1
                     else devolver resultado1) en
  devolver resultado2.

(** The three comparison functions, as the sign [sort] looks at *)
Definition cmp_recientes (a b : Pelicula) : comparison :=
  signo_Z (fechaCreacion b - fechaCreacion a).

Definition cmp_calificacion (descendente : bool) (a b : Pelicula) : comparison :=
  signo_numero (if descendente
                then resta_numero (calificacion b) (calificacion a)
                else resta_numero (calificacion a) (calificacion b)).

Definition cmp_ano (descendente : bool) (a b : Pelicula) : comparison :=
  signo_entero (if descendente
                then resta_entero (ano b) (ano a)
                else resta_entero (ano a) (ano b)).

(** [obtenerRecientes(cantidad = 5)] for an integer [cantidad] *)
Definition obtenerRecientes (cantidad : option Z) : M ref :=
  let cantidad0 := match cantidad with Some n => n | None => 5 end in
  sea r <- leer_this_peliculas en
  sea c <- copiar r en
  sea o <- sort cmp_recientes c en
  slice o cantidad0.

(** [ordenarPorCalificacion(descendente = true)] *)
Definition ordenarPorCalificacion (descendente : option bool) : M ref :=
  let descendente0 := match descendente with Some b => b | None => true end in
  sea r <- leer_this_peliculas en
  sea c <- copiar r en
  sort (cmp_calificacion descendente0) c.

(** [ordenarPorAno(descendente = true)] *)
Definition ordenarPorAno (descendente : option bool) : M ref :=
  let descendente0 := match descendente with Some b => b | None => true end in
  sea r <- leer_this_peliculas en
  sea c <- copiar r en
  sort (cmp_ano descendente0) c.

End Programa.

(* ===================================================================== *)
(** * The rules of the specification *)
(* ===================================================================== *)

(** The field rules as the data model words them, each one true when the
    field is acceptable; [y] is the current calendar year.  Lengths count
    UTF-16 code units after [trim], as [length] does. *)
Section Reglas.

Context {P : Plataforma}.

Definition regla_titulo (p : Pelicula) : bool :=
  2 <=? longitud (trim (titulo p)).

Definition regla_genero (p : Pelicula) : bool :=
  negb (igual (genero p) []).

Definition regla_director (p : Pelicula) : bool :=
  2 <=? longitud (trim (director p)).

Definition regla_ano (y : Z) (p : Pelicula) : bool :=
  match ano p with
  | NaN => false
  | Entero z => (1900 <=? z) && (z <=? y + 5)
  end.

Definition regla_calificacion (p : Pelicula) : bool :=
  SFleb uno (calificacion p) && SFleb (calificacion p) diez.

Definition regla_descripcion (p : Pelicula) : bool :=
  10 <=? longitud (trim (descripcion p)).

Definition regla_imagen (p : Pelicula) : bool :=
  negb (igual (imagen p) []) && URL_valida (imagen p).

(** The seven verdicts and the seven messages, in the order in which the
    rules are declared. *)
Definition veredictos (y : Z) (p : Pelicula) : list bool :=
  [ regla_titulo p; regla_genero p; regla_director p; regla_ano y p;
    regla_calificacion p; regla_descripcion p; regla_imagen p ].

Definition mensajes : list cadena :=
  [ msg_titulo; msg_genero; msg_director; msg_ano;
    msg_calificacion; msg_descripcion; msg_imagen ].

(** The messages of the rules whose verdict is false, in order. *)
Fixpoint seleccionar (vs : list bool) (ms : list cadena) : list cadena :=
  match vs, ms with
  | v :: vs', m :: ms' =>
    if v then seleccionar vs' ms' else m :: seleccionar vs' ms'
  | _, _ => []
  end.

Definition violadas (y : Z) (p : Pelicula) : list cadena :=
  seleccionar (veredictos y p) mensajes.

Definition cumple (y : Z) (p : Pelicula) : Prop :=
  violadas y p = [].

(** Whether [validar] gets as far as reading the clock. *)
Definition lee_reloj (p : Pelicula) : bool :=
  negb (falso_entero (ano p) || menor_entero (ano p) 1900).

End Reglas.

(* ===================================================================== *)
(** * The manager seen from outside *)
(* ===================================================================== *)

Section Gestor.

Context {P : Plataforma} {E : Entorno}.

(** The collection: the elements of the array [this.peliculas]. *)
Definition items (w : Mundo) : list Pelicula :=
  match this_peliculas w with
  | Some r => default [] (monton w !! r)
  | None => []
  end.

(** [this.peliculas] is the allocated array [r], whose elements are [l]. *)
Definition gestor_en (w : Mundo) (r : ref) (l : list Pelicula) : Prop :=
  this_peliculas w = Some r /\ monton w !! r = Some l /\ (r < siguiente w)%nat.

(** The world after [arreglo_nuevo l]. *)
Definition con_arreglo (l : list Pelicula) (w : Mundo) : Mundo :=
  con_siguiente (S (siguiente w)) (con_monton (<[siguiente w := l]> (monton w)) w).

(** The elements of the array that a computation returns. *)
Definition elementos (m : M ref) (w : Mundo) : option (list Pelicula) :=
  match m w with
  | (Normal r, w') => monton w' !! r
  | (Lanza _, _) => None
  end.

(** The two predicates of the queries, as the specification words them:
    a blank term and an empty genre match every record. *)
Definition coincide_termino (termino : cadena) (p : Pelicula) : bool :=
  igual (trim termino) [] || contiene_termino (toLowerCase termino) p.

Definition coincide_genero (genero0 : cadena) (p : Pelicula) : bool :=
  igual genero0 [] || igual (genero p) genero0.

(** Equal creation dates keep their order: for every instant, the records
    created at it appear in [l'] in the order they have in [l]. *)
Definition conserva_empates (l l' : list Pelicula) : Prop :=
  forall t : Z,
    List.filter (fun p => fechaCreacion p =? t) l'
    = List.filter (fun p => fechaCreacion p =? t) l.

Definition mas_reciente_primero (l : list Pelicula) : Prop :=
  StronglySorted (fun a b => fechaCreacion b <= fechaCreacion a) l.

(** ** Queries *)

Inductive consulta : Type :=
  | QobtenerTodas
  | QobtenerPorId (ident : cadena)
  | Qbuscar (termino : cadena)
  | QfiltrarPorGenero (genero0 : cadena)
  | QbuscarYFiltrar (termino genero0 : cadena)
  | QobtenerRecientes (cantidad : option Z)
  | QordenarPorCalificacion (descendente : option bool)
  | QordenarPorAno (descendente : option bool).

Inductive respuesta : Type :=
  | Rarreglo (r : ref)
  | Rpelicula (p : option Pelicula).

Definition consultar (q : consulta) : M respuesta :=
  match q with
  | QobtenerTodas => sea r <- obtenerTodas en devolver (Rarreglo r)
  | QobtenerPorId i => sea p <- obtenerPorId i en devolver (Rpelicula p)
  | Qbuscar t => sea r <- buscar t en devolver (Rarreglo r)
  | QfiltrarPorGenero g => sea r <- filtrarPorGenero g en devolver (Rarreglo r)
  | QbuscarYFiltrar t g => sea r <- buscarYFiltrar t g en devolver (Rarreglo r)
  | QobtenerRecientes n => sea r <- obtenerRecientes n en devolver (Rarreglo r)
  | QordenarPorCalificacion d =>
    sea r <- ordenarPorCalificacion d en devolver (Rarreglo r)
  | QordenarPorAno d => sea r <- ordenarPorAno d en devolver (Rarreglo r)
  end.

(** ** Calls and reachable worlds *)

(** The arguments of one constructor call. *)
Record Argumentos : Type := {
  a_titulo : cadena;
  a_genero : cadena;
  a_director : cadena;
  a_ano : valor;
  a_calificacion : valor;
  a_descripcion : cadena;
  a_imagen : cadena;
  a_id : option cadena
}.

Definition construir (a : Argumentos) : M Pelicula :=
  Pelicula_new (a_titulo a) (a_genero a) (a_director a) (a_ano a)
    (a_calificacion a) (a_descripcion a) (a_imagen a) (a_id a).

(** What a caller does with the manager: [agregar(new Pelicula(...))],
    [actualizar], [eliminar], or a query. *)
Inductive llamada : Type :=
  | Agregar (a : Argumentos)
  | Actualizar (ident : cadena) (datos : Datos)
  | Eliminar (ident : cadena)
  | Consultar (q : consulta).

Definition ejecutar (c : llamada) : M unit :=
  match c with
  | Agregar a => sea p <- construir a en (agregar p ;; devolver tt)
  | Actualizar i d => actualizar i d ;; devolver tt
  | Eliminar i => eliminar i ;; devolver tt
  | Consultar q => consultar q ;; devolver tt
  end.

(** The world after a sequence of calls; a call that throws leaves the
    world as it was when it threw, and the caller goes on. *)
Definition correr (cs : list llamada) (w : Mundo) : Mundo :=
  fold_left (fun w0 c => snd (ejecutar c w0)) cs w.

(** A world in which a manager exists: its constructor returned, in
    whatever world it ran, and calls followed. *)
Definition alcanzable (w : Mundo) : Prop :=
  exists (w0 w1 : Mundo) (cs : list llamada),
    PeliculaManager_new w0 = (Normal tt, w1) /\ w = correr cs w1.

(** The record that [Pelicula_de_semilla] builds for one row of the
    table, given the identifier and the creation date it receives. *)
Definition Pelicula_semilla (s : Semilla) (ident : cadena) (f : Z) : Pelicula :=
  {| id := ident;
     titulo := js (s_titulo s);
     genero := js (s_genero s);
     director := js (s_director s);
     ano := parseInt (Ventero (s_ano s));
     calificacion := parseFloat (Vnumero (literal_decimal (s_calificacion s)));
     descripcion := js (s_descripcion s);
     imagen := js (s_imagen s);
     fechaCreacion := f |}.

(** The identifier generated at the [n]-th reading of the clock and the
    [k]-th of the random generator. *)
Definition id_generado (n k : nat) : cadena :=
  js "movie_" ++ decimal (reloj n) ++ js "_" ++ azar k.

(** The rows [ss] built one after the other from the readings [n] and
    [k] on: each takes two readings of the clock and one of the random
    generator. *)
Fixpoint iniciales_desde (n k : nat) (ss : list Semilla) : list Pelicula :=
  match ss with
  | [] => []
  | s :: r =>
    Pelicula_semilla s (id_generado n k) (reloj (S n))
    :: iniciales_desde (S (S n)) (S k) r
  end.

(** The default set as [obtenerPeliculasIniciales] builds it in [w]: the
    eight records of the table, in its order, with the identifiers and
    creation dates they receive there. *)
Definition peliculasIniciales_en (w : Mundo) : list Pelicula :=
  iniciales_desde (lecturas_reloj w) (lecturas_azar w) semillas.

(** [w] with its two counters of readings set. *)
Definition con_lecturas (n k : nat) (w : Mundo) : Mundo :=
  {| monton := monton w; siguiente := siguiente w;
     this_peliculas := this_peliculas w; almacen := almacen w;
     escrituras := escrituras w; lecturas_reloj := n; lecturas_azar := k |}.

(** The world in which [obtenerPeliculasIniciales], started in [w], calls
    [guardarPeliculas]. *)
Definition con_iniciales (w : Mundo) : Mundo :=
  con_this_peliculas (Some (siguiente w))
    (con_arreglo (peliculasIniciales_en w)
       (con_lecturas (lecturas_reloj w + 16) (lecturas_azar w + 8) w)).

(** [r] is an allocated array of records with identifiers. *)
Definition arreglo_valido (r : ref) (w : Mundo) : Prop :=
  exists l : list Pelicula,
    monton w !! r = Some l /\ (r < siguiente w)%nat
    /\ Forall (fun p => id p <> []) l.

(** The record [p] is what the constructor makes of the stored record
    [reg]: its fields, its creation date, and its identifier unless that
    is the empty string. *)
Definition corresponde (p : Pelicula) (reg : Registro) : Prop :=
  titulo p = r_titulo reg /\ genero p = r_genero reg
  /\ director p = r_director reg /\ ano p = parseInt (r_ano reg)
  /\ calificacion p = parseFloat (r_calificacion reg)
  /\ descripcion p = r_descripcion reg /\ imagen p = r_imagen reg
  /\ fechaCreacion p = r_fechaCreacion reg
  /\ (r_id reg <> [] -> id p = r_id reg) /\ id p <> [].

(** The record that [actualizar] puts in the place of [original]: the
    fields of [datos], the identifier asked for, the creation date of
    [original]. *)
Definition actualizada (ident : cadena) (datos : Datos) (original : Pelicula)
    : Pelicula :=
  {| id := ident;
     titulo := d_titulo datos;
     genero := d_genero datos;
     director := d_director datos;
     ano := parseInt (d_ano datos);
     calificacion := parseFloat (d_calificacion datos);
     descripcion := d_descripcion datos;
     imagen := d_imagen datos;
     fechaCreacion := fechaCreacion original |}.

(** What the three mutators answer. *)
Definition no_encontrada : Resultado :=
  {| exito := false; mensaje := msg_no_encontrada; pelicula := None |}.

Definition rechazada (errores0 : list cadena) : Resultado :=
  {| exito := false; mensaje := join salto errores0; pelicula := None |}.

Definition aceptada (m : cadena) (p : option Pelicula) : Resultado :=
  {| exito := true; mensaje := m; pelicula := p |}.

(** The world after [guardarPeliculas] has written, or tried to write,
    the collection [l]. *)
Definition guardada (l : list Pelicula) (w : Mundo) : salida unit * Mundo :=
  let c := JSON_stringify (map toJSON l) in
  if cuota c then (Normal tt, con_almacen c (con_escritura c w))
  else (Lanza (Error msg_no_guardadas), con_escritura c w).

(** A computation that ends by returning [a] once the collection is
    saved. *)
Definition y_devolver {A} (x : salida unit * Mundo) (a : A) : salida A * Mundo :=
  match x with
  | (Normal _, w') => (Normal a, w')
  | (Lanza e, w') => (Lanza e, w')
  end.

(** The array [r] holding [l] from now on. *)
Definition con_elementos (r : ref) (l : list Pelicula) (w : Mundo) : Mundo :=
  con_monton (<[r := l]> (monton w)) w.

(** The world after [validar p] has run in [w]. *)
Definition tras_validar (p : Pelicula) (w : Mundo) : Mundo :=
  if lee_reloj p then con_lectura_reloj w else w.

(** The calendar year that [new Date().getFullYear()] reads in [w]. *)
Definition ano_actual (w : Mundo) : Z :=
  getFullYear (reloj (lecturas_reloj w)).

(** [w'] is [w] with new arrays added: the arrays of [w], the field
    [this.peliculas], the storage and the counters are as they were. *)
Definition amplia (w w' : Mundo) : Prop :=
  this_peliculas w' = this_peliculas w
  /\ almacen w' = almacen w
  /\ escrituras w' = escrituras w
  /\ lecturas_reloj w' = lecturas_reloj w
  /\ lecturas_azar w' = lecturas_azar w
  /\ (siguiente w <= siguiente w')%nat
  /\ forall r : ref, (r < siguiente w)%nat -> monton w' !! r = monton w !! r.

(** [m] returns a new array whose elements are [l'], in a world that has
    only gained arrays. *)
Definition devuelve_arreglo (m : M ref) (w : Mundo) (l' : list Pelicula) : Prop :=
  match m w with
  | (Normal r', w') =>
    amplia w w' /\ (siguiente w <= r')%nat /\ monton w' !! r' = Some l'
  | (Lanza _, _) => False
  end.

(** [w'] is [w] but for the readings of the clock and of the random
    generator. *)
Definition mismo_salvo_lecturas (w w' : Mundo) : Prop :=
  monton w' = monton w
  /\ siguiente w' = siguiente w
  /\ this_peliculas w' = this_peliculas w
  /\ almacen w' = almacen w
  /\ escrituras w' = escrituras w
  /\ (lecturas_reloj w <= lecturas_reloj w')%nat
  /\ (lecturas_azar w <= lecturas_azar w')%nat.

(** The manager owns an allocated array, and every record in it has an
    identifier that is not the empty string. *)
Definition bien_formado (w : Mundo) : Prop :=
  exists (r : ref) (l : list Pelicula),
    gestor_en w r l /\ Forall (fun p => id p <> []) l.

Definition ids (l : list Pelicula) : list cadena := map id l.

End Gestor.

(* ===================================================================== *)
(** * A platform and environments for the worked examples *)
(* ===================================================================== *)

(** A concrete platform on which the program can be run.  Its built-ins
    follow ECMAScript on the arguments described with each of them; the
    general results above and below do not depend on it. *)
Module Ejemplo.

Definition es_digito (c : N) : bool := ((48 <=? c) && (c <=? 57))%N.

Definition valor_hex (c : N) : option Z :=
  if ((48 <=? c) && (c <=? 57))%N then Some (Z.of_N c - 48)
  else if ((97 <=? c) && (c <=? 102))%N then Some (Z.of_N c - 87)
  else if ((65 <=? c) && (c <=? 70))%N then Some (Z.of_N c - 55)
  else None.

Definition valor_en_base (base : Z) (c : N) : option Z :=
  match valor_hex c with
  | Some d => if d <? base then Some d else None
  | None => None
  end.

(** The longest prefix of digits in [base]: how many there are, their
    value, and what follows them. *)
Fixpoint leer_digitos (base : Z) (s : cadena) (n : nat) (acc : Z)
    : nat * Z * cadena :=
  match s with
  | c :: r =>
    match valor_en_base base c with
    | Some d => leer_digitos base r (S n) (acc * base + d)
    | None => (n, acc, s)
    end
  | [] => (n, acc, s)
  end.

(** A leading sign, if any: whether it is a minus, and what follows. *)
Definition leer_signo (s : cadena) : bool * cadena :=
  match s with
  | 45%N :: r => (true, r)
  | 43%N :: r => (false, r)
  | _ => (false, s)
  end.

(** [parseInt(string)], radix omitted *)
Definition parseInt_cadena (s : cadena) : entero :=
  let '(menos, s1) := leer_signo (quitar_blancos s) in
  let '(base, s2) :=
    match s1 with
    | 48%N :: 120%N :: r | 48%N :: 88%N :: r => (16, r)
    | _ => (10, s1)
    end in
  let '(n, v, _) := leer_digitos base s2 0 0 in
  match n with
  | O => NaN
  | _ => Entero (if menos then - v else v)
  end.

(** The integer part of a finite binary64 value. *)
Definition truncar (x : numero) : Z :=
  match x with
  | S754_finite s m e =>
    let a := if 0 <=? e then Z.pos m * 2 ^ e else Z.pos m / 2 ^ (- e) in
    if s then - a else a
  | _ => 0
  end.

(** Whether [10^-6 <= |x| < 10^21], the range in which the decimal form
    of a Number has no exponent part. *)
Definition sin_exponente (x : numero) : bool :=
  match x with
  | S754_finite _ m e =>
    if 0 <=? e then Z.pos m * 2 ^ e <? 10 ^ 21
    else (2 ^ (- e) <=? Z.pos m * 10 ^ 6) && (Z.pos m <? 10 ^ 21 * 2 ^ (- e))
  | _ => false
  end.

(** [parseInt] converts its argument to a string first.  Covered: [null],
    strings, zero, NaN, the infinities and the Numbers whose decimal form
    has no exponent part; the others are answered with NaN. *)
Definition parseInt_ejemplo (v : valor) : entero :=
  match v with
  | Vnull => NaN
  | Vcadena s => parseInt_cadena s
  | Ventero z => if Z.abs z <? 10 ^ 21 then Entero z else NaN
  | Vnumero (S754_zero _) => Entero 0
  | Vnumero x => if sin_exponente x then Entero (truncar x) else NaN
  end.

(** The binary64 value nearest to [d * 10^k], for [0 < d]. *)
Definition redondear_decimal (d : positive) (k : Z) : numero :=
  if 0 <=? k then numero_de_Z (Z.pos d * 10 ^ k)
  else SFdiv 53 1024 (S754_finite false d 0)
                     (S754_finite false (Z.to_pos (10 ^ (- k))) 0).

Definition con_signo (menos : bool) (x : numero) : numero :=
  if menos then SFopp x else x.

(** [parseFloat(string)]: the longest prefix that is a decimal literal *)
Definition parseFloat_cadena (s : cadena) : numero :=
  let '(menos, s1) := leer_signo (quitar_blancos s) in
  if empieza_con (js "Infinity") s1 then S754_infinity menos
  else
    let '(n1, v1, s2) := leer_digitos 10 s1 0 0 in
    let '(n2, v2, s3) :=
      match s2 with
      | 46%N :: r => leer_digitos 10 r 0 v1
      | _ => (O, v1, s2)
      end in
    match (n1 + n2)%nat with
    | O => S754_nan
    | _ =>
      let ex :=
        match s3 with
        | 101%N :: r | 69%N :: r =>
          let '(menos_e, r1) := leer_signo r in
          let '(n3, v3, _) := leer_digitos 10 r1 0 0 in
          match n3 with
          | O => 0
          | _ => if menos_e then - v3 else v3
          end
        | _ => 0
        end in
      match v2 with
      | Z.pos d => con_signo menos (redondear_decimal d (ex - Z.of_nat n2))
      | _ => S754_zero menos
      end
    end.

(** Covered: every argument; a Number goes through its decimal form and
    comes back as it was, but for the negative zero. *)
Definition parseFloat_ejemplo (v : valor) : numero :=
  match v with
  | Vnull => S754_nan
  | Vcadena s => parseFloat_cadena s
  | Ventero z => numero_de_Z z
  | Vnumero (S754_zero _) => S754_zero false
  | Vnumero x => x
  end.

(** Lower case on Basic Latin and the Latin-1 Supplement; other code
    units are left as they are. *)
Definition minuscula (c : N) : N :=
  if ((65 <=? c) && (c <=? 90))%N then (c + 32)%N
  else if ((192 <=? c) && (c <=? 222) && negb (c =? 215))%N then (c + 32)%N
  else c.

Definition toLowerCase_ejemplo (s : cadena) : cadena := map minuscula s.

Definition es_letra (c : N) : bool :=
  (((65 <=? c) && (c <=? 90)) || ((97 <=? c) && (c <=? 122)))%N.

Definition en_host (c : N) : bool :=
  (es_letra c || es_digito c || (c =? 45) || (c =? 46))%N.

Definition en_ruta (c : N) : bool :=
  (es_letra c || es_digito c || (c =? 45) || (c =? 46) || (c =? 47)
   || (c =? 95))%N.

Fixpoint separar_host (s : cadena) : cadena * cadena :=
  match s with
  | c :: r =>
    if en_host c then let '(h, t) := separar_host r in (c :: h, t)
    else ([], s)
  | [] => ([], [])
  end.

(** Accepts [http://] or [https://], a host of letters, digits, hyphens
    and dots that begins and ends with a letter, and then nothing or a
    path of letters, digits, [-], [.], [_] and [/].  The URL parser
    accepts all of these; it rejects the texts without a scheme, and the
    examples of rejection are such texts. *)
Definition URL_ejemplo (s : cadena) : bool :=
  let resto :=
    if empieza_con (js "https://") s then Some (drop 8 s)
    else if empieza_con (js "http://") s then Some (drop 7 s)
    else None in
  match resto with
  | None => false
  | Some t =>
    let '(h, ruta) := separar_host t in
    match h, last h with
    | c :: _, Some u =>
      es_letra c && es_letra u &&
      match ruta with
      | [] => true
      | 47%N :: _ => forallb en_ruta ruta
      | _ => false
      end
    | _, _ => false
    end
  end.

(** The calendar year in UTC of an instant in milliseconds. *)
Definition getFullYear_UTC (t : Z) : Z :=
  let dias := t / 86400000 in
  let z := dias + 719468 in
  let era := z / 146097 in
  let doe := z - era * 146097 in
  let yoe := (doe - doe / 1460 + doe / 36524 - doe / 146096) / 365 in
  let doy := doe - (365 * yoe + yoe / 4 - yoe / 100) in
  let mp := (5 * doy + 2) / 153 in
  yoe + era * 400 + (if mp <? 10 then 0 else 1).

#[export] Instance plataforma : Plataforma := {|
  URL_valida := URL_ejemplo;
  parseInt := parseInt_ejemplo;
  parseFloat := parseFloat_ejemplo;
  toLowerCase := toLowerCase_ejemplo;
  getFullYear := getFullYear_UTC
|}.

(** 2026-11-01T12:00:00.000Z *)
Definition instante : Z := 1793534400000.

(** A clock that advances one millisecond at every reading, and one that
    is read several times within the same millisecond. *)
Definition entorno_que_avanza : Entorno := {|
  reloj := fun n => instante + Z.of_nat n;
  azar := fun n => js "k3x9" ++ decimal (Z.of_nat n);
  cuota := fun _ => true
|}.

Definition entorno_detenido : Entorno := {|
  reloj := fun _ => instante;
  azar := fun n => js "k3x9" ++ decimal (Z.of_nat n);
  cuota := fun _ => true
|}.

(** A storage that takes nothing. *)
Definition entorno_sin_cuota : Entorno := {|
  reloj := fun n => instante + Z.of_nat n;
  azar := fun n => js "k3x9" ++ decimal (Z.of_nat n);
  cuota := fun _ => false
|}.

(** The world before any manager exists, with a given storage entry. *)
Definition mundo_inicial (a : option contenido) : Mundo :=
  {| monton := ∅; siguiente := 0%nat; this_peliculas := None;
     almacen := a; escrituras := []; lecturas_reloj := 0%nat;
     lecturas_azar := 0%nat |}.

Definition argumentos (t g d : string) (a c : string) (de im : string)
    (i : option string) : Argumentos :=
  {| a_titulo := js t; a_genero := js g; a_director := js d;
     a_ano := Vcadena (js a); a_calificacion := Vcadena (js c);
     a_descripcion := js de; a_imagen := js im;
     a_id := option_map js i |}.

(** *** Worlds *)

(** First visit: nothing in the storage, the constructor runs. *)
Definition mundo_sembrado : Mundo :=
  snd (PeliculaManager_new (E := entorno_que_avanza) (mundo_inicial None)).

(** The user then deletes the eight films one by one ... *)
Definition mundo_vaciado : Mundo :=
  correr (E := entorno_que_avanza)
    (map Eliminar (ids (items mundo_sembrado))) mundo_sembrado.

(** ... and reloads the page. *)
Definition mundo_recargado : Mundo :=
  snd (PeliculaManager_new (E := entorno_que_avanza) mundo_vaciado).

(** A stored record whose title is the empty string. *)
Definition registro_sin_titulo : Registro :=
  {| r_id := js "peli-1";
     r_titulo := [];
     r_genero := js "Drama";
     r_director := js "Victor Erice";
     r_ano := Ventero 1973;
     r_calificacion := Vnumero (literal_decimal 79);
     r_descripcion := js "Una nina ve una pelicula y busca al monstruo.";
     r_imagen := js "https://example.org/colmena.jpg";
     r_fechaCreacion := instante - 86400000 |}.

(** The record the constructor makes of it. *)
Definition pelicula_sin_titulo : Pelicula :=
  {| id := js "peli-1";
     titulo := [];
     genero := js "Drama";
     director := js "Victor Erice";
     ano := Entero 1973;
     calificacion := literal_decimal 79;
     descripcion := js "Una nina ve una pelicula y busca al monstruo.";
     imagen := js "https://example.org/colmena.jpg";
     fechaCreacion := instante - 86400000 |}.

Definition mundo_con_registro_invalido : Mundo :=
  snd (PeliculaManager_new (E := entorno_que_avanza)
         (mundo_inicial (Some (JSONArreglo [registro_sin_titulo])))).

(** A manager loaded from the text of an empty array. *)
Definition mundo_sin_peliculas (E : Entorno) : Mundo :=
  snd (PeliculaManager_new (E := E) (mundo_inicial (Some (JSONArreglo [])))).

Definition alien (i : option string) : Argumentos :=
  argumentos "Alien" "Terror" "Ridley Scott" "1979" "8.5"
    "La tripulacion de una nave responde a una llamada de socorro."
    "https://example.org/alien.jpg" i.

Definition aliens (i : option string) : Argumentos :=
  argumentos "Aliens" "Accion" "James Cameron" "1986" "8.4"
    "Ripley vuelve al planeta con un peloton de marines."
    "https://example.org/aliens.jpg" i.

Definition alien3 (i : option string) : Argumentos :=
  argumentos "Alien 3" "Terror" "David Fincher" "1992" "6.4"
    "Ripley cae en un planeta prision sin armas."
    "https://example.org/alien3.jpg" i.

(** Two films added with the same explicit identifier. *)
Definition mundo_con_id_repetido : Mundo :=
  correr (E := entorno_que_avanza)
    [Agregar (alien (Some "peli-1"%string));
     Agregar (aliens (Some "peli-1"%string))]
    (mundo_sin_peliculas entorno_que_avanza).

(** Three films added one after the other within one millisecond, and
    the same three with the clock advancing. *)
Definition mundo_tres_seguidas (E : Entorno) : Mundo :=
  correr (E := E)
    [Agregar (alien None); Agregar (aliens None); Agregar (alien3 None)]
    (mundo_sin_peliculas E).

(** A complete payload for [actualizar], and one that fails every rule
    of [validar]. *)
Definition datos_validos : Datos :=
  {| d_titulo := js "Alien, el octavo pasajero";
     d_genero := js "Terror";
     d_director := js "Ridley Scott";
     d_ano := Vcadena (js "1979");
     d_calificacion := Vcadena (js "8.5");
     d_descripcion := js "La tripulacion de una nave responde a una llamada.";
     d_imagen := js "https://example.org/alien.jpg" |}.

(** The same payload with text after the numerals of the year and of
    the rating. *)
Definition datos_con_resto : Datos :=
  {| d_titulo := js "Alien, el octavo pasajero";
     d_genero := js "Terror";
     d_director := js "Ridley Scott";
     d_ano := Vcadena (js "1979.9xyz");
     d_calificacion := Vcadena (js "8.5abc");
     d_descripcion := js "La tripulacion de una nave responde a una llamada.";
     d_imagen := js "https://example.org/alien.jpg" |}.

(** A payload whose year and rating are Numbers. *)
Definition datos_numericos : Datos :=
  {| d_titulo := js "Alien, el octavo pasajero";
     d_genero := js "Terror";
     d_director := js "Ridley Scott";
     d_ano := Ventero 1979;
     d_calificacion := Vnumero (literal_decimal 85);
     d_descripcion := js "La tripulacion de una nave responde a una llamada.";
     d_imagen := js "https://example.org/alien.jpg" |}.

Definition datos_invalidos : Datos :=
  {| d_titulo := js "A";
     d_genero := [];
     d_director := js " R ";
     d_ano := Vcadena (js "1850");
     d_calificacion := Vcadena (js "11");
     d_descripcion := js "corta";
     d_imagen := js "no es una url" |}.

End Ejemplo.

(* ===================================================================== *)
(** * The manager over several visits *)
(* ===================================================================== *)

Section Visitas.

Context {P : Plataforma} {E : Entorno}.

(** The storage entry is the text that [guardarPeliculas] writes for the
    collection as it is now. *)
Definition reflejado (w : Mundo) : Prop :=
  almacen w = Some (JSON_stringify (map toJSON (items w))).

(** The two Numbers of the record come back from the storage as they
    went in: [parseInt] and [parseFloat] give them back from what
    [JSON.stringify] writes for them. *)
Definition sobrevive (p : Pelicula) : Prop :=
  parseInt (json_entero (ano p)) = ano p
  /\ parseFloat (json_numero (calificacion p)) = calificacion p.

(** What happens to the page: it is loaded, which runs
    [new PeliculaManager()], or the manager of the page is called.  The
    manager of the page is there when the last constructor returned; when
    it threw, no call can be made until the page is loaded again. *)
Inductive evento : Type :=
  | Visitar
  | Llamar (c : llamada).

Definition suceder (e : evento) (x : Mundo * bool) : Mundo * bool :=
  match e with
  | Visitar =>
    match PeliculaManager_new (fst x) with
    | (Normal _, w') => (w', true)
    | (Lanza _, w') => (w', false)
    end
  | Llamar c =>
    if snd x then (snd (ejecutar c (fst x)), true) else x
  end.

Definition historia (es : list evento) (x : Mundo * bool) : Mundo * bool :=
  fold_left (fun x0 e => suceder e x0) es x.

(** The calls that the form makes: a record to add is constructed
    without an identifier of its own. *)
Definition sin_id_propio (c : llamada) : bool :=
  match c with
  | Agregar a =>
    match a_id a with
    | None => true
    | Some s => negb (verdadera s)
    end
  | _ => true
  end.

Definition de_la_interfaz (e : evento) : bool :=
  match e with
  | Visitar => true
  | Llamar c => sin_id_propio c
  end.

(** The identifiers [l] were all generated, each from a reading of the
    clock before the [n]-th and a reading of the random generator before
    the [k]-th, no reading serving twice. *)
Definition generados (n k : nat) (l : list cadena) : Prop :=
  exists idx : list (nat * nat),
    l = map (fun x => id_generado (fst x) (snd x)) idx
    /\ NoDup (map fst idx) /\ NoDup (map snd idx)
    /\ Forall (fun x => (fst x < n)%nat /\ (snd x < k)%nat) idx.

(** The identifiers of the records in the storage. *)
Definition ids_guardados (a : option contenido) : list cadena :=
  match a with
  | Some (JSONArreglo regs) => map r_id regs
  | _ => []
  end.

(** The identifiers of the collection and those of the records in the
    storage were all generated, and the manager of the page, when there
    is one, owns an array. *)
Definition identificadores_generados (x : Mundo * bool) : Prop :=
  let w := fst x in
  generados (lecturas_reloj w) (lecturas_azar w) (ids (items w))
  /\ generados (lecturas_reloj w) (lecturas_azar w) (ids_guardados (almacen w))
  /\ (snd x = true -> bien_formado w).

(** The second default set, which [cargarPeliculas] builds when the
    storage has no text and refuses the first set. *)
Definition segundas_iniciales_en (w : Mundo) : list Pelicula :=
  iniciales_desde (lecturas_reloj w + 16) (lecturas_azar w + 8) semillas.

(** ** Orderings *)

(** The order by year that [ordenarPorAno] is after; a record without a
    year ([NaN]) is not compared. *)
Definition ano_en_orden (descendente : bool) (a b : Pelicula) : Prop :=
  match ano a, ano b with
  | Entero x, Entero y => if descendente then y <= x else x <= y
  | _, _ => True
  end.

Definition ordenado_por_ano (descendente : bool) (l : list Pelicula) : Prop :=
  StronglySorted (ano_en_orden descendente) l.

Definition mismo_ano (y : Z) (p : Pelicula) : bool :=
  match ano p with
  | Entero x => x =? y
  | NaN => false
  end.

(** Records of the same year appear in [l'] in the order they have in
    [l]. *)
Definition conserva_empates_de_ano (l l' : list Pelicula) : Prop :=
  forall y : Z, List.filter (mismo_ano y) l' = List.filter (mismo_ano y) l.

Definition con_ano (p : Pelicula) : Prop := ano p <> NaN.

(** The key by which [ordenarPorAno] ends up sorting, largest first:
    the year, or its opposite when the order asked for is ascending. *)
Definition clave_ano (descendente : bool) (p : Pelicula) : Z :=
  match ano p with
  | Entero z => if descendente then z else - z
  | NaN => 0
  end.

End Visitas.

(* ===================================================================== *)
(** * [escapeHtml] *)
(* ===================================================================== *)

(** The table [map] of [escapeHtml]: the five characters and their
    entities, in the order of the object literal. *)
Definition mapa_html : list (N * cadena) :=
  [ (38%N, js "&amp;");
    (60%N, js "&lt;");
    (62%N, js "&gt;");
    (34%N, js "&quot;");
    (39%N, js "&#039;") ].

(** The class of the pattern: the ampersand, the two angle brackets,
    the double quote and the apostrophe. *)
Definition clase_html (c : N) : bool :=
  ((c =? 38) || (c =? 60) || (c =? 62) || (c =? 34) || (c =? 39))%N.

(** [map[m]] for a string [m] of one code unit; a key that the table
    lacks gives [undefined], which [replace] writes as such. *)
Fixpoint buscar_en_mapa (t : list (N * cadena)) (m : N) : cadena :=
  match t with
  | [] => js "undefined"
  | (c, e) :: r => if (c =? m)%N then e else buscar_en_mapa r m
  end.

(** [text.replace(/[...]/g, f)] for a class of single code units: every
    code unit of the class is replaced by what [f] returns for it, from
    left to right, and what is put in is not looked at again. *)
Fixpoint replace_clase (clase : N -> bool) (f : N -> cadena) (text : cadena)
    : cadena :=
  match text with
  | [] => []
  | c :: r => (if clase c then f c else [c]) ++ replace_clase clase f r
  end.

Definition escapeHtml (text : cadena) : cadena :=
  replace_clase clase_html (buscar_en_mapa mapa_html) text.

(** The five entities. *)
Definition entidades : list cadena := map snd mapa_html.

(* ===================================================================== *)
(** * [class AuthManager] *)
(* ===================================================================== *)

(** An element of the array under ['cineflix_users'], and the object
    under ['cineflix_session'].  The two dates are the texts
    [new Date().toISOString()]; they stand as the instants they
    denote. *)
Record Usuario : Type := {
  u_id : cadena;
  u_nombre : cadena;
  u_email : cadena;
  u_usuario : cadena;
  u_password : cadena;
  u_fechaRegistro : Z
}.

Record Sesion : Type := {
  s_id : cadena;
  s_nombre : cadena;
  s_usuario : cadena;
  s_email : cadena;
  s_fechaLogin : Z
}.

(** What [getItem] can return for the users besides [null]: the empty
    string, a text on which [JSON.parse] throws, or the JSON text of an
    array of user objects whose fields are strings, which is what
    [JSON.stringify] makes of the arrays this class writes.  The texts of
    other JSON values are not covered. *)
Inductive texto_usuarios : Type :=
  | UVacia
  | UNoJSON
  | UArreglo (l : list Usuario).

(** What [getItem] can return for the session besides [null]: the empty
    string, a text on which [JSON.parse] throws, the text [null], the
    text of a session object, or the text of any other JSON value. *)
Inductive texto_sesion : Type :=
  | SVacia
  | SNoJSON
  | SNull
  | SSesion (s : Sesion)
  | SOtro.

(** The value that [JSON.parse] gives for a session text other than
    [null]. *)
Inductive valor_sesion : Type :=
  | VSesion (s : Sesion)
  | VOtro.

(** What the class reads from outside: the successive readings of the
    clock, and whether the storage takes the text of a given array of
    users or of a given session. *)
Class Sistema : Type := {
  hora : nat -> Z;
  cabe_usuarios : list Usuario -> bool;
  cabe_sesion : Sesion -> bool
}.

(** The two storage entries and the number of clock readings so far. *)
Record MundoAuth : Type := {
  usuarios_guardados : option texto_usuarios;
  sesion_guardada : option texto_sesion;
  lecturas_hora : nat
}.

Definition MA (A : Type) : Type := MundoAuth -> salida A * MundoAuth.

Definition devolverA {A} (a : A) : MA A := fun w => (Normal a, w).

Definition lanzarA {A} (e : excepcion) : MA A := fun w => (Lanza e, w).

Definition ligarA {A B} (m : MA A) (k : A -> MA B) : MA B :=
  fun w =>
    match m w with
    | (Normal a, w') => k a w'
    | (Lanza e, w') => (Lanza e, w')
    end.

(** [try { m } catch (e) { h e }] *)
Definition intentarA {A} (m : MA A) (h : excepcion -> MA A) : MA A :=
  fun w =>
    match m w with
    | (Normal a, w') => (Normal a, w')
    | (Lanza e, w') => h e w'
    end.

Declare Scope auth_scope.
Delimit Scope auth_scope with auth.

Notation "'sea' x <- m 'en' k" := (ligarA m (fun x => k))
  (at level 10, x name, m at level 100, k at level 200) : auth_scope.
Notation "m ;; k" := (ligarA m (fun _ => k))
  (at level 100, k at level 200, right associativity) : auth_scope.

(** ** The pattern of [validarEmail] *)

(** A piece of a pattern: one code unit of a class, or one or more of
    them, as many as possible first. *)
Inductive pieza : Type :=
  | Una (clase : N -> bool)
  | UnaOMas (clase : N -> bool).

(** [clase+] followed by what [sigue] accepts: the longest run is tried
    first, then the shorter ones. *)
Fixpoint una_o_mas (clase : N -> bool) (sigue : cadena -> bool) (s : cadena)
    : bool :=
  match s with
  | c :: r => clase c && (una_o_mas clase sigue r || sigue r)
  | [] => false
  end.

(** A pattern between [^] and [$] against the whole of [s]. *)
Fixpoint coincide_entera (p : list pieza) (s : cadena) : bool :=
  match p with
  | [] => match s with [] => true | _ :: _ => false end
  | Una clase :: p' =>
    match s with
    | c :: r => clase c && coincide_entera p' r
    | [] => false
    end
  | UnaOMas clase :: p' => una_o_mas clase (coincide_entera p') s
  end.

(** [[^\s@]]: [\s] is the white space and the line terminators, the code
    units that [trim] strips. *)
Definition ni_blanco_ni_arroba (c : N) : bool :=
  negb (es_blanco c) && negb (c =? 64)%N.

Definition es_caracter (k c : N) : bool := (c =? k)%N.

(** [/^[^\s@]+@[^\s@]+\.[^\s@]+$/] *)
Definition patron_email : list pieza :=
  [ UnaOMas ni_blanco_ni_arroba; Una (es_caracter 64);
    UnaOMas ni_blanco_ni_arroba; Una (es_caracter 46);
    UnaOMas ni_blanco_ni_arroba ].

Section Autenticacion.

Context {P : Plataforma} {Sis : Sistema}.

Local Open Scope auth_scope.

(** [Date.now()], and the time value of [new Date()] *)
Definition Date_ahora : MA Z :=
  fun w =>
    (Normal (hora (lecturas_hora w)),
     {| usuarios_guardados := usuarios_guardados w;
        sesion_guardada := sesion_guardada w;
        lecturas_hora := S (lecturas_hora w) |}).

Definition con_usuarios (c : option texto_usuarios) (w : MundoAuth) : MundoAuth :=
  {| usuarios_guardados := c;
     sesion_guardada := sesion_guardada w;
     lecturas_hora := lecturas_hora w |}.

Definition con_sesion (c : option texto_sesion) (w : MundoAuth) : MundoAuth :=
  {| usuarios_guardados := usuarios_guardados w;
     sesion_guardada := c;
     lecturas_hora := lecturas_hora w |}.

Definition getItem_usuarios : MA (option texto_usuarios) :=
  fun w => (Normal (usuarios_guardados w), w).

(** [localStorage.setItem(this.STORAGE_USERS_KEY, JSON.stringify(l))] *)
Definition setItem_usuarios (l : list Usuario) : MA unit :=
  fun w =>
    if cabe_usuarios l then (Normal tt, con_usuarios (Some (UArreglo l)) w)
    else (Lanza QuotaExceededError, w).

Definition getItem_sesion : MA (option texto_sesion) :=
  fun w => (Normal (sesion_guardada w), w).

(** [localStorage.setItem(this.STORAGE_SESSION_KEY, JSON.stringify(s))] *)
Definition setItem_sesion (s : Sesion) : MA unit :=
  fun w =>
    if cabe_sesion s then (Normal tt, con_sesion (Some (SSesion s)) w)
    else (Lanza QuotaExceededError, w).

Definition removeItem_sesion : MA unit :=
  fun w => (Normal tt, con_sesion None w).

Definition JSON_parse_usuarios (c : texto_usuarios) : MA (list Usuario) :=
  match c with
  | UArreglo l => devolverA l
  | _ => lanzarA SyntaxError
  end.

(** [JSON.parse] of a session text; [None] is [null]. *)
Definition JSON_parse_sesion (c : texto_sesion) : MA (option valor_sesion) :=
  match c with
  | SVacia | SNoJSON => lanzarA SyntaxError
  | SNull => devolverA None
  | SSesion s => devolverA (Some (VSesion s))
  | SOtro => devolverA (Some VOtro)
  end.

(** [validarEmail(email)]: [regex.test(email)] *)
Definition validarEmail (email : cadena) : bool :=
  coincide_entera patron_email email.

(** [obtenerUsuarios()] *)
Definition obtenerUsuarios : MA (list Usuario) :=
  intentarA
    (sea usuarios <- getItem_usuarios en
     match usuarios with
     | Some UVacia | None => devolverA []
     | Some c => JSON_parse_usuarios c
     end)
    (fun _ => devolverA []).

Definition msg_no_guardados : cadena :=
  js "No se pudieron guardar los usuarios".

(** [guardarUsuarios(usuarios)] *)
Definition guardarUsuarios (usuarios : list Usuario) : MA unit :=
  intentarA (setItem_usuarios usuarios)
    (fun _ => lanzarA (Error msg_no_guardados)).

(** The three users of the array literal, given the three dates. *)
Definition usuariosPrueba (f1 f2 f3 : Z) : list Usuario :=
  [ {| u_id := js "user_1";
       u_nombre := js "Administrador";
       u_email := js "admin@cineflix.com";
       u_usuario := js "admin";
       u_password := js "admin123";
       u_fechaRegistro := f1 |};
    {| u_id := js "user_2";
       u_nombre := js "Usuario Demo";
       u_email := js "usuario@cineflix.com";
       u_usuario := js "usuario";
       u_password := js "1234";
       u_fechaRegistro := f2 |};
    {| u_id := js "user_3";
       u_nombre := js "Demo User";
       u_email := js "demo@cineflix.com";
       u_usuario := js "demo";
       u_password := js "demo";
       u_fechaRegistro := f3 |} ].

(** [inicializarUsuariosPorDefecto()] *)
Definition inicializarUsuariosPorDefecto : MA unit :=
  sea usuarios <- obtenerUsuarios en
  if (Z.of_nat (length usuarios) =? 0)%Z then
    sea f1 <- Date_ahora en
    sea f2 <- Date_ahora en
    sea f3 <- Date_ahora en
    setItem_usuarios (usuariosPrueba f1 f2 f3)
  else devolverA tt.

(** [new AuthManager()]: the two keys are constants. *)
Definition AuthManager_new : MA unit := inicializarUsuariosPorDefecto.

(** What [login] and [registrar] return; [ra_usuario] is set by a
    successful [login] only. *)
Record ResultadoAuth : Type := {
  ra_exito : bool;
  ra_mensaje : cadena;
  ra_usuario : option Sesion
}.

Definition msg_requeridos : cadena := js "Usuario y contraseña son requeridos".
Definition msg_bienvenido : cadena := js "¡Bienvenido!".
Definition msg_incorrectos : cadena := js "Usuario o contraseña incorrectos".
Definition msg_nombre_corto : cadena :=
  js "El nombre debe tener al menos 3 caracteres".
Definition msg_email_invalido : cadena := js "Email inválido".
Definition msg_usuario_corto : cadena :=
  js "El usuario debe tener al menos 4 caracteres".
Definition msg_password_corta : cadena :=
  js "La contraseña debe tener al menos 6 caracteres".
Definition msg_no_coinciden : cadena := js "Las contraseñas no coinciden".
Definition msg_usuario_existe : cadena := js "El usuario ya existe".
Definition msg_email_registrado : cadena := js "El email ya está registrado".
Definition msg_cuenta_creada : cadena :=
  js "Cuenta creada exitosamente. Ya puedes iniciar sesión".

Definition sin_exito (m : cadena) : ResultadoAuth :=
  {| ra_exito := false; ra_mensaje := m; ra_usuario := None |}.

(** The test of the [find] of [login] *)
Definition credenciales (usuario password : cadena) (u : Usuario) : bool :=
  igual (u_usuario u) usuario && igual (u_password u) password.

Definition sesion_de (u : Usuario) (f : Z) : Sesion :=
  {| s_id := u_id u;
     s_nombre := u_nombre u;
     s_usuario := u_usuario u;
     s_email := u_email u;
     s_fechaLogin := f |}.

(** [login(usuario, password)] *)
Definition login (usuario password : cadena) : MA ResultadoAuth :=
  if negb (verdadera usuario) || negb (verdadera password) then
    devolverA (sin_exito msg_requeridos)
  else
    sea usuarios <- obtenerUsuarios en
    match List.find (credenciales usuario password) usuarios with
    | Some usuarioEncontrado =>
      sea f <- Date_ahora en
      let sesion := sesion_de usuarioEncontrado f in
      (setItem_sesion sesion ;;
       devolverA {| ra_exito := true;
                    ra_mensaje := msg_bienvenido;
                    ra_usuario := Some sesion |})
    | None => devolverA (sin_exito msg_incorrectos)
    end.

(** The object [datos] that [registrar] receives, with the strings of
    the form. *)
Record DatosRegistro : Type := {
  dr_nombre : cadena;
  dr_email : cadena;
  dr_usuario : cadena;
  dr_password : cadena;
  dr_confirmPassword : cadena
}.

(** [registrar(datos)] *)
Definition registrar (datos : DatosRegistro) : MA ResultadoAuth :=
  let nombre := dr_nombre datos in
  let email := dr_email datos in
  let usuario := dr_usuario datos in
  let password := dr_password datos in
  let confirmPassword := dr_confirmPassword datos in
  if negb (verdadera nombre) || (longitud (trim nombre) <? 3)%Z then
    devolverA (sin_exito msg_nombre_corto)
  else if negb (verdadera email) || negb (validarEmail email) then
    devolverA (sin_exito msg_email_invalido)
  else if negb (verdadera usuario) || (longitud (trim usuario) <? 4)%Z then
    devolverA (sin_exito msg_usuario_corto)
  else if negb (verdadera password) || (longitud password <? 6)%Z then
    devolverA (sin_exito msg_password_corta)
  else if negb (igual password confirmPassword) then
    devolverA (sin_exito msg_no_coinciden)
  else
    sea usuarios <- obtenerUsuarios en
    if existsb (fun u => igual (u_usuario u) usuario) usuarios then
      devolverA (sin_exito msg_usuario_existe)
    else if existsb (fun u => igual (u_email u) email) usuarios then
      devolverA (sin_exito msg_email_registrado)
    else
      sea t <- Date_ahora en
      sea f <- Date_ahora en
      let nuevoUsuario :=
        {| u_id := js "user_" ++ decimal t;
           u_nombre := trim nombre;
           u_email := toLowerCase (trim email);
           u_usuario := trim usuario;
           u_password := password;
           u_fechaRegistro := f |} in
      (guardarUsuarios (usuarios ++ [nuevoUsuario]) ;;
       devolverA {| ra_exito := true;
                    ra_mensaje := msg_cuenta_creada;
                    ra_usuario := None |}).

(** [logout()] *)
Definition logout : MA unit := removeItem_sesion.

(** [obtenerSesionActiva()]; [None] is [null] *)
Definition obtenerSesionActiva : MA (option valor_sesion) :=
  intentarA
    (sea sesion <- getItem_sesion en
     match sesion with
     | Some SVacia | None => devolverA None
     | Some c => JSON_parse_sesion c
     end)
    (fun _ => devolverA None).

(** [estaAutenticado()] *)
Definition estaAutenticado : MA bool :=
  sea s <- obtenerSesionActiva en
  devolverA (match s with Some _ => true | None => false end).

(** ** The users seen from outside *)

(** The array that [obtenerUsuarios] returns in [w]. *)
Definition usuarios_de (w : MundoAuth) : list Usuario :=
  match usuarios_guardados w with
  | Some (UArreglo l) => l
  | _ => []
  end.

(** The conditions that [registrar] asks of [datos], one after the
    other, the last two among the users [l]. *)
Definition nombre_aceptable (d : DatosRegistro) : Prop :=
  (3 <= longitud (trim (dr_nombre d)))%Z.

Definition usuario_aceptable (d : DatosRegistro) : Prop :=
  (4 <= longitud (trim (dr_usuario d)))%Z.

Definition password_aceptable (d : DatosRegistro) : Prop :=
  (6 <= longitud (dr_password d))%Z.

Definition password_confirmada (d : DatosRegistro) : Prop :=
  dr_confirmPassword d = dr_password d.

Definition usuario_libre (d : DatosRegistro) (l : list Usuario) : Prop :=
  ~ In (dr_usuario d) (map u_usuario l).

Definition email_libre (d : DatosRegistro) (l : list Usuario) : Prop :=
  ~ In (dr_email d) (map u_email l).

(** The user that [registrar] stores for [datos] at the clock readings
    [t] and [f]. *)
Definition usuario_nuevo (d : DatosRegistro) (t f : Z) : Usuario :=
  {| u_id := js "user_" ++ decimal t;
     u_nombre := trim (dr_nombre d);
     u_email := toLowerCase (trim (dr_email d));
     u_usuario := trim (dr_usuario d);
     u_password := dr_password d;
     u_fechaRegistro := f |}.

(** A well-formed address, as the pattern of [validarEmail] has it: a
    local part, [@], a domain with a dot inside that is neither its first
    nor its last character; no white space and no other [@]. *)
Definition parte (s : cadena) : Prop :=
  s <> [] /\ Forall (fun c => es_blanco c = false /\ c <> 64%N) s.

Definition direccion (email : cadena) : Prop :=
  exists a b c : cadena,
    email = a ++ [64%N] ++ b ++ [46%N] ++ c
    /\ parte a /\ parte b /\ parte c.

End Autenticacion.

(* ===================================================================== *)
(** * Worked examples for the visits and for the users *)
(* ===================================================================== *)

Module EjemploUsuarios.

Import Ejemplo.

(** A record that passes [validar], with an identifier that no default
    record has. *)
Definition pelicula_nueva : Pelicula :=
  actualizada (js "peli-9") datos_validos pelicula_sin_titulo.

(** The page is loaded, a film is added, the page is loaded again and a
    second film is added. *)
Definition dos_visitas : list evento :=
  [ Visitar; Llamar (Agregar (alien None));
    Visitar; Llamar (Agregar (aliens None)) ].

(** A clock that advances one millisecond at every reading and a
    storage that takes every text. *)
Definition sistema_que_avanza : Sistema := {|
  hora := fun n => instante + Z.of_nat n;
  cabe_usuarios := fun _ => true;
  cabe_sesion := fun _ => true
|}.

Definition mundo_sin_usuarios : MundoAuth :=
  {| usuarios_guardados := None; sesion_guardada := None;
     lecturas_hora := 0%nat |}.

(** The world after [new AuthManager()] on an empty storage. *)
Definition mundo_con_usuarios : MundoAuth :=
  snd (AuthManager_new (Sis := sistema_que_avanza) mundo_sin_usuarios).

Definition registro_de_ana : DatosRegistro :=
  {| dr_nombre := js "Ana Ruiz";
     dr_email := js "ana@example.org";
     dr_usuario := js "anaruiz";
     dr_password := js "secreto1";
     dr_confirmPassword := js "secreto1" |}.

(** The user name of the administrator with a space before it. *)
Definition registro_con_espacio : DatosRegistro :=
  {| dr_nombre := js "Otro Administrador";
     dr_email := js "otro@example.org";
     dr_usuario := js " admin";
     dr_password := js "secreto2";
     dr_confirmPassword := js "secreto2" |}.

End EjemploUsuarios.

(* ===================================================================== *)
(** * Validation *)
(* ===================================================================== *)

Section Validacion.

Context {P : Plataforma} {E : Entorno}.

Lemma SFcompare_antisim (x y : numero) :
  SFcompare y x = option_map CompOpp (SFcompare x y).
Proof.
  destruct x as [sx | sx | | sx mx ex], y as [sy | sy | | sy my ey];
    try reflexivity;
    try (destruct sx; reflexivity);
    try (destruct sy; reflexivity);
    try (destruct sx, sy; reflexivity).
  unfold SFcompare. destruct sx, sy; cbn; try reflexivity.
  - rewrite (Z.compare_antisym ex ey).
    destruct (ex ?= ey); cbn; try reflexivity.
    rewrite CompOpp_involutive. f_equal.
    exact (Pos.compare_cont_antisym my mx Eq).
  - rewrite (Z.compare_antisym ex ey).
    destruct (ex ?= ey); cbn; try reflexivity.
    f_equal. symmetry. exact (Pos.compare_cont_antisym mx my Eq).
Qed.

Lemma SFleb_no_SFltb (x y : numero) :
  x <> S754_nan -> y <> S754_nan -> SFleb x y = negb (SFltb y x).
Proof.
  intros Hx Hy. unfold SFleb, SFltb. rewrite (SFcompare_antisim x y).
  destruct (SFcompare x y) as [c |] eqn:Hc.
  - destruct c; reflexivity.
  - destruct x, y; try congruence; cbn in Hc;
      repeat match goal with b : bool |- _ => destruct b end;
      discriminate Hc.
Qed.

(** The test of the rating in [validar] is the denial of the range
    [1 <= calificacion <= 10]. *)
Lemma prueba_calificacion (c : numero) :
  falso_numero c || SFltb c uno || SFltb diez c
  = negb (SFleb uno c && SFleb c diez).
Proof.
  destruct c as [s | s | | s m e].
  - reflexivity.
  - destruct s; reflexivity.
  - reflexivity.
  - rewrite (SFleb_no_SFltb uno), (SFleb_no_SFltb _ diez) by (unfold uno, diez; congruence).
    cbn [falso_numero orb].
    now rewrite negb_andb, !negb_involutive.
Qed.

Lemma prueba_ano (a : entero) (y : Z) :
  (if falso_entero a || menor_entero a 1900 then true
   else mayor_entero a (y + 5))
  = negb match a with
         | NaN => false
         | Entero z => (1900 <=? z) && (z <=? y + 5)
         end.
Proof.
  destruct a as [| z]; cbn; [reflexivity |].
  destruct (Z.eqb_spec z 0), (Z.ltb_spec z 1900), (Z.leb_spec 1900 z),
    (Z.ltb_spec (y + 5) z), (Z.leb_spec z (y + 5)); cbn; try reflexivity; lia.
Qed.

Lemma trim_vacia : trim [] = [].
Proof. reflexivity. Qed.

Lemma verdadera_igual (s : cadena) : verdadera s = negb (igual s []).
Proof. destruct s; reflexivity. Qed.

Lemma prueba_longitud (s : cadena) (k : Z) :
  0 < k ->
  negb (verdadera s) || (longitud (trim s) <? k)
  = negb (k <=? longitud (trim s)).
Proof.
  intros Hk. rewrite (Z.leb_antisym (longitud (trim s)) k), negb_involutive.
  destruct s as [| c r]; cbn [verdadera negb orb]; [| reflexivity].
  rewrite trim_vacia. cbn. symmetry. now apply Z.ltb_lt.
Qed.

Lemma prueba_imagen (s : cadena) :
  negb (verdadera s) || negb (validarURL s)
  = negb (negb (igual s []) && URL_valida s).
Proof.
  rewrite verdadera_igual. unfold validarURL.
  now rewrite negb_andb.
Qed.

(** [validar] returns the messages of the violated rules, and reads the
    clock at most once. *)
Lemma validar_ok (p : Pelicula) (w : Mundo) :
  validar p w
  = (Normal {| valido := bool_decide (violadas (ano_actual w) p = []);
               errores := violadas (ano_actual w) p |},
     if lee_reloj p then con_lectura_reloj w else w).
Proof.
  set (y := ano_actual w).
  assert (Hsel : forall c4 : bool,
    c4 = negb (regla_ano y p) ->
    anotar (negb (verdadera (imagen p)) || negb (validarURL (imagen p))) msg_imagen
      (anotar (negb (verdadera (descripcion p))
               || (longitud (trim (descripcion p)) <? 10)) msg_descripcion
        (anotar (falso_numero (calificacion p) || SFltb (calificacion p) uno
                 || SFltb diez (calificacion p)) msg_calificacion
          (anotar c4 msg_ano
            (anotar (negb (verdadera (director p))
                     || (longitud (trim (director p)) <? 2)) msg_director
              (anotar (negb (verdadera (genero p))) msg_genero
                (anotar (negb (verdadera (titulo p))
                         || (longitud (trim (titulo p)) <? 2)) msg_titulo []))))))
    = violadas y p).
  { intros c4 ->.
    rewrite !prueba_longitud by lia.
    rewrite prueba_imagen, prueba_calificacion, (verdadera_igual (genero p)).
    unfold violadas, veredictos, mensajes.
    fold (regla_titulo p) (regla_genero p) (regla_director p)
      (regla_calificacion p) (regla_descripcion p) (regla_imagen p).
    generalize msg_titulo msg_genero msg_director msg_ano msg_calificacion
      msg_descripcion msg_imagen.
    intros m1 m2 m3 m4 m5 m6 m7.
    destruct (regla_titulo p), (regla_genero p), (regla_director p),
      (regla_ano y p), (regla_calificacion p), (regla_descripcion p),
      (regla_imagen p); reflexivity. }
  assert (Hlen : forall e : list cadena,
    bool_decide (length e = 0%nat) = bool_decide (e = [])).
  { intros [| x e]; reflexivity. }
  pose proof (prueba_ano (ano p) (y)) as Hano.
  unfold validar, lee_reloj, ligar.
  destruct (falso_entero (ano p) || menor_entero (ano p) 1900) eqn:Hc;
    cbv beta iota zeta delta [devolver Date_now].
  - rewrite Hlen, (Hsel true); [reflexivity |].
    unfold regla_ano. exact Hano.
  - rewrite Hlen, (Hsel _); [reflexivity |].
    unfold regla_ano. exact Hano.
Qed.

(** C3. [validar()] evaluates the seven field rules one after the other,
    none of them cutting the others short, and returns the messages of
    exactly the violated rules in the order in which the rules are
    declared: title length, genre presence, director length, year range,
    rating range, description length, image URL.  [valido] is true exactly
    when the list of errors is empty.  When every rule holds the list is
    empty, and when one rule alone is violated the list is its message
    and nothing else. *)
Theorem validar_recoge_las_reglas_violadas (p : Pelicula) (w : Mundo) :
  exists (v : Validacion) (w' : Mundo),
    validar p w = (Normal v, w')
    /\ errores v = seleccionar (veredictos (ano_actual w) p) mensajes
    /\ (valido v = true <-> errores v = [])
    /\ (veredictos (ano_actual w) p = replicate 7 true -> errores v = [])
    /\ (forall (i : nat) (m : cadena),
          mensajes !! i = Some m ->
          veredictos (ano_actual w) p = <[i := false]> (replicate 7 true) ->
          errores v = [m]).
Proof.
  eexists _, _. split; [apply validar_ok |].
  cbn [errores valido]. unfold violadas.
  split; [reflexivity |]. split; [| split].
  - rewrite bool_decide_eq_true. reflexivity.
  - intros ->. reflexivity.
  - intros i m Hm ->. unfold mensajes in *.
    generalize dependent msg_titulo. generalize dependent msg_genero.
    generalize dependent msg_director. generalize dependent msg_ano.
    generalize dependent msg_calificacion.
    generalize dependent msg_descripcion. generalize dependent msg_imagen.
    intros m7 m6 m5 m4 m3 m2 m1 Hm.
    do 7 (destruct i as [| i]; [cbn in Hm |- *; congruence |]).
    cbn in Hm. discriminate.
Qed.

End Validacion.

(* ===================================================================== *)
(** * Running computations *)
(* ===================================================================== *)

Section Ejecucion.

Context {P : Plataforma} {E : Entorno}.

Lemma ligar_normal {A B} (m : M A) (k : A -> M B) (w w' : Mundo) (a : A) :
  m w = (Normal a, w') -> ligar m k w = k a w'.
Proof. intros H. unfold ligar. now rewrite H. Qed.

Lemma leer_this_peliculas_ok (w : Mundo) (r : ref) :
  this_peliculas w = Some r -> leer_this_peliculas w = (Normal r, w).
Proof. intros H. unfold leer_this_peliculas. now rewrite H. Qed.

Lemma arreglo_leer_ok (w : Mundo) (r : ref) (l : list Pelicula) :
  monton w !! r = Some l -> arreglo_leer r w = (Normal l, w).
Proof. intros H. unfold arreglo_leer. now rewrite H. Qed.

Lemma arreglo_nuevo_ok (w : Mundo) (l : list Pelicula) :
  arreglo_nuevo l w = (Normal (siguiente w), con_arreglo l w).
Proof. reflexivity. Qed.

Lemma gestor_en_items (w : Mundo) (r : ref) (l : list Pelicula) :
  gestor_en w r l -> items w = l.
Proof. intros (Ht & Hl & _). unfold items. now rewrite Ht, Hl. Qed.

(** ** Worlds that only gain arrays *)

Lemma amplia_refl (w : Mundo) : amplia w w.
Proof. unfold amplia. repeat split; auto. Qed.

Lemma amplia_trans (w1 w2 w3 : Mundo) :
  amplia w1 w2 -> amplia w2 w3 -> amplia w1 w3.
Proof.
  unfold amplia.
  intros (H1 & H2 & H3 & H4 & H5 & H6 & H7) (K1 & K2 & K3 & K4 & K5 & K6 & K7).
  repeat split; try congruence; try lia.
  intros r Hr. rewrite K7 by lia. now apply H7.
Qed.

Lemma amplia_con_arreglo (w : Mundo) (l : list Pelicula) :
  amplia w (con_arreglo l w).
Proof.
  unfold amplia, con_arreglo. cbn. repeat split; auto.
  intros r Hr. apply lookup_insert_ne. lia.
Qed.

Lemma amplia_poner (w w1 : Mundo) (c : ref) (l : list Pelicula) :
  amplia w w1 -> (siguiente w <= c)%nat ->
  amplia w (con_monton (<[c := l]> (monton w1)) w1).
Proof.
  unfold amplia. intros (H1 & H2 & H3 & H4 & H5 & H6 & H7) Hc. cbn.
  repeat split; auto.
  intros r Hr. rewrite lookup_insert_ne by lia. now apply H7.
Qed.

Lemma amplia_gestor_en (w w' : Mundo) (r : ref) (l : list Pelicula) :
  amplia w w' -> gestor_en w r l -> gestor_en w' r l.
Proof.
  unfold amplia, gestor_en.
  intros (H1 & H2 & H3 & H4 & H5 & H6 & H7) (Ht & Hl & Hr).
  repeat split; [congruence | | lia].
  rewrite H7 by exact Hr. exact Hl.
Qed.

Lemma amplia_items (w w' : Mundo) (r : ref) (l : list Pelicula) :
  amplia w w' -> gestor_en w r l -> items w' = items w.
Proof.
  intros Ha Hg.
  rewrite (gestor_en_items _ _ _ Hg).
  apply (gestor_en_items w' r). eapply amplia_gestor_en; eauto.
Qed.

(** ** The array methods on an allocated array *)

Lemma copiar_ok (w : Mundo) (r : ref) (l : list Pelicula) :
  monton w !! r = Some l ->
  copiar r w = (Normal (siguiente w), con_arreglo l w).
Proof.
  intros H. unfold copiar.
  now rewrite (ligar_normal _ _ _ _ _ (arreglo_leer_ok _ _ _ H)).
Qed.

Lemma filter_ok (f : Pelicula -> bool) (w : Mundo) (r : ref) (l : list Pelicula) :
  monton w !! r = Some l ->
  filter_ f r w = (Normal (siguiente w), con_arreglo (List.filter f l) w).
Proof.
  intros H. unfold filter_.
  now rewrite (ligar_normal _ _ _ _ _ (arreglo_leer_ok _ _ _ H)).
Qed.

Lemma slice_ok (fin : Z) (w : Mundo) (r : ref) (l : list Pelicula) :
  monton w !! r = Some l ->
  slice r fin w = (Normal (siguiente w), con_arreglo (slice0 fin l) w).
Proof.
  intros H. unfold slice.
  now rewrite (ligar_normal _ _ _ _ _ (arreglo_leer_ok _ _ _ H)).
Qed.

Lemma sort_ok (cmp : Pelicula -> Pelicula -> comparison)
    (w : Mundo) (r : ref) (l : list Pelicula) :
  monton w !! r = Some l ->
  sort cmp r w = (Normal r, con_monton (<[r := ordenar cmp l]> (monton w)) w).
Proof.
  intros H. unfold sort.
  now rewrite (ligar_normal _ _ _ _ _ (arreglo_leer_ok _ _ _ H)).
Qed.

Lemma monton_con_arreglo (w : Mundo) (l : list Pelicula) :
  monton (con_arreglo l w) !! siguiente w = Some l.
Proof. unfold con_arreglo. cbn. apply lookup_insert_eq. Qed.

Lemma filter_siempre (f : Pelicula -> bool) (l : list Pelicula) :
  (forall p, f p = true) -> List.filter f l = l.
Proof.
  intros Hf. induction l as [| p l IH]; cbn; [reflexivity |].
  now rewrite Hf, IH.
Qed.

Lemma filter_filter (f g : Pelicula -> bool) (l : list Pelicula) :
  List.filter f (List.filter g l) = List.filter (fun p => g p && f p) l.
Proof.
  induction l as [| p l IH]; cbn; [reflexivity |].
  destruct (g p); cbn; [destruct (f p) |]; now rewrite IH.
Qed.

(** ** The queries *)

Lemma devuelve_arreglo_elementos (m : M ref) (w : Mundo) (l' : list Pelicula) :
  devuelve_arreglo m w l' -> elementos m w = Some l'.
Proof.
  unfold devuelve_arreglo, elementos.
  destruct (m w) as [[r' | e] w']; [| contradiction].
  now intros (_ & _ & Hl).
Qed.

Lemma devuelve_con_arreglo (w w0 : Mundo) (l' : list Pelicula) :
  amplia w w0 ->
  amplia w (con_arreglo l' w0) /\ (siguiente w <= siguiente w0)%nat
  /\ monton (con_arreglo l' w0) !! siguiente w0 = Some l'.
Proof.
  intros Ha. split; [eapply amplia_trans; [exact Ha | apply amplia_con_arreglo] |].
  split; [destruct Ha as (_ & _ & _ & _ & _ & Hs & _); exact Hs |].
  apply monton_con_arreglo.
Qed.

Lemma obtenerTodas_ok (w : Mundo) (r : ref) (l : list Pelicula) :
  gestor_en w r l ->
  obtenerTodas w = (Normal (siguiente w), con_arreglo l w).
Proof.
  intros (Ht & Hl & _). unfold obtenerTodas.
  rewrite (ligar_normal _ _ _ _ _ (leer_this_peliculas_ok _ _ Ht)).
  now apply copiar_ok.
Qed.

Lemma obtenerTodas_devuelve (w : Mundo) (r : ref) (l : list Pelicula) :
  gestor_en w r l -> devuelve_arreglo obtenerTodas w l.
Proof.
  intros Hg. unfold devuelve_arreglo. rewrite (obtenerTodas_ok _ _ _ Hg).
  apply devuelve_con_arreglo, amplia_refl.
Qed.

Lemma filtrar_this_devuelve (f : Pelicula -> bool) (w : Mundo) (r : ref)
    (l : list Pelicula) :
  gestor_en w r l ->
  devuelve_arreglo (sea r0 <- leer_this_peliculas en filter_ f r0) w
    (List.filter f l).
Proof.
  intros (Ht & Hl & _). unfold devuelve_arreglo.
  rewrite (ligar_normal _ _ _ _ _ (leer_this_peliculas_ok _ _ Ht)).
  rewrite (filter_ok _ _ _ _ Hl).
  apply devuelve_con_arreglo, amplia_refl.
Qed.

Lemma termino_en_blanco (termino : cadena) :
  negb (verdadera termino) || igual (trim termino) [] = igual (trim termino) [].
Proof. destruct termino; reflexivity. Qed.

Lemma genero_vacio (genero0 : cadena) :
  negb (verdadera genero0) || igual genero0 [] = igual genero0 [].
Proof. destruct genero0; reflexivity. Qed.

Lemma buscar_devuelve (termino : cadena) (w : Mundo) (r : ref) (l : list Pelicula) :
  gestor_en w r l ->
  devuelve_arreglo (buscar termino) w (List.filter (coincide_termino termino) l).
Proof.
  intros Hg. unfold buscar, coincide_termino. rewrite termino_en_blanco.
  destruct (igual (trim termino) []).
  - rewrite filter_siempre by reflexivity. eapply obtenerTodas_devuelve; eauto.
  - cbn [orb]. eapply filtrar_this_devuelve; eauto.
Qed.

Lemma filtrarPorGenero_devuelve (genero0 : cadena) (w : Mundo) (r : ref)
    (l : list Pelicula) :
  gestor_en w r l ->
  devuelve_arreglo (filtrarPorGenero genero0) w
    (List.filter (coincide_genero genero0) l).
Proof.
  intros Hg. unfold filtrarPorGenero, coincide_genero. rewrite genero_vacio.
  destruct (igual genero0 []).
  - rewrite filter_siempre by reflexivity. eapply obtenerTodas_devuelve; eauto.
  - cbn [orb]. eapply filtrar_this_devuelve; eauto.
Qed.

Lemma buscarYFiltrar_devuelve (termino genero0 : cadena) (w : Mundo) (r : ref)
    (l : list Pelicula) :
  gestor_en w r l ->
  devuelve_arreglo (buscarYFiltrar termino genero0) w
    (List.filter (fun p => coincide_genero genero0 p && coincide_termino termino p) l).
Proof.
  intros Hg. unfold devuelve_arreglo, buscarYFiltrar.
  rewrite (ligar_normal _ _ _ _ _ (obtenerTodas_ok _ _ _ Hg)).
  rewrite <- filter_filter.
  pose proof (devuelve_con_arreglo w w l (amplia_refl w)) as (A1 & S1 & H1).
  set (w1 := con_arreglo l w) in *.
  (* the genre *)
  assert (Hgen : exists r2 w2,
    (if verdadera genero0 && negb (igual genero0 [])
     then filter_ (fun p => igual (genero p) genero0) (siguiente w)
     else devolver (siguiente w)) w1 = (Normal r2, w2)
    /\ amplia w w2 /\ (siguiente w <= r2)%nat
    /\ monton w2 !! r2 = Some (List.filter (coincide_genero genero0) l)).
  { unfold coincide_genero. rewrite verdadera_igual, andb_diag.
    destruct (igual genero0 []); cbn [negb orb].
    - rewrite filter_siempre by reflexivity.
      eexists _, _. split; [reflexivity |]. auto.
    - rewrite (filter_ok _ _ _ _ H1). eexists _, _. split; [reflexivity |].
      destruct (devuelve_con_arreglo w w1
        (List.filter (fun p => igual (genero p) genero0) l) A1) as (? & ? & ?).
      split; [assumption | split; assumption]. }
  destruct Hgen as (r2 & w2 & Hrun2 & A2 & Hr2 & H2).
  rewrite (ligar_normal _ _ _ _ _ Hrun2).
  (* the term *)
  assert (Hb : verdadera termino && negb (igual (trim termino) [])
               = negb (igual (trim termino) [])).
  { destruct termino; reflexivity. }
  rewrite Hb. unfold coincide_termino at 1.
  destruct (igual (trim termino) []); cbn [negb orb].
  - rewrite filter_siempre by reflexivity.
    unfold ligar, devolver. auto.
  - cbv zeta. rewrite (ligar_normal _ _ _ _ _ (filter_ok _ _ _ _ H2)).
    unfold devolver.
    destruct (devuelve_con_arreglo w w2
      (List.filter (contiene_termino (toLowerCase termino))
         (List.filter (coincide_genero genero0) l)) A2) as (? & ? & ?).
    split; [assumption | split; [| assumption]].
    destruct A2 as (_ & _ & _ & _ & _ & Hs & _). lia.
Qed.

Lemma ordenar_copia_devuelve (cmp : Pelicula -> Pelicula -> comparison)
    (w : Mundo) (r : ref) (l : list Pelicula) :
  gestor_en w r l ->
  devuelve_arreglo
    (sea r0 <- leer_this_peliculas en sea c <- copiar r0 en sort cmp c)
    w (ordenar cmp l).
Proof.
  intros (Ht & Hl & Hr). unfold devuelve_arreglo.
  rewrite (ligar_normal _ _ _ _ _ (leer_this_peliculas_ok _ _ Ht)).
  rewrite (ligar_normal _ _ _ _ _ (copiar_ok _ _ _ Hl)).
  rewrite (sort_ok _ _ _ _ (monton_con_arreglo _ _)).
  split; [apply amplia_poner; [apply amplia_con_arreglo | lia] |].
  split; [lia |]. cbn. apply lookup_insert_eq.
Qed.

Lemma obtenerRecientes_devuelve (cantidad : option Z) (w : Mundo) (r : ref)
    (l : list Pelicula) :
  gestor_en w r l ->
  devuelve_arreglo (obtenerRecientes cantidad) w
    (slice0 (match cantidad with Some n => n | None => 5 end)
       (ordenar cmp_recientes l)).
Proof.
  intros (Ht & Hl & Hr). unfold devuelve_arreglo, obtenerRecientes.
  rewrite (ligar_normal _ _ _ _ _ (leer_this_peliculas_ok _ _ Ht)).
  rewrite (ligar_normal _ _ _ _ _ (copiar_ok _ _ _ Hl)).
  rewrite (ligar_normal _ _ _ _ _ (sort_ok _ _ _ _ (monton_con_arreglo _ _))).
  erewrite slice_ok by (cbn; apply lookup_insert_eq).
  split.
  { eapply amplia_trans; [| apply amplia_con_arreglo].
    apply amplia_poner; [apply amplia_con_arreglo | lia]. }
  split; [cbn; lia |]. apply monton_con_arreglo.
Qed.

Lemma obtenerPorId_ok (ident : cadena) (w : Mundo) (r : ref) (l : list Pelicula) :
  gestor_en w r l ->
  obtenerPorId ident w = (Normal (find_ (fun p => igual (id p) ident) l), w).
Proof.
  intros (Ht & Hl & _). unfold obtenerPorId.
  rewrite (ligar_normal _ _ _ _ _ (leer_this_peliculas_ok _ _ Ht)).
  now rewrite (ligar_normal _ _ _ _ _ (arreglo_leer_ok _ _ _ Hl)).
Qed.

(** Every query returns, and the world it leaves has only gained
    arrays; an array it returns is a new one. *)
Lemma consultar_amplia (q : consulta) (w : Mundo) (r : ref) (l : list Pelicula) :
  gestor_en w r l ->
  exists (v : respuesta) (w' : Mundo),
    consultar q w = (Normal v, w') /\ amplia w w'
    /\ match v with
       | Rarreglo r' => (siguiente w <= r')%nat /\ is_Some (monton w' !! r')
       | Rpelicula _ => True
       end.
Proof.
  intros Hg.
  assert (Harr : forall (m : M ref) (l' : list Pelicula),
    devuelve_arreglo m w l' ->
    exists v w',
      (sea r0 <- m en devolver (Rarreglo r0)) w = (Normal v, w') /\ amplia w w'
      /\ match v with
         | Rarreglo r' => (siguiente w <= r')%nat /\ is_Some (monton w' !! r')
         | Rpelicula _ => True
         end).
  { intros m l'. unfold devuelve_arreglo.
    destruct (m w) as [[r' | e] w'] eqn:Hm; [| contradiction].
    intros (Ha & Hr & Hl).
    exists (Rarreglo r'), w'. rewrite (ligar_normal _ _ _ _ _ Hm).
    split; [reflexivity |]. split; [exact Ha |]. split; [exact Hr | eauto]. }
  destruct q as [| i | t | g | t g | n | d | d]; cbn [consultar].
  - eapply Harr, obtenerTodas_devuelve; eauto.
  - rewrite (ligar_normal _ _ _ _ _ (obtenerPorId_ok i _ _ _ Hg)).
    eexists _, _. split; [reflexivity |]. split; [apply amplia_refl | exact I].
  - eapply Harr, buscar_devuelve; eauto.
  - eapply Harr, filtrarPorGenero_devuelve; eauto.
  - eapply Harr, buscarYFiltrar_devuelve; eauto.
  - eapply Harr, obtenerRecientes_devuelve; eauto.
  - eapply Harr. unfold ordenarPorCalificacion.
    eapply ordenar_copia_devuelve; eauto.
  - eapply Harr. unfold ordenarPorAno.
    eapply ordenar_copia_devuelve; eauto.
Qed.

End Ejecucion.

(* ===================================================================== *)
(** * The three mutators *)
(* ===================================================================== *)

Section Mutadores.

Context {P : Plataforma} {E : Entorno}.

(** ** [find] and [findIndex] *)

Lemma findIndex_desde_ausente (f : Pelicula -> bool) (l : list Pelicula) (i0 : Z) :
  0 <= i0 -> find_ f l = None -> findIndex_desde f l i0 = -1.
Proof.
  revert i0. induction l as [| p l IH]; intros i0 Hi; cbn; [reflexivity |].
  destruct (f p); [discriminate |]. intros H. apply IH; [lia | exact H].
Qed.

Lemma findIndex_desde_presente (f : Pelicula -> bool) (l : list Pelicula)
    (i0 : Z) (p : Pelicula) :
  find_ f l = Some p ->
  exists n : nat,
    findIndex_desde f l i0 = i0 + Z.of_nat n
    /\ l !! n = Some p /\ f p = true
    /\ forall (j : nat) (q : Pelicula),
         (j < n)%nat -> l !! j = Some q -> f q = false.
Proof.
  revert i0. induction l as [| x l IH]; intros i0; cbn; [discriminate |].
  destruct (f x) eqn:Hx.
  - intros [= ->]. exists 0%nat. repeat split; [lia | exact Hx |].
    intros j q Hj. lia.
  - intros H. destruct (IH (i0 + 1) H) as (n & Hn & Hl & Hf & Hmin).
    exists (S n). repeat split; [lia | exact Hl | exact Hf |].
    intros [| j] q Hj Hq; cbn in Hq.
    + now injection Hq as <-.
    + eapply Hmin; [| exact Hq]. lia.
Qed.

Lemma findIndex_ausente (f : Pelicula -> bool) (l : list Pelicula) :
  find_ f l = None -> findIndex f l = -1.
Proof. apply findIndex_desde_ausente. lia. Qed.

Lemma findIndex_presente (f : Pelicula -> bool) (l : list Pelicula) (p : Pelicula) :
  find_ f l = Some p ->
  exists n : nat,
    findIndex f l = Z.of_nat n
    /\ l !! n = Some p /\ f p = true
    /\ forall (j : nat) (q : Pelicula),
         (j < n)%nat -> l !! j = Some q -> f q = false.
Proof.
  intros H. destruct (findIndex_desde_presente f l 0 p H) as (n & Hn & Hrest).
  exists n. split; [exact Hn | exact Hrest].
Qed.

Lemma find_ninguno (f : Pelicula -> bool) (l : list Pelicula) :
  find_ f l = None <-> Forall (fun p => f p = false) l.
Proof.
  induction l as [| x l IH]; cbn.
  - split; [constructor | reflexivity].
  - destruct (f x) eqn:Hx.
    + split; [discriminate |]. intros H. inversion H; congruence.
    + rewrite IH. split; [now constructor |]. intros H. now inversion H.
Qed.

Lemma igual_verdad (s t : cadena) : igual s t = true <-> s = t.
Proof. unfold igual. apply bool_decide_eq_true. Qed.

Lemma igual_falso (s t : cadena) : igual s t = false <-> s <> t.
Proof. unfold igual. apply bool_decide_eq_false. Qed.

(** An identifier is in the collection exactly when [find] finds it. *)
Lemma find_id_presente (ident : cadena) (l : list Pelicula) :
  In ident (ids l) <-> exists p, find_ (fun p => igual (id p) ident) l = Some p.
Proof.
  unfold ids. induction l as [| x l IH]; cbn.
  - split; [contradiction | intros (p & H); discriminate].
  - destruct (igual (id x) ident) eqn:Hx.
    + apply igual_verdad in Hx. split; [eauto | auto].
    + apply igual_falso in Hx. rewrite <- IH. tauto.
Qed.

Lemma find_id_ausente (ident : cadena) (l : list Pelicula) :
  ~ In ident (ids l) <-> find_ (fun p => igual (id p) ident) l = None.
Proof.
  rewrite find_id_presente.
  destruct (find_ _ l) as [p |]; split; try congruence; eauto.
  - intros H. exfalso. eauto.
  - intros _ (p & H). discriminate.
Qed.

(** ** The world under the mutators *)

Lemma gestor_en_tras_validar (p : Pelicula) (w : Mundo) (r : ref) (l : list Pelicula) :
  gestor_en w r l -> gestor_en (tras_validar p w) r l.
Proof. unfold tras_validar. destruct (lee_reloj p); auto. Qed.

Lemma gestor_en_con_elementos (w : Mundo) (r : ref) (l l' : list Pelicula) :
  gestor_en w r l -> gestor_en (con_elementos r l' w) r l'.
Proof.
  intros (Ht & Hl & Hr). unfold gestor_en, con_elementos. cbn.
  repeat split; auto. apply lookup_insert_eq.
Qed.

Lemma guardada_gestor_en (l0 l : list Pelicula) (w : Mundo) (r : ref) :
  gestor_en w r l -> gestor_en (snd (guardada l0 w)) r l.
Proof.
  intros Hg. unfold guardada. destruct (cuota _); exact Hg.
Qed.

Lemma guardarPeliculas_ok (w : Mundo) (r : ref) (l : list Pelicula) :
  gestor_en w r l -> guardarPeliculas w = guardada l w.
Proof.
  intros (Ht & Hl & _). unfold guardarPeliculas, guardada, intentar.
  rewrite (ligar_normal _ _ _ _ _ (leer_this_peliculas_ok _ _ Ht)).
  rewrite (ligar_normal _ _ _ _ _ (arreglo_leer_ok _ _ _ Hl)).
  unfold localStorage_setItem. destruct (cuota _); reflexivity.
Qed.

Lemma y_devolver_ok {A} (m : M unit) (a : A) (w : Mundo) :
  (m ;; devolver a) w = y_devolver (m w) a.
Proof. unfold ligar, y_devolver. destruct (m w) as [[[] | e] w']; reflexivity. Qed.

(** ** [agregar] *)

Lemma agregar_ok (p : Pelicula) (w : Mundo) (r : ref) (l : list Pelicula) :
  gestor_en w r l ->
  agregar p w
  = if bool_decide (violadas (ano_actual w) p = []) then
      y_devolver
        (guardada (l ++ [p]) (con_elementos r (l ++ [p]) (tras_validar p w)))
        (aceptada msg_agregada (Some p))
    else (Normal (rechazada (violadas (ano_actual w) p)), tras_validar p w).
Proof.
  intros Hg. unfold agregar.
  rewrite (ligar_normal _ _ _ _ _ (validar_ok p w)). cbn [valido errores].
  fold (tras_validar p w).
  destruct (bool_decide (violadas (ano_actual w) p = [])); cbn [negb];
    [| reflexivity].
  pose proof (gestor_en_tras_validar p _ _ _ Hg) as Hg1.
  destruct Hg1 as (Ht & Hl & Hr).
  rewrite (ligar_normal _ _ _ _ _ (leer_this_peliculas_ok _ _ Ht)).
  assert (Hpush : push r p (tras_validar p w)
                  = (Normal tt, con_elementos r (l ++ [p]) (tras_validar p w))).
  { unfold push. now rewrite (ligar_normal _ _ _ _ _ (arreglo_leer_ok _ _ _ Hl)). }
  rewrite (ligar_normal _ _ _ _ _ Hpush).
  rewrite y_devolver_ok.
  erewrite guardarPeliculas_ok; [reflexivity |].
  apply (gestor_en_con_elementos _ _ l). repeat split; auto.
Qed.

(** ** The constructor of records *)

Lemma js_movie : js "movie_" = [109; 111; 118; 105; 101; 95]%N.
Proof. reflexivity. Qed.

Lemma id_generado_no_vacio (n k : nat) : id_generado n k <> [].
Proof. unfold id_generado. rewrite js_movie. discriminate. Qed.

(** With an identifier that is not the empty string the constructor
    reads the clock once. *)
Lemma Pelicula_new_con_id (t g d : cadena) (a c : valor) (de im : cadena)
    (ident : cadena) (w : Mundo) :
  ident <> [] ->
  Pelicula_new t g d a c de im (Some ident) w
  = (Normal {| id := ident; titulo := t; genero := g; director := d;
               ano := parseInt a; calificacion := parseFloat c;
               descripcion := de; imagen := im;
               fechaCreacion := reloj (lecturas_reloj w) |},
     con_lectura_reloj w).
Proof.
  intros Hi. unfold Pelicula_new.
  destruct ident as [| x ident]; [congruence |]. reflexivity.
Qed.

(** Without one it generates the identifier first. *)
Lemma Pelicula_new_sin_id (t g d : cadena) (a c : valor) (de im : cadena)
    (ident : option cadena) (w : Mundo) :
  ident = None \/ ident = Some [] ->
  Pelicula_new t g d a c de im ident w
  = (Normal {| id := id_generado (lecturas_reloj w) (lecturas_azar w);
               titulo := t; genero := g; director := d;
               ano := parseInt a; calificacion := parseFloat c;
               descripcion := de; imagen := im;
               fechaCreacion := reloj (S (lecturas_reloj w)) |},
     con_lectura_reloj (con_lectura_azar (con_lectura_reloj w))).
Proof. intros [-> | ->]; reflexivity. Qed.

Lemma mismo_salvo_lecturas_refl (w : Mundo) : mismo_salvo_lecturas w w.
Proof. unfold mismo_salvo_lecturas. repeat split; auto. Qed.

Lemma mismo_salvo_lecturas_trans (w1 w2 w3 : Mundo) :
  mismo_salvo_lecturas w1 w2 -> mismo_salvo_lecturas w2 w3 ->
  mismo_salvo_lecturas w1 w3.
Proof.
  unfold mismo_salvo_lecturas.
  intros (H1 & H2 & H3 & H4 & H5 & H6 & H7) (K1 & K2 & K3 & K4 & K5 & K6 & K7).
  repeat split; try congruence; lia.
Qed.

Lemma mismo_salvo_lecturas_gestor_en (w w' : Mundo) (r : ref) (l : list Pelicula) :
  mismo_salvo_lecturas w w' -> gestor_en w r l -> gestor_en w' r l.
Proof.
  unfold mismo_salvo_lecturas, gestor_en.
  intros (H1 & H2 & H3 & _) (Ht & Hl & Hr).
  rewrite H1, H2, H3. auto.
Qed.

(** The constructor always returns; the record has the fields it was
    given and an identifier that is not empty, and the world differs by
    the readings only. *)
Lemma Pelicula_new_ok (t g d : cadena) (a c : valor) (de im : cadena)
    (ident : option cadena) (w : Mundo) :
  exists (p : Pelicula) (w' : Mundo),
    Pelicula_new t g d a c de im ident w = (Normal p, w')
    /\ mismo_salvo_lecturas w w'
    /\ id p <> [] /\ (forall s, ident = Some s -> s <> [] -> id p = s)
    /\ titulo p = t /\ genero p = g /\ director p = d
    /\ ano p = parseInt a /\ calificacion p = parseFloat c
    /\ descripcion p = de /\ imagen p = im.
Proof.
  assert (Hgen : ident = None \/ ident = Some [] \/ exists s, ident = Some s /\ s <> []).
  { destruct ident as [[| x s] |]; [auto | | auto].
    right. right. eexists. split; [reflexivity | discriminate]. }
  destruct Hgen as [H | [H | (s & -> & Hs)]].
  - eexists _, _. split; [apply Pelicula_new_sin_id; auto |]. subst ident. cbn.
    split; [unfold mismo_salvo_lecturas; cbn; repeat split; auto; lia |].
    split; [apply id_generado_no_vacio |].
    split; [discriminate |]. repeat split.
  - eexists _, _. split; [apply Pelicula_new_sin_id; auto |]. subst ident. cbn.
    split; [unfold mismo_salvo_lecturas; cbn; repeat split; auto; lia |].
    split; [apply id_generado_no_vacio |].
    split; [congruence |]. repeat split.
  - eexists _, _. split; [apply Pelicula_new_con_id; auto |]. cbn.
    split; [unfold mismo_salvo_lecturas; cbn; repeat split; auto; lia |].
    split; [exact Hs |].
    split; [congruence |]. repeat split.
Qed.

(** ** [actualizar] *)

Lemma actualizar_ausente (ident : cadena) (datos : Datos) (w : Mundo) (r : ref)
    (l : list Pelicula) :
  gestor_en w r l ->
  find_ (fun p => igual (id p) ident) l = None ->
  actualizar ident datos w = (Normal no_encontrada, w).
Proof.
  intros (Ht & Hl & _) Hf. unfold actualizar.
  rewrite (ligar_normal _ _ _ _ _ (leer_this_peliculas_ok _ _ Ht)).
  rewrite (ligar_normal _ _ _ _ _ (arreglo_leer_ok _ _ _ Hl)).
  now rewrite (findIndex_ausente _ _ Hf).
Qed.

Lemma actualizar_presente (ident : cadena) (datos : Datos) (w : Mundo) (r : ref)
    (l : list Pelicula) (n : nat) (original : Pelicula) :
  gestor_en w r l ->
  ident <> [] ->
  findIndex (fun p => igual (id p) ident) l = Z.of_nat n ->
  l !! n = Some original ->
  let w1 := con_lectura_reloj w in
  let q := actualizada ident datos original in
  actualizar ident datos w
  = if bool_decide (violadas (ano_actual w1) q = []) then
      y_devolver
        (guardada (<[n := q]> l) (con_elementos r (<[n := q]> l) (tras_validar q w1)))
        (aceptada msg_actualizada None)
    else (Normal (rechazada (violadas (ano_actual w1) q)), tras_validar q w1).
Proof.
  intros Hg Hi Hn Ho w1 q. pose proof Hg as (Ht & Hl & Hr).
  unfold actualizar.
  rewrite (ligar_normal _ _ _ _ _ (leer_this_peliculas_ok _ _ Ht)).
  rewrite (ligar_normal _ _ _ _ _ (arreglo_leer_ok _ _ _ Hl)).
  rewrite Hn.
  assert (Hne : (Z.of_nat n =? -1) = false) by (apply Z.eqb_neq; lia).
  rewrite Hne.
  rewrite (ligar_normal _ _ _ _ _ (Pelicula_new_con_id _ _ _ _ _ _ _ _ w Hi)).
  fold w1.
  assert (Hg1 : gestor_en w1 r l) by exact Hg.
  destruct Hg1 as (Ht1 & Hl1 & Hr1).
  rewrite (ligar_normal _ _ _ _ _ (leer_this_peliculas_ok _ _ Ht1)).
  assert (Hidx : leer_indice r (Z.of_nat n) w1 = (Normal original, w1)).
  { unfold leer_indice.
    rewrite (ligar_normal _ _ _ _ _ (arreglo_leer_ok _ _ _ Hl1)).
    now rewrite Nat2Z.id, Ho. }
  rewrite (ligar_normal _ _ _ _ _ Hidx).
  change (con_fechaCreacion (fechaCreacion original) _) with q.
  rewrite (ligar_normal _ _ _ _ _ (validar_ok q w1)). cbn [valido errores].
  fold (tras_validar q w1).
  destruct (bool_decide (violadas (ano_actual w1) q = [])); cbn [negb];
    [| reflexivity].
  assert (Hg2 : gestor_en (tras_validar q w1) r l).
  { apply gestor_en_tras_validar. repeat split; auto. }
  destruct Hg2 as (Ht2 & Hl2 & Hr2).
  rewrite (ligar_normal _ _ _ _ _ (leer_this_peliculas_ok _ _ Ht2)).
  assert (Hasg : asignar_indice r (Z.of_nat n) q (tras_validar q w1)
                 = (Normal tt, con_elementos r (<[n := q]> l) (tras_validar q w1))).
  { unfold asignar_indice.
    rewrite (ligar_normal _ _ _ _ _ (arreglo_leer_ok _ _ _ Hl2)).
    now rewrite Nat2Z.id. }
  rewrite (ligar_normal _ _ _ _ _ Hasg).
  rewrite y_devolver_ok.
  erewrite guardarPeliculas_ok; [reflexivity |].
  apply (gestor_en_con_elementos _ _ l). repeat split; auto.
Qed.

(** ** [eliminar] *)

Lemma eliminar_ausente (ident : cadena) (w : Mundo) (r : ref) (l : list Pelicula) :
  gestor_en w r l ->
  find_ (fun p => igual (id p) ident) l = None ->
  eliminar ident w = (Normal no_encontrada, w).
Proof.
  intros (Ht & Hl & _) Hf. unfold eliminar.
  rewrite (ligar_normal _ _ _ _ _ (leer_this_peliculas_ok _ _ Ht)).
  rewrite (ligar_normal _ _ _ _ _ (arreglo_leer_ok _ _ _ Hl)).
  now rewrite (findIndex_ausente _ _ Hf).
Qed.

Lemma eliminar_presente (ident : cadena) (w : Mundo) (r : ref)
    (l : list Pelicula) (n : nat) :
  gestor_en w r l ->
  findIndex (fun p => igual (id p) ident) l = Z.of_nat n ->
  eliminar ident w
  = y_devolver (guardada (delete n l) (con_elementos r (delete n l) w))
      (aceptada msg_eliminada None).
Proof.
  intros Hg Hn. pose proof Hg as (Ht & Hl & Hr). unfold eliminar.
  rewrite (ligar_normal _ _ _ _ _ (leer_this_peliculas_ok _ _ Ht)).
  rewrite (ligar_normal _ _ _ _ _ (arreglo_leer_ok _ _ _ Hl)).
  rewrite Hn.
  assert (Hne : (Z.of_nat n =? -1) = false) by (apply Z.eqb_neq; lia).
  rewrite Hne.
  rewrite (ligar_normal _ _ _ _ _ (leer_this_peliculas_ok _ _ Ht)).
  assert (Hsp : splice1 r (Z.of_nat n) w
                = (Normal tt, con_elementos r (delete n l) w)).
  { unfold splice1.
    rewrite (ligar_normal _ _ _ _ _ (arreglo_leer_ok _ _ _ Hl)).
    now rewrite Nat2Z.id. }
  rewrite (ligar_normal _ _ _ _ _ Hsp).
  rewrite y_devolver_ok.
  erewrite guardarPeliculas_ok; [reflexivity |].
  apply (gestor_en_con_elementos _ _ l). exact Hg.
Qed.

Lemma y_devolver_mundo {A} (x : salida unit * Mundo) (a : A) :
  snd (y_devolver x a) = snd x.
Proof. destruct x as [[[] | e] w']; reflexivity. Qed.

End Mutadores.

(* ===================================================================== *)
(** * Loading *)
(* ===================================================================== *)

Section Carga.

Context {P : Plataforma} {E : Entorno}.

Lemma con_lecturas_avanza (w : Mundo) (n k a b : nat) :
  con_lecturas (S (S n) + a) (S k + b)
    (con_lectura_reloj (con_lectura_azar (con_lectura_reloj w)))
  = con_lecturas (n + S (S a)) (k + S b) w.
Proof.
  unfold con_lecturas. cbn. f_equal; lia.
Qed.

(** The rows of the table are built in order, each from the readings
    that follow those of the row before. *)
Lemma mapM_semillas (ss : list Semilla) (w : Mundo) :
  mapM Pelicula_de_semilla ss w
  = (Normal (iniciales_desde (lecturas_reloj w) (lecturas_azar w) ss),
     con_lecturas (lecturas_reloj w + 2 * length ss)
       (lecturas_azar w + length ss) w).
Proof.
  revert w. induction ss as [| s ss IH]; intros w.
  - cbn. unfold devolver. f_equal. destruct w; unfold con_lecturas; cbn.
    f_equal; lia.
  - cbn [mapM]. unfold Pelicula_de_semilla at 1.
    rewrite (ligar_normal _ _ _ _ _
               (Pelicula_new_sin_id _ _ _ _ _ _ _ None w (or_introl eq_refl))).
    rewrite (ligar_normal _ _ _ _ _ (IH _)).
    unfold devolver. cbn [lecturas_reloj lecturas_azar con_lectura_reloj
      con_lectura_azar iniciales_desde length].
    f_equal.
    replace (2 * S (length ss))%nat with (S (S (2 * length ss))) by lia.
    apply con_lecturas_avanza.
Qed.

Lemma iniciales_desde_ids (n k : nat) (ss : list Semilla) :
  Forall (fun p => id p <> []) (iniciales_desde n k ss).
Proof.
  revert n k. induction ss as [| s ss IH]; intros n k; cbn; constructor.
  - apply id_generado_no_vacio.
  - apply IH.
Qed.

Lemma snd_ligar_devolver {A B} (m : M A) (b : B) (w : Mundo) :
  snd ((m ;; devolver b) w) = snd (m w).
Proof. unfold ligar. destruct (m w) as [[a | e] w']; reflexivity. Qed.

Lemma gestor_en_con_iniciales (w : Mundo) :
  gestor_en (con_iniciales w) (siguiente w) (peliculasIniciales_en w).
Proof.
  unfold gestor_en, con_iniciales, con_arreglo. cbn.
  repeat split; [apply lookup_insert_eq | lia].
Qed.

Lemma obtenerPeliculasIniciales_ok (w : Mundo) :
  obtenerPeliculasIniciales w
  = y_devolver (guardada (peliculasIniciales_en w) (con_iniciales w))
      (siguiente w).
Proof.
  unfold obtenerPeliculasIniciales.
  rewrite (ligar_normal _ _ _ _ _ (mapM_semillas semillas w)).
  change (2 * length semillas)%nat with 16%nat.
  change (length semillas) with 8%nat.
  fold (peliculasIniciales_en w).
  rewrite (ligar_normal _ _ _ _ _ (arreglo_nuevo_ok _ _)).
  cbn [siguiente con_lecturas].
  unfold asignar_this_peliculas at 1.
  unfold ligar at 1. fold (con_iniciales w).
  rewrite (y_devolver_ok guardarPeliculas).
  now rewrite (guardarPeliculas_ok _ _ _ (gestor_en_con_iniciales w)).
Qed.

Lemma obtenerPeliculasIniciales_normal (w w' : Mundo) (r : ref) :
  obtenerPeliculasIniciales w = (Normal r, w') -> arreglo_valido r w'.
Proof.
  rewrite obtenerPeliculasIniciales_ok.
  pose proof (gestor_en_con_iniciales w) as Hg.
  pose proof (guardada_gestor_en (peliculasIniciales_en w) _ _ _ Hg) as Hg'.
  destruct (guardada _ _) as [[[] | e] w2]; cbn; [| discriminate].
  intros [= <- <-]. cbn in Hg'. destruct Hg' as (_ & Hl & Hr).
  exists (peliculasIniciales_en w). repeat split; auto.
  apply iniciales_desde_ids.
Qed.

Lemma Pelicula_de_registro_ok (reg : Registro) (w : Mundo) :
  exists (p : Pelicula) (w' : Mundo),
    Pelicula_de_registro reg w = (Normal p, w')
    /\ mismo_salvo_lecturas w w' /\ corresponde p reg.
Proof.
  unfold Pelicula_de_registro.
  destruct (Pelicula_new_ok (r_titulo reg) (r_genero reg) (r_director reg)
              (r_ano reg) (r_calificacion reg) (r_descripcion reg)
              (r_imagen reg) (Some (r_id reg)) w)
    as (p & w' & Hrun & Hw & Hid & Hids & Ht & Hg & Hd & Ha & Hc & Hde & Him).
  exists (con_fechaCreacion (r_fechaCreacion reg) p), w'.
  rewrite (ligar_normal _ _ _ _ _ Hrun).
  split; [reflexivity |]. split; [exact Hw |].
  unfold corresponde. cbn. repeat split; auto.
Qed.

(** Stored records become records one by one, in order, whatever they
    hold. *)
Lemma mapM_registros (regs : list Registro) (w : Mundo) :
  exists (l : list Pelicula) (w' : Mundo),
    mapM Pelicula_de_registro regs w = (Normal l, w')
    /\ mismo_salvo_lecturas w w' /\ Forall2 corresponde l regs.
Proof.
  revert w. induction regs as [| reg regs IH]; intros w.
  - exists [], w. split; [reflexivity |].
    split; [apply mismo_salvo_lecturas_refl | constructor].
  - destruct (Pelicula_de_registro_ok reg w) as (p & w1 & Hp & Hw1 & Hc).
    destruct (IH w1) as (l & w2 & Hl & Hw2 & Hcs).
    exists (p :: l), w2. cbn [mapM].
    rewrite (ligar_normal _ _ _ _ _ Hp), (ligar_normal _ _ _ _ _ Hl).
    split; [reflexivity |].
    split; [eapply mismo_salvo_lecturas_trans; eauto | now constructor].
Qed.

Lemma corresponde_ids (l : list Pelicula) (regs : list Registro) :
  Forall2 corresponde l regs -> Forall (fun p => id p <> []) l.
Proof.
  induction 1 as [| p reg l regs Hc _ IH]; constructor; [| exact IH].
  unfold corresponde in Hc. tauto.
Qed.

(** With an array of records in the storage, [cargarPeliculas] returns a
    new array with the records the constructor makes of them, and writes
    nothing. *)
Lemma cargarPeliculas_arreglo (regs : list Registro) (w : Mundo) :
  almacen w = Some (JSONArreglo regs) ->
  exists (l : list Pelicula) (w1 : Mundo),
    cargarPeliculas w = (Normal (siguiente w1), con_arreglo l w1)
    /\ mismo_salvo_lecturas w w1 /\ Forall2 corresponde l regs.
Proof.
  intros Ha. destruct (mapM_registros regs w) as (l & w1 & Hm & Hw & Hc).
  exists l, w1. unfold cargarPeliculas, intentar, localStorage_getItem.
  unfold ligar at 1. rewrite Ha. cbn [hay_datos JSON_parse].
  unfold devolver at 1. unfold ligar at 1.
  rewrite (ligar_normal _ _ _ _ _ Hm), arreglo_nuevo_ok.
  split; [reflexivity |]. split; [exact Hw | exact Hc].
Qed.

(** Without the text of an array in the storage, [cargarPeliculas] is
    [obtenerPeliculasIniciales], tried a second time when the storage
    has no text, or the empty one, and the first try throws. *)
Lemma cargarPeliculas_ilegible (w : Mundo) :
  almacen w = Some NoJSON ->
  cargarPeliculas w = obtenerPeliculasIniciales w.
Proof.
  intros Ha. unfold cargarPeliculas, intentar, localStorage_getItem.
  unfold ligar at 1. now rewrite Ha.
Qed.

Lemma cargarPeliculas_ausente (w : Mundo) :
  almacen w = None \/ almacen w = Some CadenaVacia ->
  cargarPeliculas w
  = match obtenerPeliculasIniciales w with
    | (Normal r, w') => (Normal r, w')
    | (Lanza _, w') => obtenerPeliculasIniciales w'
    end.
Proof.
  intros Ha. unfold cargarPeliculas, intentar, localStorage_getItem.
  unfold ligar at 1. destruct Ha as [-> | ->]; reflexivity.
Qed.

Lemma cargarPeliculas_normal (w w' : Mundo) (r : ref) :
  cargarPeliculas w = (Normal r, w') -> arreglo_valido r w'.
Proof.
  destruct (almacen w) as [[| | regs] |] eqn:Ha.
  - rewrite cargarPeliculas_ausente by auto.
    destruct (obtenerPeliculasIniciales w) as [[r1 | e] w1] eqn:H1.
    + intros [= <- <-]. eapply obtenerPeliculasIniciales_normal; eauto.
    + apply obtenerPeliculasIniciales_normal.
  - rewrite cargarPeliculas_ilegible by auto.
    apply obtenerPeliculasIniciales_normal.
  - destruct (cargarPeliculas_arreglo regs w Ha) as (l & w1 & Hrun & Hw & Hc).
    rewrite Hrun. intros [= <- <-].
    exists l. split; [apply monton_con_arreglo |].
    split; [cbn; lia |].
    eapply corresponde_ids; eauto.
  - rewrite cargarPeliculas_ausente by auto.
    destruct (obtenerPeliculasIniciales w) as [[r1 | e] w1] eqn:H1.
    + intros [= <- <-]. eapply obtenerPeliculasIniciales_normal; eauto.
    + apply obtenerPeliculasIniciales_normal.
Qed.

Lemma PeliculaManager_new_ok (w : Mundo) :
  PeliculaManager_new w
  = match cargarPeliculas (con_this_peliculas None w) with
    | (Normal r, w') => (Normal tt, con_this_peliculas (Some r) w')
    | (Lanza e, w') => (Lanza e, w')
    end.
Proof. reflexivity. Qed.

(** A manager whose constructor has returned is well formed. *)
Lemma PeliculaManager_new_bien_formado (w w' : Mundo) :
  PeliculaManager_new w = (Normal tt, w') -> bien_formado w'.
Proof.
  rewrite PeliculaManager_new_ok.
  destruct (cargarPeliculas _) as [[r | e] w1] eqn:Hc; [| discriminate].
  intros [= <-].
  destruct (cargarPeliculas_normal _ _ _ Hc) as (l & Hl & Hr & Hids).
  exists r, l. split; [| exact Hids].
  unfold gestor_en. cbn. auto.
Qed.

End Carga.

(* ===================================================================== *)
(** * Reachable worlds *)
(* ===================================================================== *)

Section Alcance.

Context {P : Plataforma} {E : Entorno}.

(** The collection after [agregar]. *)
Lemma agregar_items (p : Pelicula) (w : Mundo) (r : ref) (l : list Pelicula) :
  gestor_en w r l ->
  gestor_en (snd (agregar p w)) r
    (if bool_decide (violadas (ano_actual w) p = []) then l ++ [p] else l).
Proof.
  intros Hg. rewrite (agregar_ok p w r l Hg).
  destruct (bool_decide _).
  - rewrite y_devolver_mundo. apply guardada_gestor_en.
    apply (gestor_en_con_elementos _ _ l), gestor_en_tras_validar, Hg.
  - apply gestor_en_tras_validar, Hg.
Qed.

(** The collection after [eliminar]: the first record with the
    identifier is gone. *)
Lemma eliminar_items (ident : cadena) (w : Mundo) (r : ref) (l : list Pelicula) :
  gestor_en w r l ->
  match find_ (fun p => igual (id p) ident) l with
  | None => eliminar ident w = (Normal no_encontrada, w)
  | Some p =>
    exists n : nat,
      l !! n = Some p /\ id p = ident
      /\ (forall (j : nat) (q : Pelicula),
            (j < n)%nat -> l !! j = Some q -> id q <> ident)
      /\ eliminar ident w
         = y_devolver (guardada (delete n l) (con_elementos r (delete n l) w))
             (aceptada msg_eliminada None)
      /\ gestor_en (snd (eliminar ident w)) r (delete n l)
  end.
Proof.
  intros Hg. destruct (find_ _ l) as [p |] eqn:Hf.
  - destruct (findIndex_presente _ _ _ Hf) as (n & Hn & Hl & Hp & Hmin).
    exists n. split; [exact Hl |]. split; [now apply igual_verdad |].
    split.
    { intros j q Hj Hq. apply igual_falso. eapply Hmin; eauto. }
    rewrite (eliminar_presente ident w r l n Hg Hn).
    split; [reflexivity |].
    rewrite y_devolver_mundo. apply guardada_gestor_en.
    apply (gestor_en_con_elementos _ _ l), Hg.
  - now apply (eliminar_ausente ident w r l).
Qed.

(** The collection after [actualizar], when every identifier in it is
    not empty. *)
Lemma actualizar_items (ident : cadena) (datos : Datos) (w : Mundo) (r : ref)
    (l : list Pelicula) :
  gestor_en w r l ->
  Forall (fun p => id p <> []) l ->
  match find_ (fun p => igual (id p) ident) l with
  | None => actualizar ident datos w = (Normal no_encontrada, w)
  | Some original =>
    let w1 := con_lectura_reloj w in
    let q := actualizada ident datos original in
    exists n : nat,
      l !! n = Some original /\ id original = ident
      /\ (forall (j : nat) (p : Pelicula),
            (j < n)%nat -> l !! j = Some p -> id p <> ident)
      /\ actualizar ident datos w
         = (if bool_decide (violadas (ano_actual w1) q = []) then
              y_devolver
                (guardada (<[n := q]> l)
                   (con_elementos r (<[n := q]> l) (tras_validar q w1)))
                (aceptada msg_actualizada None)
            else (Normal (rechazada (violadas (ano_actual w1) q)),
                  tras_validar q w1))
      /\ gestor_en (snd (actualizar ident datos w)) r
           (if bool_decide (violadas (ano_actual w1) q = [])
            then <[n := q]> l else l)
  end.
Proof.
  intros Hg Hids. destruct (find_ _ l) as [original |] eqn:Hf.
  - destruct (findIndex_presente _ _ _ Hf) as (n & Hn & Hl & Hp & Hmin).
    apply igual_verdad in Hp.
    assert (Hi : ident <> []).
    { rewrite <- Hp. rewrite Forall_forall in Hids. apply Hids.
      eapply list_elem_of_lookup_2; eauto. }
    intros w1 q. exists n. split; [exact Hl |]. split; [exact Hp |].
    split.
    { intros j p Hj Hq. apply igual_falso. eapply Hmin; eauto. }
    pose proof (actualizar_presente ident datos w r l n original Hg Hi Hn Hl) as Hrun.
    cbv zeta in Hrun. fold w1 q in Hrun. rewrite Hrun.
    split; [reflexivity |].
    destruct (bool_decide _).
    + rewrite y_devolver_mundo. apply guardada_gestor_en.
      apply (gestor_en_con_elementos _ _ l), gestor_en_tras_validar, Hg.
    + apply gestor_en_tras_validar, Hg.
  - now apply (actualizar_ausente ident datos w r l).
Qed.

Lemma construir_ok (a : Argumentos) (w : Mundo) :
  exists (p : Pelicula) (w' : Mundo),
    construir a w = (Normal p, w') /\ mismo_salvo_lecturas w w' /\ id p <> []
    /\ (forall s, a_id a = Some s -> s <> [] -> id p = s).
Proof.
  unfold construir.
  destruct (Pelicula_new_ok (a_titulo a) (a_genero a) (a_director a) (a_ano a)
              (a_calificacion a) (a_descripcion a) (a_imagen a) (a_id a) w)
    as (p & w' & Hrun & Hw & Hid & Hids & _).
  exists p, w'. auto.
Qed.

Lemma Forall_delete (Q : Pelicula -> Prop) (n : nat) (l : list Pelicula) :
  Forall Q l -> Forall Q (delete n l).
Proof.
  intros H. revert n. induction H as [| x l Hx Hl IH]; intros [| n]; cbn; auto.
Qed.

Lemma Forall_insert_ (Q : Pelicula -> Prop) (n : nat) (q : Pelicula)
    (l : list Pelicula) :
  Forall Q l -> Q q -> Forall Q (<[n := q]> l).
Proof.
  intros H Hq. revert n. induction H as [| x l Hx Hl IH]; intros [| n]; cbn; auto.
Qed.

(** Every call keeps the manager well formed. *)
Lemma ejecutar_bien_formado (c : llamada) (w : Mundo) :
  bien_formado w -> bien_formado (snd (ejecutar c w)).
Proof.
  intros (r & l & Hg & Hids).
  destruct c as [a | ident datos | ident | q]; cbn [ejecutar].
  - destruct (construir_ok a w) as (p & w1 & Hrun & Hw & Hid & _).
    rewrite (ligar_normal _ _ _ _ _ Hrun), snd_ligar_devolver.
    pose proof (mismo_salvo_lecturas_gestor_en _ _ _ _ Hw Hg) as Hg1.
    pose proof (agregar_items p w1 r l Hg1) as Hg2.
    eexists r, _. split; [exact Hg2 |].
    destruct (bool_decide _); [| exact Hids].
    apply Forall_app. split; [exact Hids | now constructor].
  - rewrite snd_ligar_devolver.
    pose proof (actualizar_items ident datos w r l Hg Hids) as H.
    destruct (find_ _ l) as [original |].
    + cbv zeta in H. destruct H as (n & Hl & Hp & _ & _ & Hg2).
      eexists r, _. split; [exact Hg2 |].
      destruct (bool_decide _); [| exact Hids].
      apply Forall_insert_; [exact Hids |]. cbn.
      rewrite <- Hp. rewrite Forall_forall in Hids. apply Hids.
      eapply list_elem_of_lookup_2; eauto.
    + rewrite H. exists r, l. auto.
  - rewrite snd_ligar_devolver.
    pose proof (eliminar_items ident w r l Hg) as H.
    destruct (find_ _ l) as [p |].
    + destruct H as (n & _ & _ & _ & _ & Hg2).
      eexists r, _. split; [exact Hg2 |]. now apply Forall_delete.
    + rewrite H. exists r, l. auto.
  - rewrite snd_ligar_devolver.
    destruct (consultar_amplia q w r l Hg) as (v & w' & Hrun & Ha & _).
    rewrite Hrun. exists r, l. split; [| exact Hids].
    eapply amplia_gestor_en; eauto.
Qed.

Lemma correr_bien_formado (cs : list llamada) (w : Mundo) :
  bien_formado w -> bien_formado (correr cs w).
Proof.
  revert w. induction cs as [| c cs IH]; intros w Hw; [exact Hw |].
  apply IH, ejecutar_bien_formado, Hw.
Qed.

Lemma alcanzable_bien_formado (w : Mundo) :
  alcanzable w -> bien_formado w.
Proof.
  intros (w0 & w1 & cs & Hnew & ->).
  apply correr_bien_formado.
  eapply PeliculaManager_new_bien_formado; eauto.
Qed.

End Alcance.

(* ===================================================================== *)
(** * Sorting by creation date *)
(* ===================================================================== *)

Section Orden.

Context {P : Plataforma} {E : Entorno}.

Lemma cmp_recientes_Gt (a b : Pelicula) :
  cmp_recientes a b = Gt <-> fechaCreacion a < fechaCreacion b.
Proof.
  unfold cmp_recientes, signo_Z. rewrite Z.compare_gt_iff. lia.
Qed.

Lemma insertar_perm (cmp : Pelicula -> Pelicula -> comparison)
    (x : Pelicula) (l : list Pelicula) :
  Permutation (insertar cmp x l) (x :: l).
Proof.
  induction l as [| y l IH]; cbn; [reflexivity |].
  destruct (cmp x y); try reflexivity.
  rewrite IH. apply perm_swap.
Qed.

Lemma ordenar_perm (cmp : Pelicula -> Pelicula -> comparison) (l : list Pelicula) :
  Permutation (ordenar cmp l) l.
Proof.
  induction l as [| x l IH]; cbn; [reflexivity |].
  rewrite insertar_perm. now constructor.
Qed.

Lemma ordenar_length (cmp : Pelicula -> Pelicula -> comparison) (l : list Pelicula) :
  length (ordenar cmp l) = length l.
Proof. apply Permutation_length, ordenar_perm. Qed.

Lemma insertar_reciente_primero (x : Pelicula) (l : list Pelicula) :
  mas_reciente_primero l -> mas_reciente_primero (insertar cmp_recientes x l).
Proof.
  unfold mas_reciente_primero.
  induction 1 as [| y l Hl IH Hy]; cbn.
  - repeat constructor.
  - destruct (cmp_recientes x y) eqn:Hc.
    + assert (Hxy : ~ fechaCreacion x < fechaCreacion y).
      { rewrite <- cmp_recientes_Gt. congruence. }
      constructor; [now constructor |].
      constructor; [lia |].
      eapply Forall_impl; [exact Hy |]. cbn. intros z Hz. lia.
    + assert (Hxy : ~ fechaCreacion x < fechaCreacion y).
      { rewrite <- cmp_recientes_Gt. congruence. }
      constructor; [now constructor |].
      constructor; [lia |].
      eapply Forall_impl; [exact Hy |]. cbn. intros z Hz. lia.
    + apply cmp_recientes_Gt in Hc.
      constructor; [exact IH |].
      rewrite (insertar_perm cmp_recientes x l).
      constructor; [lia | exact Hy].
Qed.

Lemma ordenar_reciente_primero (l : list Pelicula) :
  mas_reciente_primero (ordenar cmp_recientes l).
Proof.
  induction l as [| x l IH]; cbn; [constructor |].
  now apply insertar_reciente_primero.
Qed.

Lemma insertar_filtro (t : Z) (x : Pelicula) (l : list Pelicula) :
  List.filter (fun p => fechaCreacion p =? t) (insertar cmp_recientes x l)
  = List.filter (fun p => fechaCreacion p =? t) (x :: l).
Proof.
  induction l as [| y l IH]; [reflexivity |].
  cbn [insertar]. destruct (cmp_recientes x y) eqn:Hc; try reflexivity.
  apply cmp_recientes_Gt in Hc.
  cbn [List.filter] in *. rewrite IH.
  destruct (Z.eqb_spec (fechaCreacion x) t), (Z.eqb_spec (fechaCreacion y) t);
    try reflexivity.
  lia.
Qed.

Lemma ordenar_conserva_empates (l : list Pelicula) :
  conserva_empates l (ordenar cmp_recientes l).
Proof.
  intros t. induction l as [| x l IH]; [reflexivity |].
  cbn [ordenar]. rewrite insertar_filtro. cbn [List.filter]. now rewrite IH.
Qed.

Lemma slice0_natural (n : nat) (l : list Pelicula) :
  slice0 (Z.of_nat n) l = take (Nat.min n (length l)) l.
Proof.
  unfold slice0.
  assert (H : (Z.of_nat n <? 0) = false) by (apply Z.ltb_ge; lia).
  rewrite H. f_equal. lia.
Qed.

Lemma ordenar_tres (a b c : Pelicula) :
  fechaCreacion a < fechaCreacion b -> fechaCreacion b < fechaCreacion c ->
  ordenar cmp_recientes [a; b; c] = [c; b; a].
Proof.
  intros Hab Hbc. cbn.
  assert (H1 : cmp_recientes b c = Gt) by (apply cmp_recientes_Gt; lia).
  assert (H2 : cmp_recientes a c = Gt) by (apply cmp_recientes_Gt; lia).
  assert (H3 : cmp_recientes a b = Gt) by (apply cmp_recientes_Gt; lia).
  rewrite H1. cbn. rewrite H2. cbn. now rewrite H3.
Qed.

End Orden.

Section OrdenUnico.

Context {P : Plataforma} {E : Entorno}.

Lemma filtro_fecha_In (t : Z) (x : Pelicula) (l r : list Pelicula) :
  List.filter (fun p => fechaCreacion p =? t) l = x :: r ->
  In x l /\ fechaCreacion x = t.
Proof.
  intros H.
  assert (Hx : In x (List.filter (fun p => fechaCreacion p =? t) l)).
  { rewrite H. now left. }
  apply filter_In in Hx. destruct Hx as (Hin & Heq).
  split; [exact Hin | now apply Z.eqb_eq].
Qed.

Lemma primero_es_maximo (x : Pelicula) (l : list Pelicula) (z : Pelicula) :
  mas_reciente_primero (x :: l) -> In z (x :: l) ->
  fechaCreacion z <= fechaCreacion x.
Proof.
  intros Hs Hz. inversion Hs as [| ? ? _ Hall]; subst.
  destruct Hz as [<- | Hz]; [lia |].
  rewrite Forall_forall in Hall. apply Hall. now apply list_elem_of_In.
Qed.

(** There is one way to put records latest first while keeping the
    records of each date in a given order. *)
Lemma orden_estable_unico (s1 s2 : list Pelicula) :
  mas_reciente_primero s1 -> mas_reciente_primero s2 ->
  conserva_empates s1 s2 -> s2 = s1.
Proof.
  revert s2. induction s1 as [| x s1 IH]; intros s2 H1 H2 Hf.
  - destruct s2 as [| y s2]; [reflexivity |].
    specialize (Hf (fechaCreacion y)). cbn in Hf.
    rewrite Z.eqb_refl in Hf. discriminate Hf.
  - destruct s2 as [| y s2].
    { specialize (Hf (fechaCreacion x)). cbn in Hf.
      rewrite Z.eqb_refl in Hf. discriminate Hf. }
    assert (Hxy : fechaCreacion x <= fechaCreacion y).
    { assert (Hx : List.filter (fun p => fechaCreacion p =? fechaCreacion x) (y :: s2)
                   = x :: List.filter (fun p => fechaCreacion p =? fechaCreacion x) s1).
      { rewrite (Hf (fechaCreacion x)). cbn [List.filter].
        now rewrite Z.eqb_refl. }
      destruct (filtro_fecha_In _ _ _ _ Hx) as (Hin & _).
      now apply (primero_es_maximo y s2 x). }
    assert (Hyx : fechaCreacion y <= fechaCreacion x).
    { assert (Hy : List.filter (fun p => fechaCreacion p =? fechaCreacion y) (x :: s1)
                   = y :: List.filter (fun p => fechaCreacion p =? fechaCreacion y) s2).
      { rewrite <- (Hf (fechaCreacion y)). cbn [List.filter].
        now rewrite Z.eqb_refl. }
      destruct (filtro_fecha_In _ _ _ _ Hy) as (Hin & _).
      now apply (primero_es_maximo x s1 y). }
    assert (Heq : fechaCreacion y = fechaCreacion x) by lia.
    pose proof (Hf (fechaCreacion x)) as Hx. cbn [List.filter] in Hx.
    rewrite Heq, Z.eqb_refl in Hx. injection Hx as Hhead Htail.
    subst y. f_equal.
    apply IH.
    + now inversion H1.
    + now inversion H2.
    + intros t. specialize (Hf t). cbn [List.filter] in Hf.
      destruct (fechaCreacion x =? t); [now injection Hf | exact Hf].
Qed.

End OrdenUnico.

(* ===================================================================== *)
(** * Queries *)
(* ===================================================================== *)

Section Consultas.

Context {P : Plataforma} {E : Entorno}.

(** C9. Every query ([obtenerTodas], [obtenerPorId], [buscar],
    [filtrarPorGenero], [buscarYFiltrar], [obtenerRecientes],
    [ordenarPorCalificacion], [ordenarPorAno]) is pure: in every reachable
    world and for every argument it returns, the collection is exactly as
    it was (same records in the same order, in the same array), and
    nothing is written to the storage.  An array it returns is not the
    array of the manager. *)
Theorem consultas_no_modifican (w : Mundo) (q : consulta) :
  alcanzable w ->
  exists (v : respuesta) (w' : Mundo),
    consultar q w = (Normal v, w')
    /\ this_peliculas w' = this_peliculas w
    /\ items w' = items w
    /\ almacen w' = almacen w
    /\ escrituras w' = escrituras w
    /\ match v with
       | Rarreglo r' => this_peliculas w' <> Some r'
       | Rpelicula _ => True
       end.
Proof.
  intros Hw. apply alcanzable_bien_formado in Hw.
  destruct Hw as (r & l & Hg & _).
  destruct (consultar_amplia q w r l Hg) as (v & w' & Hrun & Ha & Hv).
  exists v, w'. split; [exact Hrun |].
  pose proof (amplia_items _ _ _ _ Ha Hg) as Hi.
  destruct Ha as (Ht & Hal & Hes & _).
  repeat split; auto.
  destruct v as [r' |]; [| exact I].
  destruct Hv as (Hr' & _). destruct Hg as (Hthis & _ & Hr).
  rewrite Ht, Hthis. intros [= ->]. lia.
Qed.

Lemma filter_ext_ (f g : Pelicula -> bool) (l : list Pelicula) :
  (forall p, f p = g p) -> List.filter f l = List.filter g l.
Proof.
  intros H. induction l as [| p l IH]; cbn; [reflexivity |].
  now rewrite H, IH.
Qed.

(** C7. In every reachable world, for every term and genre, the result of
    [buscarYFiltrar] is the genre test applied to the result of [buscar],
    and also the search test applied to the result of
    [filtrarPorGenero]; it is the subsequence of the collection, in its
    order, of the records that satisfy both tests.  A blank term and an
    empty genre let every record through. *)
Theorem buscarYFiltrar_en_cualquier_orden (w : Mundo) (termino genero0 : cadena) :
  alcanzable w ->
  exists lb lg lbf : list Pelicula,
    elementos (buscar termino) w = Some lb
    /\ elementos (filtrarPorGenero genero0) w = Some lg
    /\ elementos (buscarYFiltrar termino genero0) w = Some lbf
    /\ lbf = List.filter (coincide_genero genero0) lb
    /\ lbf = List.filter (coincide_termino termino) lg
    /\ lbf = List.filter
               (fun p => coincide_genero genero0 p && coincide_termino termino p)
               (items w)
    /\ (trim termino = [] -> lb = items w)
    /\ (genero0 = [] -> lg = items w).
Proof.
  intros Hw. apply alcanzable_bien_formado in Hw.
  destruct Hw as (r & l & Hg & _).
  rewrite (gestor_en_items _ _ _ Hg).
  exists (List.filter (coincide_termino termino) l),
         (List.filter (coincide_genero genero0) l),
         (List.filter (fun p => coincide_genero genero0 p
                                && coincide_termino termino p) l).
  split; [eapply devuelve_arreglo_elementos, buscar_devuelve; eauto |].
  split; [eapply devuelve_arreglo_elementos, filtrarPorGenero_devuelve; eauto |].
  split; [eapply devuelve_arreglo_elementos, buscarYFiltrar_devuelve; eauto |].
  split.
  { rewrite filter_filter. apply filter_ext_. intros p. apply andb_comm. }
  split; [now rewrite filter_filter |].
  split; [reflexivity |].
  split.
  - intros Ht. apply filter_siempre. intros p. unfold coincide_termino.
    rewrite Ht. reflexivity.
  - intros ->. apply filter_siempre. intros p. reflexivity.
Qed.

End Consultas.

(* ===================================================================== *)
(** * [actualizar] *)
(* ===================================================================== *)

Section Actualizar.

Context {P : Plataforma} {E : Entorno}.

Lemma find_insert (f : Pelicula -> bool) (l : list Pelicula) (n : nat)
    (q : Pelicula) :
  (n < length l)%nat -> f q = true ->
  (forall (j : nat) (p : Pelicula), (j < n)%nat -> l !! j = Some p -> f p = false) ->
  find_ f (<[n := q]> l) = Some q.
Proof.
  revert n. induction l as [| x l IH]; intros n Hn Hq Hmin; cbn in Hn; [lia |].
  destruct n as [| n]; cbn.
  - now rewrite Hq.
  - rewrite (Hmin 0%nat x) by (cbn; auto; lia).
    apply IH; [lia | exact Hq |].
    intros j p Hj Hp. apply (Hmin (S j) p); [lia | exact Hp].
Qed.

Lemma guardada_campos (l : list Pelicula) (w : Mundo) :
  let c := JSON_stringify (map toJSON l) in
  escrituras (snd (guardada l w)) = escrituras w ++ [c]
  /\ (cuota c = true ->
      fst (guardada l w) = Normal tt /\ almacen (snd (guardada l w)) = Some c)
  /\ (cuota c = false ->
      fst (guardada l w) = Lanza (Error msg_no_guardadas)
      /\ almacen (snd (guardada l w)) = almacen w).
Proof.
  unfold guardada. cbv zeta.
  destruct (cuota _); cbn [fst snd escrituras almacen con_almacen con_escritura].
  - split; [reflexivity |]. split; [auto | discriminate].
  - split; [reflexivity |]. split; [discriminate | auto].
Qed.

Lemma y_devolver_resultado {A} (x : salida unit * Mundo) (a : A) :
  (fst x = Normal tt -> fst (y_devolver x a) = Normal a)
  /\ (forall e, fst x = Lanza e -> fst (y_devolver x a) = Lanza e).
Proof.
  destruct x as [[[] | e] w']; cbn; split; try congruence; auto.
Qed.

(** C10. When no record of the collection has the identifier,
    [actualizar] answers that the film was not found, whatever the data,
    valid or not, and the world is left exactly as it was: no record is
    constructed or validated (the clock is not read), the collection and
    the storage are unchanged. *)
Theorem actualizar_sin_registro (w : Mundo) (ident : cadena) (datos : Datos) :
  alcanzable w ->
  ~ In ident (ids (items w)) ->
  actualizar ident datos w = (Normal no_encontrada, w).
Proof.
  intros Hw Hno. apply alcanzable_bien_formado in Hw.
  destruct Hw as (r & l & Hg & _).
  rewrite (gestor_en_items _ _ _ Hg) in Hno.
  apply find_id_ausente in Hno.
  now apply (actualizar_ausente ident datos w r l).
Qed.

(** C4, as the code has it.  In every reachable world,
    [actualizar(id, datos)] on an identifier that [obtenerPorId] finds
    builds a record from [datos] with that identifier and the creation
    date of the record found.  Its texts are those of [datos]; its year
    and its rating are what [parseInt] and [parseFloat] read from those
    of [datos], which by the laws of the two conversions is the year
    supplied when that is an integral Number or the decimal text of an
    integer, and the rating supplied when that is a finite Number other
    than zero.  If
    the record fails [validar], the answer carries the errors and the
    collection and the storage are unchanged.  If it passes, it takes the
    place of the record found, at the same index, and [obtenerPorId]
    returns it afterwards; the collection is saved, and the answer is the
    success unless the storage refuses the write.  On an identifier that
    [obtenerPorId] does not find, the answer is that the film was not
    found. *)
Theorem actualizar_reemplaza_en_su_lugar (w : Mundo) (ident : cadena) (datos : Datos) :
  alcanzable w ->
  let w' := snd (actualizar ident datos w) in
  match fst (obtenerPorId ident w) with
  | Normal (Some original) =>
    let q := actualizada ident datos original in
    let w1 := con_lectura_reloj w in
    id q = ident
    /\ fechaCreacion q = fechaCreacion original
    /\ titulo q = d_titulo datos /\ genero q = d_genero datos
    /\ director q = d_director datos
    /\ ano q = parseInt (d_ano datos)
    /\ calificacion q = parseFloat (d_calificacion datos)
    /\ descripcion q = d_descripcion datos /\ imagen q = d_imagen datos
    /\ (Conversiones P ->
        (forall z : Z,
           d_ano datos = Ventero z -> Z.abs z < 10 ^ 21 -> ano q = Entero z)
        /\ (forall z : Z,
              d_ano datos = Vcadena (decimal z) -> Z.abs z <= 2 ^ 53 ->
              ano q = Entero z)
        /\ (forall (s : bool) (m : positive) (e : Z),
              d_calificacion datos = Vnumero (S754_finite s m e) ->
              bounded 53 1024 m e = true ->
              calificacion q = S754_finite s m e))
    /\ exists (n : nat) (v : Validacion),
         items w !! n = Some original
         /\ fst (validar q w1) = Normal v
         /\ if valido v then
              items w' = <[n := q]> (items w)
              /\ length (items w') = length (items w)
              /\ fst (obtenerPorId ident w') = Normal (Some q)
              /\ (let c := JSON_stringify (map toJSON (items w')) in
                  escrituras w' = escrituras w ++ [c]
                  /\ (cuota c = true ->
                      fst (actualizar ident datos w)
                      = Normal (aceptada msg_actualizada None)
                      /\ almacen w' = Some c)
                  /\ (cuota c = false ->
                      fst (actualizar ident datos w)
                      = Lanza (Error msg_no_guardadas)))
            else
              fst (actualizar ident datos w) = Normal (rechazada (errores v))
              /\ errores v <> []
              /\ items w' = items w
              /\ almacen w' = almacen w
              /\ escrituras w' = escrituras w
  | Normal None => actualizar ident datos w = (Normal no_encontrada, w)
  | Lanza _ => False
  end.
Proof.
  intros Hw w'. apply alcanzable_bien_formado in Hw.
  destruct Hw as (r & l & Hg & Hids).
  rewrite (obtenerPorId_ok ident w r l Hg). cbn [fst].
  pose proof (actualizar_items ident datos w r l Hg Hids) as H.
  rewrite (gestor_en_items _ _ _ Hg).
  destruct (find_ _ l) as [original |]; [| exact H].
  cbv zeta in H. destruct H as (n & Hl & Hp & Hmin & Hrun & Hg').
  set (q := actualizada ident datos original) in *.
  set (w1 := con_lectura_reloj w) in *.
  repeat (split; [reflexivity |]).
  split.
  { intros C. split; [| split].
    - intros z Hz Hr. cbn. rewrite Hz. now apply parseInt_de_entero.
    - intros z Hz Hr. cbn. rewrite Hz. now apply parseInt_de_decimal.
    - intros s m e Hx Hb. cbn. rewrite Hx. now apply parseFloat_de_numero. }
  exists n. eexists. split; [exact Hl |].
  rewrite (validar_ok q w1). split; [reflexivity |]. cbn [valido errores].
  fold w' in Hg'.
  rewrite (gestor_en_items _ _ _ Hg').
  destruct (bool_decide (violadas (ano_actual w1) q = [])) eqn:Hv.
  - split; [reflexivity |]. split; [apply length_insert |].
    split.
    { rewrite (obtenerPorId_ok ident w' r _ Hg'). cbn [fst]. f_equal.
      apply find_insert.
      - eapply lookup_lt_Some; eauto.
      - now apply igual_verdad.
      - intros j p Hj Hjp. apply igual_falso. eapply Hmin; eauto. }
    unfold w'. rewrite Hrun, y_devolver_mundo.
    pose proof (guardada_campos (<[n := q]> l)
                  (con_elementos r (<[n := q]> l) (tras_validar q w1)))
      as (Hes & Hsi & Hno).
    cbv zeta in Hes, Hsi, Hno. cbv zeta.
    split.
    { rewrite Hes. unfold tras_validar. destruct (lee_reloj q); reflexivity. }
    split.
    + intros Hc. destruct (Hsi Hc) as (Hf & Ha). split; [| exact Ha].
      now apply y_devolver_resultado.
    + intros Hc. destruct (Hno Hc) as (Hf & _).
      now apply y_devolver_resultado.
  - unfold w'. rewrite Hrun. cbn [fst snd].
    split; [reflexivity |].
    split; [now apply bool_decide_eq_false in Hv |].
    split; [reflexivity |].
    unfold tras_validar. destruct (lee_reloj q); auto.
Qed.

End Actualizar.

(* ===================================================================== *)
(** * [eliminar] and the identifiers *)
(* ===================================================================== *)

Section Eliminar.

Context {P : Plataforma} {E : Entorno}.

Lemma ids_fmap (l : list Pelicula) : ids l = id <$> l.
Proof. reflexivity. Qed.

Lemma find_delete (f : Pelicula -> bool) (l : list Pelicula) (n : nat) :
  (forall (j : nat) (q : Pelicula), j <> n -> l !! j = Some q -> f q = false) ->
  find_ f (delete n l) = None.
Proof.
  intros H. apply find_ninguno. apply Forall_forall. intros x Hx.
  apply list_elem_of_lookup in Hx. destruct Hx as (i & Hi).
  destruct (Nat.lt_ge_cases i n) as [Hlt | Hge].
  - rewrite list_lookup_delete_lt in Hi by exact Hlt.
    apply (H i x); [lia | exact Hi].
  - rewrite list_lookup_delete_ge in Hi by exact Hge.
    apply (H (S i) x); [lia | exact Hi].
Qed.

Lemma ids_distintos (l : list Pelicula) (n j : nat) (p q : Pelicula) :
  NoDup (ids l) -> l !! n = Some p -> l !! j = Some q -> j <> n ->
  id q <> id p.
Proof.
  intros Hnd Hn Hj Hne Heq. apply Hne.
  apply (NoDup_lookup (ids l) j n (id p) Hnd); rewrite ids_fmap, list_lookup_fmap.
  - rewrite Hj. cbn. now f_equal.
  - now rewrite Hn.
Qed.

(** C6, as the code has it.  In every reachable world, [eliminar(id)] on
    an identifier that [obtenerPorId] finds removes the first record with
    that identifier: the records before it and after it stay, in their
    order, the later ones one place down, and [obtenerTodas] has exactly
    one element less; the collection is saved.  Afterwards [obtenerPorId]
    finds nothing when no other record carried the identifier, which is
    the case whenever the identifiers of the collection are distinct.  On
    an identifier that [obtenerPorId] does not find, the answer is that
    the film was not found and the world is as it was. *)
Theorem eliminar_quita_el_primero (w : Mundo) (ident : cadena) :
  alcanzable w ->
  let w' := snd (eliminar ident w) in
  match fst (obtenerPorId ident w) with
  | Normal (Some p) =>
    exists n : nat,
      items w !! n = Some p
      /\ (forall (j : nat) (q : Pelicula),
            (j < n)%nat -> items w !! j = Some q -> id q <> ident)
      /\ items w' = take n (items w) ++ drop (S n) (items w)
      /\ elementos obtenerTodas w' = Some (items w')
      /\ S (length (items w')) = length (items w)
      /\ ((forall (j : nat) (q : Pelicula),
             j <> n -> items w !! j = Some q -> id q <> ident) ->
          fst (obtenerPorId ident w') = Normal None)
      /\ (NoDup (ids (items w)) -> fst (obtenerPorId ident w') = Normal None)
      /\ (let c := JSON_stringify (map toJSON (items w')) in
          escrituras w' = escrituras w ++ [c]
          /\ (cuota c = true ->
              fst (eliminar ident w) = Normal (aceptada msg_eliminada None)
              /\ almacen w' = Some c)
          /\ (cuota c = false ->
              fst (eliminar ident w) = Lanza (Error msg_no_guardadas)))
  | Normal None => eliminar ident w = (Normal no_encontrada, w)
  | Lanza _ => False
  end.
Proof.
  intros Hw w'. apply alcanzable_bien_formado in Hw.
  destruct Hw as (r & l & Hg & Hids).
  rewrite (obtenerPorId_ok ident w r l Hg). cbn [fst].
  pose proof (eliminar_items ident w r l Hg) as H.
  rewrite (gestor_en_items _ _ _ Hg).
  destruct (find_ _ l) as [p |]; [| exact H].
  destruct H as (n & Hl & Hp & Hmin & Hrun & Hg').
  fold w' in Hg'. rewrite (gestor_en_items _ _ _ Hg').
  assert (Hotro : (forall (j : nat) (q : Pelicula),
                     j <> n -> l !! j = Some q -> id q <> ident) ->
                  fst (obtenerPorId ident w') = Normal None).
  { intros Hn. rewrite (obtenerPorId_ok ident w' r _ Hg'). cbn [fst]. f_equal.
    apply find_delete. intros j q Hj Hq. apply igual_falso. eauto. }
  exists n. split; [exact Hl |]. split; [exact Hmin |].
  split; [apply delete_take_drop |].
  split.
  { eapply devuelve_arreglo_elementos, obtenerTodas_devuelve; eauto. }
  split.
  { rewrite length_delete by eauto. apply lookup_lt_Some in Hl. lia. }
  split; [exact Hotro |].
  split.
  { intros Hnd. apply Hotro. intros j q Hj Hq. rewrite <- Hp.
    eapply ids_distintos; eauto. }
  unfold w'. rewrite Hrun, y_devolver_mundo.
  pose proof (guardada_campos (delete n l) (con_elementos r (delete n l) w))
    as (Hes & Hsi & Hno).
  cbv zeta in Hes, Hsi, Hno. cbv zeta.
  split; [exact Hes |].
  split.
  - intros Hc. destruct (Hsi Hc) as (Hf & Ha). split; [| exact Ha].
    now apply y_devolver_resultado.
  - intros Hc. destruct (Hno Hc) as (Hf & _).
    now apply y_devolver_resultado.
Qed.

(** C5, as the code has it.  Nothing in the manager compares
    identifiers.  In a reachable world whose identifiers are distinct,
    they are still distinct after [actualizar], after [eliminar] and
    after every query, and after [agregar] of a record whose identifier
    is not in the collection; [agregar] of a valid record whose
    identifier is in the collection puts a second record with it
    there. *)
Theorem ids_distintos_se_conservan (w : Mundo) :
  alcanzable w ->
  NoDup (ids (items w)) ->
  (forall (ident : cadena) (datos : Datos),
     NoDup (ids (items (snd (actualizar ident datos w)))))
  /\ (forall ident : cadena, NoDup (ids (items (snd (eliminar ident w)))))
  /\ (forall q : consulta, NoDup (ids (items (snd (consultar q w)))))
  /\ (forall p : Pelicula,
        ~ In (id p) (ids (items w)) ->
        NoDup (ids (items (snd (agregar p w)))))
  /\ (forall p : Pelicula,
        In (id p) (ids (items w)) ->
        violadas (ano_actual w) p = [] ->
        items (snd (agregar p w)) = items w ++ [p]
        /\ ~ NoDup (ids (items (snd (agregar p w))))).
Proof.
  intros Hw Hnd. apply alcanzable_bien_formado in Hw.
  destruct Hw as (r & l & Hg & Hids).
  rewrite (gestor_en_items _ _ _ Hg) in *.
  split; [| split; [| split; [| split]]].
  - intros ident datos.
    pose proof (actualizar_items ident datos w r l Hg Hids) as H.
    destruct (find_ _ l) as [original |].
    + cbv zeta in H. destruct H as (n & Hl & Hp & _ & _ & Hg').
      rewrite (gestor_en_items _ _ _ Hg').
      destruct (bool_decide _); [| exact Hnd].
      rewrite ids_fmap, list_fmap_insert. cbn [actualizada id].
      rewrite list_insert_id; [exact Hnd |].
      rewrite list_lookup_fmap, Hl. cbn. now f_equal.
    + rewrite H. cbn [snd]. now rewrite (gestor_en_items _ _ _ Hg).
  - intros ident.
    pose proof (eliminar_items ident w r l Hg) as H.
    destruct (find_ _ l) as [p |].
    + destruct H as (n & _ & _ & _ & _ & Hg').
      rewrite (gestor_en_items _ _ _ Hg').
      rewrite ids_fmap, list_fmap_delete.
      eapply sublist_NoDup; [exact Hnd |]. exact (sublist_delete (id <$> l) n).
    + rewrite H. cbn [snd]. now rewrite (gestor_en_items _ _ _ Hg).
  - intros q.
    destruct (consultar_amplia q w r l Hg) as (v & w' & Hrun & Ha & _).
    rewrite Hrun. cbn [snd].
    rewrite (amplia_items _ _ _ _ Ha Hg), (gestor_en_items _ _ _ Hg).
    exact Hnd.
  - intros p Hp.
    pose proof (agregar_items p w r l Hg) as Hg'.
    rewrite (gestor_en_items _ _ _ Hg').
    destruct (bool_decide _); [| exact Hnd].
    unfold ids. rewrite map_app. cbn [map].
    apply NoDup_app. split; [exact Hnd |]. split; [| apply NoDup_singleton].
    intros x Hx Hx'. apply list_elem_of_singleton in Hx'. subst x.
    apply Hp. now apply list_elem_of_In.
  - intros p Hp Hv.
    pose proof (agregar_items p w r l Hg) as Hg'.
    rewrite (gestor_en_items _ _ _ Hg').
    rewrite bool_decide_eq_true_2 by exact Hv.
    split; [reflexivity |].
    unfold ids. rewrite map_app. cbn [map].
    intros Hnd'. apply NoDup_app in Hnd'. destruct Hnd' as (_ & Hdis & _).
    apply (Hdis (id p)); [now apply list_elem_of_In | apply list_elem_of_here].
Qed.

End Eliminar.

(* ===================================================================== *)
(** * Validity of the collection *)
(* ===================================================================== *)

Section Validez.

Context {P : Plataforma} {E : Entorno}.

Lemma regla_ano_monotona (y y' : Z) (p : Pelicula) :
  y <= y' -> regla_ano y p = true -> regla_ano y' p = true.
Proof.
  unfold regla_ano. destruct (ano p) as [| z]; [auto |].
  intros Hy. rewrite !andb_true_iff, !Z.leb_le. lia.
Qed.

(** A record that passes in some year passes in every later one. *)
Lemma cumple_monotono (y y' : Z) (p : Pelicula) :
  y <= y' -> cumple y p -> cumple y' p.
Proof.
  intros Hy. unfold cumple, violadas, veredictos, mensajes.
  pose proof (regla_ano_monotona y y' p Hy) as Hano.
  destruct (regla_titulo p), (regla_genero p), (regla_director p),
    (regla_ano y p), (regla_calificacion p), (regla_descripcion p),
    (regla_imagen p); cbn [seleccionar]; try discriminate.
  intros _. now rewrite Hano.
Qed.

Lemma lecturas_tras_validar (p : Pelicula) (w : Mundo) :
  (lecturas_reloj w <= lecturas_reloj (tras_validar p w))%nat.
Proof. unfold tras_validar. destruct (lee_reloj p); cbn; lia. Qed.

Lemma lecturas_guardada (l : list Pelicula) (w : Mundo) :
  lecturas_reloj (snd (guardada l w)) = lecturas_reloj w.
Proof. unfold guardada. destruct (cuota _); reflexivity. Qed.

Section Reloj.

(** The calendar year of the clock never goes back. *)
Hypothesis ano_no_retrocede :
  forall n m : nat,
    (n <= m)%nat -> getFullYear (reloj n) <= getFullYear (reloj m).

Lemma cumple_despues (w w' : Mundo) (p : Pelicula) :
  (lecturas_reloj w <= lecturas_reloj w')%nat ->
  cumple (ano_actual w) p -> cumple (ano_actual w') p.
Proof.
  intros H. apply cumple_monotono. unfold ano_actual.
  now apply ano_no_retrocede.
Qed.

Lemma Forall_cumple_despues (w w' : Mundo) (l : list Pelicula) :
  (lecturas_reloj w <= lecturas_reloj w')%nat ->
  Forall (cumple (ano_actual w)) l -> Forall (cumple (ano_actual w')) l.
Proof.
  intros H Hl. eapply Forall_impl; [exact Hl |].
  intros p. now apply cumple_despues.
Qed.

(** One call keeps every record of the collection valid. *)
Lemma ejecutar_validos (c : llamada) (w : Mundo) :
  bien_formado w ->
  Forall (cumple (ano_actual w)) (items w) ->
  Forall (cumple (ano_actual (snd (ejecutar c w)))) (items (snd (ejecutar c w))).
Proof.
  intros (r & l & Hg & Hids). rewrite (gestor_en_items _ _ _ Hg). intros Hval.
  destruct c as [a | ident datos | ident | q]; cbn [ejecutar].
  - destruct (construir_ok a w) as (p & w1 & Hrun & Hw & _).
    rewrite (ligar_normal _ _ _ _ _ Hrun), snd_ligar_devolver.
    pose proof (mismo_salvo_lecturas_gestor_en _ _ _ _ Hw Hg) as Hg1.
    pose proof (agregar_items p w1 r l Hg1) as Hg2.
    rewrite (gestor_en_items _ _ _ Hg2).
    assert (H1 : (lecturas_reloj w <= lecturas_reloj w1)%nat).
    { destruct Hw as (_ & _ & _ & _ & _ & H1 & _). exact H1. }
    assert (H2 : (lecturas_reloj w1 <= lecturas_reloj (snd (agregar p w1)))%nat).
    { rewrite (agregar_ok p w1 r l Hg1).
      destruct (bool_decide _).
      - rewrite y_devolver_mundo, lecturas_guardada. cbn.
        apply lecturas_tras_validar.
      - apply lecturas_tras_validar. }
    destruct (bool_decide (violadas (ano_actual w1) p = [])) eqn:Hv.
    + apply bool_decide_eq_true in Hv.
      apply Forall_app. split.
      * eapply Forall_cumple_despues; [| exact Hval]. lia.
      * constructor; [| constructor].
        eapply cumple_despues; [exact H2 | exact Hv].
    + eapply Forall_cumple_despues; [| exact Hval]. lia.
  - rewrite snd_ligar_devolver.
    pose proof (actualizar_items ident datos w r l Hg Hids) as H.
    destruct (find_ _ l) as [original |].
    + cbv zeta in H. destruct H as (n & Hl & Hp & _ & Hrun & Hg2).
      rewrite (gestor_en_items _ _ _ Hg2).
      set (q := actualizada ident datos original) in *.
      set (w1 := con_lectura_reloj w) in *.
      assert (H2 : (lecturas_reloj w1
                    <= lecturas_reloj (snd (actualizar ident datos w)))%nat).
      { rewrite Hrun. destruct (bool_decide _).
        - rewrite y_devolver_mundo, lecturas_guardada. cbn.
          apply (lecturas_tras_validar q w1).
        - apply (lecturas_tras_validar q w1). }
      assert (H1 : (lecturas_reloj w <= lecturas_reloj w1)%nat) by (cbn; lia).
      destruct (bool_decide (violadas (ano_actual w1) q = [])) eqn:Hv.
      * apply bool_decide_eq_true in Hv.
        apply Forall_insert_.
        -- eapply Forall_cumple_despues; [| exact Hval]. lia.
        -- eapply cumple_despues; [exact H2 | exact Hv].
      * eapply Forall_cumple_despues; [| exact Hval]. lia.
    + rewrite H. cbn [snd]. now rewrite (gestor_en_items _ _ _ Hg).
  - rewrite snd_ligar_devolver.
    pose proof (eliminar_items ident w r l Hg) as H.
    destruct (find_ _ l) as [p |].
    + destruct H as (n & _ & _ & _ & Hrun & Hg2).
      rewrite (gestor_en_items _ _ _ Hg2).
      apply Forall_delete.
      eapply Forall_cumple_despues; [| exact Hval].
      rewrite Hrun, y_devolver_mundo, lecturas_guardada. cbn. lia.
    + rewrite H. cbn [snd]. now rewrite (gestor_en_items _ _ _ Hg).
  - rewrite snd_ligar_devolver.
    destruct (consultar_amplia q w r l Hg) as (v & w' & Hrun & Ha & _).
    rewrite Hrun. cbn [snd].
    rewrite (amplia_items _ _ _ _ Ha Hg), (gestor_en_items _ _ _ Hg).
    eapply Forall_cumple_despues; [| exact Hval].
    destruct Ha as (_ & _ & _ & Hlr & _). lia.
Qed.

Lemma correr_validos (cs : list llamada) (w : Mundo) :
  bien_formado w ->
  Forall (cumple (ano_actual w)) (items w) ->
  Forall (cumple (ano_actual (correr cs w))) (items (correr cs w)).
Proof.
  revert w. induction cs as [| c cs IH]; intros w Hw Hval; [exact Hval |].
  cbn. apply IH.
  - now apply ejecutar_bien_formado.
  - now apply ejecutar_validos.
Qed.

End Reloj.

(** C2, as the code has it.  [agregar] and [actualizar] are the two
    places where [validar] is called; [cargarPeliculas] does not call it.
    With a clock whose calendar year never goes back, in a reachable
    world where every record of the collection passes [validar], every
    record of the collection passes [validar] after any sequence of
    calls ([agregar], [actualizar], [eliminar], queries); [agregar]
    appends a record that passes [validar], and turns down one that
    fails it with its errors, the collection and the storage staying as
    they were. *)
Theorem solo_entran_registros_validos (w : Mundo) :
  (forall n m : nat,
     (n <= m)%nat -> getFullYear (reloj n) <= getFullYear (reloj m)) ->
  alcanzable w ->
  Forall (cumple (ano_actual w)) (items w) ->
  (forall cs : list llamada,
     Forall (cumple (ano_actual (correr cs w))) (items (correr cs w)))
  /\ (forall p : Pelicula,
        violadas (ano_actual w) p = [] ->
        items (snd (agregar p w)) = items w ++ [p])
  /\ (forall p : Pelicula,
        violadas (ano_actual w) p <> [] ->
        fst (agregar p w) = Normal (rechazada (violadas (ano_actual w) p))
        /\ items (snd (agregar p w)) = items w
        /\ almacen (snd (agregar p w)) = almacen w
        /\ escrituras (snd (agregar p w)) = escrituras w).
Proof.
  intros Hreloj Hw Hval. apply alcanzable_bien_formado in Hw.
  split; [| split].
  - intros cs. now apply correr_validos.
  - intros p Hp. destruct Hw as (r & l & Hg & _).
    pose proof (agregar_items p w r l Hg) as Hg'.
    rewrite (gestor_en_items _ _ _ Hg'), (gestor_en_items _ _ _ Hg).
    now rewrite bool_decide_eq_true_2 by exact Hp.
  - intros p Hp. destruct Hw as (r & l & Hg & _).
    pose proof (agregar_items p w r l Hg) as Hg'.
    rewrite (gestor_en_items _ _ _ Hg'), (gestor_en_items _ _ _ Hg).
    rewrite (agregar_ok p w r l Hg).
    rewrite bool_decide_eq_false_2 by exact Hp. cbn [fst snd].
    split; [reflexivity |]. split; [reflexivity |].
    unfold tras_validar. destruct (lee_reloj p); auto.
Qed.

End Validez.

(* ===================================================================== *)
(** * The most recent records *)
(* ===================================================================== *)

Section Recientes.

Context {P : Plataforma} {E : Entorno}.

(** C8, as the code has it.  In every reachable world and for every
    count [n], [obtenerRecientes(n)] returns the first [min n size]
    records of the collection sorted by creation date, latest first,
    records of the same date keeping the order they have in the
    collection (there is one such arrangement); the count is 5 when it
    is omitted, and a count above the size gives them all.  On three records [a], [b], [c] whose creation
    dates increase strictly, [obtenerRecientes(2)] returns [c], [b]. *)
Theorem obtenerRecientes_devuelve_los_ultimos (w : Mundo) (n : nat) :
  alcanzable w ->
  let s := ordenar cmp_recientes (items w) in
  Permutation s (items w)
  /\ mas_reciente_primero s
  /\ conserva_empates (items w) s
  /\ (forall s' : list Pelicula,
        mas_reciente_primero s' -> conserva_empates (items w) s' -> s' = s)
  /\ elementos (obtenerRecientes (Some (Z.of_nat n))) w
     = Some (take (Nat.min n (length (items w))) s)
  /\ obtenerRecientes None w = obtenerRecientes (Some 5) w
  /\ ((length (items w) <= n)%nat ->
      elementos (obtenerRecientes (Some (Z.of_nat n))) w = Some s)
  /\ (forall a b c : Pelicula,
        items w = [a; b; c] ->
        fechaCreacion a < fechaCreacion b ->
        fechaCreacion b < fechaCreacion c ->
        elementos (obtenerRecientes (Some 2)) w = Some [c; b]).
Proof.
  intros Hw s. apply alcanzable_bien_formado in Hw.
  destruct Hw as (r & l & Hg & _).
  assert (Hel : forall k : nat,
    elementos (obtenerRecientes (Some (Z.of_nat k))) w
    = Some (take (Nat.min k (length (items w))) s)).
  { intros k.
    rewrite (devuelve_arreglo_elementos _ _ _
               (obtenerRecientes_devuelve (Some (Z.of_nat k)) w r l Hg)).
    rewrite slice0_natural, ordenar_length. unfold s.
    now rewrite (gestor_en_items _ _ _ Hg). }
  split; [apply ordenar_perm |].
  split; [apply ordenar_reciente_primero |].
  split; [apply ordenar_conserva_empates |].
  split.
  { intros s' Hs' He'. apply orden_estable_unico.
    - apply ordenar_reciente_primero.
    - exact Hs'.
    - intros t. rewrite He'. symmetry. apply ordenar_conserva_empates. }
  split; [apply Hel |].
  split; [reflexivity |].
  split.
  - intros Hn. rewrite Hel. f_equal.
    rewrite Nat.min_r by exact Hn.
    rewrite <- (ordenar_length cmp_recientes (items w)). apply firstn_all.
  - intros a b c Habc Hab Hbc.
    change 2 with (Z.of_nat 2). rewrite Hel. unfold s. rewrite Habc.
    now rewrite (ordenar_tres a b c Hab Hbc).
Qed.

End Recientes.

(* ===================================================================== *)
(** * Loading the collection *)
(* ===================================================================== *)

Section Cargar.

Context {P : Plataforma} {E : Entorno}.

(** C1, as the code has it.  [cargarPeliculas] asks whether the stored
    text is truthy, and the text of an empty array is.  If the storage
    holds the text of an array of records, the constructor of the
    manager returns with the records made of that array, one for one and
    in order, and writes nothing: an empty array gives an empty
    collection.  If the storage holds nothing, the empty string, a text
    that is not JSON or the text of a value that is not an array, and it
    takes the default set, the constructor returns with the default set
    as the collection and that set written to the storage. *)
Theorem cargar_o_sembrar (w : Mundo) :
  match almacen w with
  | Some (JSONArreglo regs) =>
    exists w' : Mundo,
      PeliculaManager_new w = (Normal tt, w')
      /\ Forall2 corresponde (items w') regs
      /\ (regs = [] -> items w' = [])
      /\ almacen w' = almacen w
      /\ escrituras w' = escrituras w
  | _ =>
    let c := JSON_stringify (map toJSON (peliculasIniciales_en w)) in
    cuota c = true ->
    exists w' : Mundo,
      PeliculaManager_new w = (Normal tt, w')
      /\ items w' = peliculasIniciales_en w
      /\ almacen w' = Some c
      /\ escrituras w' = escrituras w ++ [c]
  end.
Proof.
  rewrite PeliculaManager_new_ok.
  set (w0 := con_this_peliculas None w).
  assert (Hseed :
    cuota (JSON_stringify (map toJSON (peliculasIniciales_en w))) = true ->
    obtenerPeliculasIniciales w0
    = (Normal (siguiente w0),
       con_almacen (JSON_stringify (map toJSON (peliculasIniciales_en w)))
         (con_escritura (JSON_stringify (map toJSON (peliculasIniciales_en w)))
            (con_iniciales w0)))).
  { intros Hc. rewrite obtenerPeliculasIniciales_ok. unfold guardada.
    change (peliculasIniciales_en w0) with (peliculasIniciales_en w).
    rewrite Hc. reflexivity. }
  assert (Hfin : forall w1,
    w1 = con_this_peliculas (Some (siguiente w0))
           (con_almacen (JSON_stringify (map toJSON (peliculasIniciales_en w)))
              (con_escritura
                 (JSON_stringify (map toJSON (peliculasIniciales_en w)))
                 (con_iniciales w0))) ->
    items w1 = peliculasIniciales_en w
    /\ almacen w1 = Some (JSON_stringify (map toJSON (peliculasIniciales_en w)))
    /\ escrituras w1
       = escrituras w
         ++ [JSON_stringify (map toJSON (peliculasIniciales_en w))]).
  { intros w1 ->. split; [| split; reflexivity].
    apply (gestor_en_items _ (siguiente w0)).
    pose proof (gestor_en_con_iniciales w0) as (_ & Hl & Hr).
    repeat split; assumption. }
  destruct (almacen w) as [[| | regs] |] eqn:Ha.
  - intros c Hc. rewrite cargarPeliculas_ausente by (right; exact Ha).
    rewrite (Hseed Hc). eexists. split; [reflexivity |]. now apply Hfin.
  - intros c Hc. rewrite cargarPeliculas_ilegible by exact Ha.
    rewrite (Hseed Hc). eexists. split; [reflexivity |]. now apply Hfin.
  - destruct (cargarPeliculas_arreglo regs w0 Ha) as (l & w1 & Hrun & Hw & Hcor).
    rewrite Hrun. eexists. split; [reflexivity |].
    assert (Hit : items (con_this_peliculas (Some (siguiente w1)) (con_arreglo l w1)) = l).
    { apply (gestor_en_items _ (siguiente w1)).
      unfold gestor_en. cbn. repeat split; [apply lookup_insert_eq | lia]. }
    rewrite Hit. destruct Hw as (_ & _ & _ & Hal & Hes & _).
    split; [exact Hcor |].
    split; [intros ->; now inversion Hcor |].
    split; [cbn; rewrite Hal; exact Ha | cbn; exact Hes].
  - intros c Hc. rewrite cargarPeliculas_ausente by (left; exact Ha).
    rewrite (Hseed Hc). eexists. split; [reflexivity |]. now apply Hfin.
Qed.

(** When the storage takes nothing and holds a text that is not that
    of an array, the constructor does not return: the error of
    [guardarPeliculas] leaves it. *)
Lemma cargar_sin_cuota (w : Mundo) :
  almacen w = Some NoJSON ->
  cuota (JSON_stringify (map toJSON (peliculasIniciales_en w))) = false ->
  fst (PeliculaManager_new w) = Lanza (Error msg_no_guardadas).
Proof.
  intros Ha Hc. rewrite PeliculaManager_new_ok.
  rewrite cargarPeliculas_ilegible by exact Ha.
  rewrite obtenerPeliculasIniciales_ok. unfold guardada.
  change (peliculasIniciales_en (con_this_peliculas None w))
    with (peliculasIniciales_en w).
  now rewrite Hc.
Qed.

End Cargar.
(* ===================================================================== *)
(** * Adding, looking up and removing *)
(* ===================================================================== *)

Section AgregarYConsultar.

Context {P : Plataforma} {E : Entorno}.

Lemma find_app_uno (f : Pelicula -> bool) (l : list Pelicula) (p : Pelicula) :
  find_ f (l ++ [p])
  = match find_ f l with
    | Some q => Some q
    | None => if f p then Some p else None
    end.
Proof.
  induction l as [| x l IH]; cbn; [reflexivity |].
  destruct (f x); [reflexivity | exact IH].
Qed.

Lemma delete_ultimo (l : list Pelicula) (p : Pelicula) :
  delete (length l) (l ++ [p]) = l.
Proof.
  induction l as [| x l IH]; cbn; [reflexivity |]. f_equal. exact IH.
Qed.

(** The world after a successful [agregar]. *)
Lemma agregar_valida (p : Pelicula) (w : Mundo) (r : ref) (l : list Pelicula) :
  gestor_en w r l ->
  violadas (ano_actual w) p = [] ->
  agregar p w
  = y_devolver
      (guardada (l ++ [p]) (con_elementos r (l ++ [p]) (tras_validar p w)))
      (aceptada msg_agregada (Some p))
  /\ gestor_en (snd (agregar p w)) r (l ++ [p]).
Proof.
  intros Hg Hv. pose proof (agregar_items p w r l Hg) as Hg'.
  rewrite (agregar_ok p w r l Hg) in *.
  rewrite bool_decide_eq_true_2 in * by exact Hv.
  split; [reflexivity | exact Hg'].
Qed.

Lemma guardada_almacen (l : list Pelicula) (w : Mundo) :
  cuota (JSON_stringify (map toJSON l)) = false ->
  almacen (snd (guardada l w)) = almacen w.
Proof. intros Hc. unfold guardada. now rewrite Hc. Qed.

(** X1.  In every reachable world, after [agregar] of a record that
    passes [validar] the record is the last of the collection and of
    what [obtenerTodas] returns, whether or not the storage took the
    write.  [obtenerPorId] of its identifier returns it when no record
    had that identifier, and the older record when one had; every other
    identifier is looked up as before. *)
Theorem agregar_y_luego_consultar (w : Mundo) (p : Pelicula) :
  alcanzable w ->
  violadas (ano_actual w) p = [] ->
  let w' := snd (agregar p w) in
  items w' = items w ++ [p]
  /\ elementos obtenerTodas w' = Some (items w ++ [p])
  /\ (~ In (id p) (ids (items w)) ->
      fst (obtenerPorId (id p) w') = Normal (Some p))
  /\ (forall q : Pelicula,
        fst (obtenerPorId (id p) w) = Normal (Some q) ->
        fst (obtenerPorId (id p) w') = Normal (Some q))
  /\ (forall i : cadena,
        i <> id p -> fst (obtenerPorId i w') = fst (obtenerPorId i w)).
Proof.
  intros Hw Hv w'. apply alcanzable_bien_formado in Hw.
  destruct Hw as (r & l & Hg & _).
  destruct (agregar_valida p w r l Hg Hv) as (_ & Hg').
  fold w' in Hg'.
  rewrite (gestor_en_items _ _ _ Hg), (gestor_en_items _ _ _ Hg').
  split; [reflexivity |].
  split.
  { eapply devuelve_arreglo_elementos, obtenerTodas_devuelve; eauto. }
  rewrite !(obtenerPorId_ok _ w' r _ Hg'), !(obtenerPorId_ok _ w r _ Hg).
  cbn [fst]. rewrite find_app_uno.
  split; [| split].
  - intros Hno. apply find_id_ausente in Hno. rewrite Hno.
    assert (Hp : igual (id p) (id p) = true) by now apply igual_verdad.
    now rewrite Hp.
  - intros q [= Hq]. now rewrite Hq.
  - intros i Hi.
    rewrite (obtenerPorId_ok i w' r _ Hg'), (obtenerPorId_ok i w r _ Hg).
    cbn [fst]. rewrite find_app_uno.
    destruct (find_ _ l); [reflexivity |].
    assert (Hp : igual (id p) i = false) by (apply igual_falso; congruence).
    now rewrite Hp.
Qed.

(** X2.  In every reachable world, [agregar] of a record that passes
    [validar] and whose identifier is new, followed by [eliminar] of
    that identifier, leaves the collection as it was before the two
    calls; when the storage takes the write of [eliminar], the answer is
    the success and the storage holds the text of that collection. *)
Theorem eliminar_deshace_agregar (w : Mundo) (p : Pelicula) :
  alcanzable w ->
  violadas (ano_actual w) p = [] ->
  ~ In (id p) (ids (items w)) ->
  let w1 := snd (agregar p w) in
  let w2 := snd (eliminar (id p) w1) in
  let c := JSON_stringify (map toJSON (items w)) in
  items w2 = items w
  /\ (cuota c = true ->
      fst (eliminar (id p) w1) = Normal (aceptada msg_eliminada None)
      /\ almacen w2 = Some c).
Proof.
  intros Hw Hv Hno w1 w2 c. apply alcanzable_bien_formado in Hw.
  destruct Hw as (r & l & Hg & _).
  destruct (agregar_valida p w r l Hg Hv) as (_ & Hg1). fold w1 in Hg1.
  unfold c. rewrite (gestor_en_items _ _ _ Hg) in *.
  pose proof (eliminar_items (id p) w1 r (l ++ [p]) Hg1) as H.
  rewrite find_app_uno in H.
  apply find_id_ausente in Hno. rewrite Hno in H.
  assert (Hp : igual (id p) (id p) = true) by now apply igual_verdad.
  rewrite Hp in H. destruct H as (n & Hn & _ & Hmin & Hrun & Hg2).
  assert (Hlen : n = length l).
  { destruct (Nat.lt_trichotomy n (length l)) as [Hlt | [Heq | Hgt]];
      [exfalso | exact Heq | exfalso].
    - rewrite lookup_app_l in Hn by exact Hlt.
      rewrite find_ninguno, Forall_forall in Hno.
      specialize (Hno p (list_elem_of_lookup_2 _ _ _ Hn)).
      cbn in Hno. congruence.
    - apply lookup_lt_Some in Hn. rewrite length_app in Hn. cbn in Hn. lia. }
  subst n. rewrite delete_ultimo in Hrun, Hg2. fold w2 in Hg2.
  split; [exact (gestor_en_items _ _ _ Hg2) |].
  intros Hc. unfold w2. rewrite Hrun, y_devolver_mundo.
  pose proof (guardada_campos l (con_elementos r l w1)) as (_ & Hsi & _).
  cbv zeta in Hsi. destruct (Hsi Hc) as (Hf & Ha).
  split; [| exact Ha]. now apply y_devolver_resultado.
Qed.

End AgregarYConsultar.

(* ===================================================================== *)
(** * The storage as a mirror of the collection *)
(* ===================================================================== *)

Section Espejo.

Context {P : Plataforma} {E : Entorno}.

Lemma reflejado_amplia (w w' : Mundo) (r : ref) (l : list Pelicula) :
  gestor_en w r l -> amplia w w' -> reflejado w -> reflejado w'.
Proof.
  intros Hg Ha Hr. unfold reflejado in *.
  rewrite (amplia_items _ _ _ _ Ha Hg).
  destruct Ha as (_ & Hal & _). now rewrite Hal.
Qed.

Lemma reflejado_lecturas (w w' : Mundo) :
  mismo_salvo_lecturas w w' -> reflejado w -> reflejado w'.
Proof.
  intros (Hm & _ & Ht & Ha & _) Hr. unfold reflejado, items in *.
  now rewrite Hm, Ht, Ha.
Qed.

Lemma reflejado_tras_validar (p : Pelicula) (w : Mundo) :
  reflejado w -> reflejado (tras_validar p w).
Proof. unfold tras_validar. destruct (lee_reloj p); auto. Qed.

(** Once [guardarPeliculas] has returned, the storage holds the text of
    the collection. *)
Lemma guardada_reflejado {A} (l l0 : list Pelicula) (w : Mundo) (r : ref) (a : A) :
  gestor_en w r l0 ->
  let x := y_devolver (guardada l (con_elementos r l w)) a in
  (fst x = Normal a -> reflejado (snd x))
  /\ (cuota (JSON_stringify (map toJSON l)) = true -> fst x = Normal a).
Proof.
  intros Hg x.
  pose proof (gestor_en_con_elementos _ _ _ l Hg) as Hg1.
  pose proof (guardada_gestor_en l _ _ _ Hg1) as Hg2.
  pose proof (guardada_campos l (con_elementos r l w)) as (_ & Hsi & Hno).
  cbv zeta in Hsi, Hno. unfold x. rewrite y_devolver_mundo.
  destruct (cuota (JSON_stringify (map toJSON l))) eqn:Hc.
  - destruct (Hsi eq_refl) as (Hf & Ha).
    split; [| intros _; now apply y_devolver_resultado].
    intros _. unfold reflejado. now rewrite (gestor_en_items _ _ _ Hg2).
  - destruct (Hno eq_refl) as (Hf & _).
    split; [| discriminate].
    destruct (y_devolver_resultado (guardada l (con_elementos r l w)) a)
      as (_ & Hl).
    rewrite (Hl _ Hf). discriminate.
Qed.

Lemma agregar_reflejado (p : Pelicula) (w : Mundo) :
  bien_formado w ->
  (forall res : Resultado,
     fst (agregar p w) = Normal res ->
     (exito res = true \/ reflejado w) -> reflejado (snd (agregar p w)))
  /\ ((forall c, cuota c = true) -> exists res, fst (agregar p w) = Normal res).
Proof.
  intros (r & l & Hg & _). rewrite (agregar_ok p w r l Hg).
  destruct (bool_decide _).
  - pose proof (guardada_reflejado (l ++ [p]) l (tras_validar p w) r
                  (aceptada msg_agregada (Some p))
                  (gestor_en_tras_validar p _ _ _ Hg)) as (H1 & H2).
    cbv zeta in H1, H2. split.
    + intros res Hres _. apply H1.
      destruct (fst (y_devolver _ _)) as [a |] eqn:Hf; [| discriminate].
      destruct (guardada _ _) as [[[] | e] w2]; cbn in Hf |- *; congruence.
    + intros Hc. eexists. apply H2, Hc.
  - cbn [fst snd]. split; [| eauto].
    intros res [= <-] [Hex | Hr]; [discriminate |].
    now apply reflejado_tras_validar.
Qed.

Lemma actualizar_reflejado (ident : cadena) (datos : Datos) (w : Mundo) :
  bien_formado w ->
  (forall res : Resultado,
     fst (actualizar ident datos w) = Normal res ->
     (exito res = true \/ reflejado w) ->
     reflejado (snd (actualizar ident datos w)))
  /\ ((forall c, cuota c = true) ->
      exists res, fst (actualizar ident datos w) = Normal res).
Proof.
  intros (r & l & Hg & Hids).
  pose proof (actualizar_items ident datos w r l Hg Hids) as H.
  destruct (find_ _ l) as [original |].
  - cbv zeta in H. destruct H as (n & _ & _ & _ & Hrun & _). rewrite Hrun.
    set (q := actualizada ident datos original).
    set (w1 := con_lectura_reloj w).
    destruct (bool_decide _).
    + pose proof (guardada_reflejado (<[n := q]> l) l (tras_validar q w1) r
                    (aceptada msg_actualizada None)
                    (gestor_en_tras_validar q w1 r l Hg)) as (H1 & H2).
      cbv zeta in H1, H2. split.
      * intros res Hres _. apply H1.
        destruct (guardada _ _) as [[[] | e] w2]; cbn in Hres |- *; congruence.
      * intros Hc. eexists. apply H2, Hc.
    + cbn [fst snd]. split; [| eauto].
      intros res [= <-] [Hex | Hr]; [discriminate |].
      now apply reflejado_tras_validar.
  - rewrite H. cbn [fst snd]. split; [| eauto].
    intros res [= <-] [Hex | Hr]; [discriminate | exact Hr].
Qed.

Lemma eliminar_reflejado (ident : cadena) (w : Mundo) :
  bien_formado w ->
  (forall res : Resultado,
     fst (eliminar ident w) = Normal res ->
     (exito res = true \/ reflejado w) -> reflejado (snd (eliminar ident w)))
  /\ ((forall c, cuota c = true) -> exists res, fst (eliminar ident w) = Normal res).
Proof.
  intros (r & l & Hg & Hids).
  pose proof (eliminar_items ident w r l Hg) as H.
  destruct (find_ _ l) as [p |].
  - destruct H as (n & _ & _ & _ & Hrun & _). rewrite Hrun.
    pose proof (guardada_reflejado (delete n l) l w r
                  (aceptada msg_eliminada None) Hg) as (H1 & H2).
    cbv zeta in H1, H2. split.
    + intros res Hres _. apply H1.
      destruct (guardada _ _) as [[[] | e] w2]; cbn in Hres |- *; congruence.
    + intros Hc. eexists. apply H2, Hc.
  - rewrite H. cbn [fst snd]. split; [| eauto].
    intros res [= <-] [Hex | Hr]; [discriminate | exact Hr].
Qed.

Lemma fst_ligar_devolver {A} (m : M A) (w : Mundo) :
  fst ((m ;; devolver tt) w) = Normal tt -> exists a, fst (m w) = Normal a.
Proof.
  unfold ligar. destruct (m w) as [[a | e] w']; cbn; [eauto | discriminate].
Qed.

Lemma ejecutar_reflejado (c : llamada) (w : Mundo) :
  bien_formado w -> reflejado w ->
  (fst (ejecutar c w) = Normal tt -> reflejado (snd (ejecutar c w)))
  /\ ((forall c0, cuota c0 = true) -> fst (ejecutar c w) = Normal tt).
Proof.
  intros Hw Hr. pose proof Hw as (r & l & Hg & Hids).
  destruct c as [a | ident datos | ident | q]; cbn [ejecutar].
  - destruct (construir_ok a w) as (p & w1 & Hrun & Hw1 & Hid & _).
    rewrite (ligar_normal _ _ _ _ _ Hrun), snd_ligar_devolver.
    assert (Hbf : bien_formado w1).
    { exists r, l. split; [| exact Hids].
      eapply mismo_salvo_lecturas_gestor_en; eauto. }
    destruct (agregar_reflejado p w1 Hbf) as (H1 & H2).
    split.
    + intros Hf. apply fst_ligar_devolver in Hf. destruct Hf as (res & Hres).
      apply (H1 res Hres). right. eapply reflejado_lecturas; eauto.
    + intros Hc. destruct (H2 Hc) as (res & Hres). unfold ligar.
      destruct (agregar p w1) as [[x | e] w2]; cbn in Hres; [reflexivity | discriminate].
  - rewrite snd_ligar_devolver.
    destruct (actualizar_reflejado ident datos w Hw) as (H1 & H2).
    split.
    + intros Hf. apply fst_ligar_devolver in Hf. destruct Hf as (res & Hres).
      apply (H1 res Hres). now right.
    + intros Hc. destruct (H2 Hc) as (res & Hres). unfold ligar.
      destruct (actualizar ident datos w) as [[x | e] w2]; cbn in Hres;
        [reflexivity | discriminate].
  - rewrite snd_ligar_devolver.
    destruct (eliminar_reflejado ident w Hw) as (H1 & H2).
    split.
    + intros Hf. apply fst_ligar_devolver in Hf. destruct Hf as (res & Hres).
      apply (H1 res Hres). now right.
    + intros Hc. destruct (H2 Hc) as (res & Hres). unfold ligar.
      destruct (eliminar ident w) as [[x | e] w2]; cbn in Hres;
        [reflexivity | discriminate].
  - rewrite snd_ligar_devolver.
    destruct (consultar_amplia q w r l Hg) as (v & w' & Hrun & Ha & _).
    unfold ligar. rewrite Hrun. cbn [fst snd].
    split; [| reflexivity]. intros _. eapply reflejado_amplia; eauto.
Qed.

(** X3.  In every reachable world, a mutator that answers with a success
    leaves in the storage the text of the collection as it then is.
    From a world where the storage holds the text of the collection,
    every call that returns (a mutator turned down, a query) leaves it
    so; and with a storage that takes every text, every call returns and
    any sequence of calls leaves it so. *)
Theorem el_almacen_refleja_la_coleccion (w : Mundo) :
  alcanzable w ->
  (forall (p : Pelicula) (res : Resultado),
     fst (agregar p w) = Normal res -> exito res = true ->
     reflejado (snd (agregar p w)))
  /\ (forall (ident : cadena) (datos : Datos) (res : Resultado),
        fst (actualizar ident datos w) = Normal res -> exito res = true ->
        reflejado (snd (actualizar ident datos w)))
  /\ (forall (ident : cadena) (res : Resultado),
        fst (eliminar ident w) = Normal res -> exito res = true ->
        reflejado (snd (eliminar ident w)))
  /\ (reflejado w ->
      (forall c : llamada,
         fst (ejecutar c w) = Normal tt -> reflejado (snd (ejecutar c w)))
      /\ ((forall c0 : contenido, cuota c0 = true) ->
          forall cs : list llamada, reflejado (correr cs w))).
Proof.
  intros Hw. apply alcanzable_bien_formado in Hw.
  split; [| split; [| split]].
  - intros p res Hres Hex.
    destruct (agregar_reflejado p w Hw) as (H1 & _). eapply H1; eauto.
  - intros ident datos res Hres Hex.
    destruct (actualizar_reflejado ident datos w Hw) as (H1 & _). eapply H1; eauto.
  - intros ident res Hres Hex.
    destruct (eliminar_reflejado ident w Hw) as (H1 & _). eapply H1; eauto.
  - intros Hr. split.
    + intros c. now apply ejecutar_reflejado.
    + intros Hc cs. revert w Hw Hr.
      induction cs as [| c cs IH]; intros w Hw Hr; [exact Hr |].
      cbn [correr fold_left]. apply IH.
      * now apply ejecutar_bien_formado.
      * destruct (ejecutar_reflejado c w Hw Hr) as (H1 & H2). auto.
Qed.

Lemma stringify_length (l l' : list Pelicula) :
  JSON_stringify (map toJSON l) = JSON_stringify (map toJSON l') ->
  length l = length l'.
Proof.
  unfold JSON_stringify. intros [= H].
  apply (f_equal (@length _)) in H. now rewrite !length_map in H.
Qed.

(** X4.  When the storage refuses the write, [agregar] of a record that
    passes [validar] and [eliminar] of an identifier of the collection
    throw the error of [guardarPeliculas] after the collection has
    changed: the record is in the collection, or gone from it, and the
    storage holds what it held.  A storage that was the text of the
    collection no longer is. *)
Theorem almacen_lleno_no_deshace (w : Mundo) :
  alcanzable w ->
  (forall p : Pelicula,
     violadas (ano_actual w) p = [] ->
     cuota (JSON_stringify (map toJSON (items w ++ [p]))) = false ->
     let w' := snd (agregar p w) in
     fst (agregar p w) = Lanza (Error msg_no_guardadas)
     /\ items w' = items w ++ [p]
     /\ almacen w' = almacen w
     /\ (reflejado w -> ~ reflejado w'))
  /\ (forall ident : cadena,
        In ident (ids (items w)) ->
        let w' := snd (eliminar ident w) in
        cuota (JSON_stringify (map toJSON (items w'))) = false ->
        fst (eliminar ident w) = Lanza (Error msg_no_guardadas)
        /\ S (length (items w')) = length (items w)
        /\ almacen w' = almacen w
        /\ (reflejado w -> ~ reflejado w')).
Proof.
  intros Hw. apply alcanzable_bien_formado in Hw.
  destruct Hw as (r & l & Hg & _).
  rewrite (gestor_en_items _ _ _ Hg). split.
  - intros p Hv Hc w'.
    destruct (agregar_valida p w r l Hg Hv) as (Hrun & Hg'). fold w' in Hg'.
    assert (Hit : items w' = l ++ [p]) by exact (gestor_en_items _ _ _ Hg').
    assert (Hal : almacen w' = almacen w).
    { unfold w'. rewrite Hrun, y_devolver_mundo, guardada_almacen by exact Hc.
      cbn. unfold tras_validar. destruct (lee_reloj p); reflexivity. }
    split; [| split; [exact Hit | split; [exact Hal |]]].
    + rewrite Hrun.
      pose proof (guardada_campos (l ++ [p])
                    (con_elementos r (l ++ [p]) (tras_validar p w)))
        as (_ & _ & Hno).
      cbv zeta in Hno. destruct (Hno Hc) as (Hf & _).
      now apply y_devolver_resultado.
    + unfold reflejado. rewrite Hal, Hit, (gestor_en_items _ _ _ Hg).
      intros H1 H2. rewrite H1 in H2. injection H2 as H2.
      apply (f_equal (@length _)) in H2.
      rewrite !length_map, length_app in H2. cbn in H2. lia.
  - intros ident Hin w' Hc.
    pose proof (eliminar_items ident w r l Hg) as H.
    apply find_id_presente in Hin. destruct Hin as (p & Hp). rewrite Hp in H.
    destruct H as (n & Hn & _ & _ & Hrun & Hg'). fold w' in Hg'.
    assert (Hit : items w' = delete n l) by exact (gestor_en_items _ _ _ Hg').
    rewrite Hit in Hc.
    assert (Hal : almacen w' = almacen w).
    { unfold w'. rewrite Hrun, y_devolver_mundo, guardada_almacen by exact Hc.
      reflexivity. }
    assert (Hlen : S (length (delete n l)) = length l).
    { rewrite length_delete by (rewrite Hn; eauto).
      apply lookup_lt_Some in Hn. lia. }
    split; [| split; [now rewrite Hit | split; [exact Hal |]]].
    + rewrite Hrun.
      pose proof (guardada_campos (delete n l) (con_elementos r (delete n l) w))
        as (_ & _ & Hno).
      cbv zeta in Hno. destruct (Hno Hc) as (Hf & _).
      now apply y_devolver_resultado.
    + unfold reflejado. rewrite Hal, Hit, (gestor_en_items _ _ _ Hg).
      intros H1 H2. rewrite H1 in H2. injection H2 as H2.
      apply (f_equal (@length _)) in H2. rewrite !length_map in H2. lia.
Qed.

End Espejo.

(* ===================================================================== *)
(** * Loading again *)
(* ===================================================================== *)

Section Recarga.

Context {P : Plataforma} {E : Entorno}.

Lemma corresponde_propio (p' p : Pelicula) :
  corresponde p' (json_plano (toJSON p)) -> sobrevive p -> id p <> [] ->
  p' = p.
Proof.
  unfold corresponde, sobrevive. cbn.
  intros (H1 & H2 & H3 & H4 & H5 & H6 & H7 & H8 & H9 & _) (Ha & Hc) Hid.
  specialize (H9 Hid). rewrite Ha in H4. rewrite Hc in H5.
  destruct p', p; cbn in *. congruence.
Qed.

Lemma corresponde_propios (l' l : list Pelicula) :
  Forall2 corresponde l' (map json_plano (map toJSON l)) ->
  Forall sobrevive l -> Forall (fun p => id p <> []) l ->
  l' = l.
Proof.
  revert l'. induction l as [| p l IH]; intros l' H Hs Hi; cbn in H.
  - now inversion H.
  - inversion H as [| p' reg l0 regs Hp Hl]; subst.
    inversion Hs; inversion Hi; subst.
    f_equal; [now apply corresponde_propio | now apply IH].
Qed.

(** X5.  In a reachable world where the storage holds the text of the
    collection and the Numbers of every record come back from JSON as
    they went, a new manager constructed from the storage holds the same
    collection, record for record and in the same order, identifiers and
    creation dates included; the constructor writes nothing. *)
Theorem recargar_devuelve_la_coleccion (w : Mundo) :
  alcanzable w ->
  reflejado w ->
  Forall sobrevive (items w) ->
  exists w' : Mundo,
    PeliculaManager_new w = (Normal tt, w')
    /\ items w' = items w
    /\ almacen w' = almacen w
    /\ escrituras w' = escrituras w
    /\ reflejado w'.
Proof.
  intros Hw Hr Hs. apply alcanzable_bien_formado in Hw.
  destruct Hw as (r & l & Hg & Hids).
  unfold reflejado in *. rewrite (gestor_en_items _ _ _ Hg) in *.
  rewrite PeliculaManager_new_ok.
  set (w0 := con_this_peliculas None w).
  assert (Ha : almacen w0 = Some (JSONArreglo (map json_plano (map toJSON l))))
    by exact Hr.
  destruct (cargarPeliculas_arreglo _ w0 Ha) as (l' & w1 & Hrun & Hw1 & Hcor).
  rewrite Hrun. eexists. split; [reflexivity |].
  apply corresponde_propios in Hcor; [| exact Hs | exact Hids]. subst l'.
  assert (Hit : items (con_this_peliculas (Some (siguiente w1)) (con_arreglo l w1)) = l).
  { apply (gestor_en_items _ (siguiente w1)).
    unfold gestor_en. cbn. repeat split; [apply lookup_insert_eq | lia]. }
  rewrite Hit. destruct Hw1 as (_ & _ & _ & Hal & Hes & _).
  split; [reflexivity |]. cbn.
  rewrite Hal, Hes. repeat split; exact Hr.
Qed.

(** X6.  When the storage refuses the default set, the constructor of
    the manager throws the error of [guardarPeliculas] and the storage
    keeps what it held.  With an unreadable text in the storage the set
    was built and offered once; with no text, or the empty one, the
    [catch] of [cargarPeliculas] builds a second set, with identifiers
    and dates of its own, and offers it: if the storage takes that one,
    the constructor returns with it as the collection. *)
Theorem constructor_con_almacen_lleno (w : Mundo) :
  let c1 := JSON_stringify (map toJSON (peliculasIniciales_en w)) in
  let c2 := JSON_stringify (map toJSON (segundas_iniciales_en w)) in
  let w' := snd (PeliculaManager_new w) in
  cuota c1 = false ->
  (almacen w = Some NoJSON ->
   fst (PeliculaManager_new w) = Lanza (Error msg_no_guardadas)
   /\ escrituras w' = escrituras w ++ [c1]
   /\ almacen w' = almacen w)
  /\ (almacen w = None \/ almacen w = Some CadenaVacia ->
      escrituras w' = escrituras w ++ [c1; c2]
      /\ (cuota c2 = false ->
          fst (PeliculaManager_new w) = Lanza (Error msg_no_guardadas)
          /\ almacen w' = almacen w)
      /\ (cuota c2 = true ->
          fst (PeliculaManager_new w) = Normal tt
          /\ items w' = segundas_iniciales_en w
          /\ almacen w' = Some c2)).
Proof.
  intros c1 c2 w' Hc1. unfold w'. rewrite PeliculaManager_new_ok.
  set (w0 := con_this_peliculas None w).
  assert (H1 : obtenerPeliculasIniciales w0
               = (Lanza (Error msg_no_guardadas), con_escritura c1 (con_iniciales w0))).
  { rewrite obtenerPeliculasIniciales_ok. unfold guardada.
    change (peliculasIniciales_en w0) with (peliculasIniciales_en w).
    fold c1. now rewrite Hc1. }
  split.
  - intros Ha. rewrite cargarPeliculas_ilegible by exact Ha.
    rewrite H1. cbn. auto.
  - intros Ha. rewrite cargarPeliculas_ausente by exact Ha. rewrite H1.
    set (w1 := con_escritura c1 (con_iniciales w0)).
    rewrite obtenerPeliculasIniciales_ok. unfold guardada.
    change (peliculasIniciales_en w1) with (segundas_iniciales_en w).
    fold c2.
    destruct (cuota c2); cbn [y_devolver fst snd].
    + split; [cbn; now rewrite <- app_assoc |].
      split; [discriminate |]. intros _.
      split; [reflexivity |]. split; [| reflexivity].
      apply (gestor_en_items _ (siguiente w1)).
      pose proof (gestor_en_con_iniciales w1) as (_ & Hl & Hr).
      repeat split; assumption.
    + split; [cbn; now rewrite <- app_assoc |].
      split; [| discriminate]. intros _. split; reflexivity.
Qed.

End Recarga.

(* ===================================================================== *)
(** * Counts that are not positive *)
(* ===================================================================== *)

Section Cantidades.

Context {P : Plataforma} {E : Entorno}.

(** X7.  In every reachable world, [obtenerRecientes(0)] returns an
    empty array, and [obtenerRecientes(-k)] returns the records sorted
    by creation date, latest first, without the last [k] of them: the
    end of [slice] counts from the end of the array. *)
Theorem obtenerRecientes_con_cantidad_no_positiva (w : Mundo) (k : nat) :
  alcanzable w ->
  let s := ordenar cmp_recientes (items w) in
  elementos (obtenerRecientes (Some 0)) w = Some []
  /\ ((0 < k)%nat ->
      elementos (obtenerRecientes (Some (- Z.of_nat k))) w
      = Some (take (length (items w) - k) s)).
Proof.
  intros Hw s. apply alcanzable_bien_formado in Hw.
  destruct Hw as (r & l & Hg & _).
  unfold s. rewrite (gestor_en_items _ _ _ Hg). split.
  - rewrite (devuelve_arreglo_elementos _ _ _
               (obtenerRecientes_devuelve (Some 0) w r l Hg)).
    unfold slice0. change (0 <? 0) with false. cbv iota.
    now rewrite Z.min_l by lia.
  - intros Hk.
    rewrite (devuelve_arreglo_elementos _ _ _
               (obtenerRecientes_devuelve (Some (- Z.of_nat k)) w r l Hg)).
    unfold slice0. rewrite ordenar_length.
    assert (H : (- Z.of_nat k <? 0) = true) by (apply Z.ltb_lt; lia).
    rewrite H. do 2 f_equal. lia.
Qed.

End Cantidades.

(* ===================================================================== *)
(** * Generated identifiers *)
(* ===================================================================== *)

Section Identificadores.

Context {P : Plataforma} {E : Entorno}.

(** ** The text of a clock reading *)

Lemma bytes_de_iny (s t : string) : bytes_de s = bytes_de t -> s = t.
Proof.
  revert t. induction s as [| a s IH]; intros [| b t]; cbn; try discriminate;
    [reflexivity |].
  intros [= Hab Hst]. f_equal; [| now apply IH].
  rewrite <- (ascii_N_embedding a), <- (ascii_N_embedding b). now f_equal.
Qed.

Lemma string_of_int_iny (z z' : Z) :
  NilZero.string_of_int (Z.to_int z) = NilZero.string_of_int (Z.to_int z') ->
  z = z'.
Proof.
  intros H. apply DecimalZ.to_int_inj.
  assert (Hn : forall y : Z,
    Z.to_int y <> Decimal.Pos Decimal.Nil /\ Z.to_int y <> Decimal.Neg Decimal.Nil).
  { intros [| p | p]; cbn; split; try discriminate;
      intros [= Hp]; now apply DecimalPos.Unsigned.to_uint_nonnil in Hp. }
  destruct (Hn z) as (H1 & H2), (Hn z') as (H3 & H4).
  pose proof (NilZero.isi _ H1 H2) as Hz.
  pose proof (NilZero.isi _ H3 H4) as Hz'.
  rewrite H in Hz. congruence.
Qed.

Lemma decimal_iny (z z' : Z) : decimal z = decimal z' -> z = z'.
Proof. intros H. now apply string_of_int_iny, bytes_de_iny. Qed.

Lemma uint_sin_guion_bajo (d : Decimal.uint) :
  ~ In 95%N (bytes_de (NilEmpty.string_of_uint d)).
Proof.
  induction d; cbn; [tauto | ..]; intros [H | H]; try discriminate; auto.
Qed.

Lemma decimal_sin_guion_bajo (z : Z) : ~ In 95%N (decimal z).
Proof.
  unfold decimal, NilZero.string_of_int, NilZero.string_of_uint.
  destruct (Z.to_int z) as [d | d]; destruct d; cbn;
    intros H; repeat (destruct H as [H | H]; try discriminate);
    try contradiction;
    eapply uint_sin_guion_bajo; exact H.
Qed.

(** Two texts cut at their first underscore. *)
Lemma cortar_en_guion_bajo (a b r s : cadena) :
  ~ In 95%N a -> ~ In 95%N b ->
  a ++ 95%N :: r = b ++ 95%N :: s -> a = b /\ r = s.
Proof.
  revert b. induction a as [| x a IH]; intros [| y b] Ha Hb; cbn.
  - intros [= ->]. auto.
  - intros [= <- _]. exfalso. apply Hb. now left.
  - intros [= -> _]. exfalso. apply Ha. now left.
  - intros [= -> H]. destruct (IH b) as (-> & ->); auto.
    + intros Hin. apply Ha. now right.
    + intros Hin. apply Hb. now right.
Qed.

(** An identifier tells the clock reading and the random text it was
    made of. *)
Lemma id_generado_iny (n k n' k' : nat) :
  id_generado n k = id_generado n' k'
  <-> reloj n = reloj n' /\ azar k = azar k'.
Proof.
  unfold id_generado. split.
  - intros H. apply app_inv_head in H.
    change (js "_") with [95%N] in H. cbn [app] in H.
    apply cortar_en_guion_bajo in H; try apply decimal_sin_guion_bajo.
    destruct H as (Hd & Hr). split; [now apply decimal_iny | exact Hr].
  - intros (-> & ->). reflexivity.
Qed.

(** X8.  [generarID] puts the clock reading and the random text into
    the identifier so that both can be read back: called in two worlds,
    it returns the same identifier exactly when the clock reads the same
    instant and the random generator gives the same text in both. *)
Theorem generarID_repite_solo_si_todo_se_repite (w w' : Mundo) :
  fst (generarID w) = fst (generarID w')
  <-> reloj (lecturas_reloj w) = reloj (lecturas_reloj w')
      /\ azar (lecturas_azar w) = azar (lecturas_azar w').
Proof.
  change (fst (generarID w))
    with (Normal (A := cadena) (id_generado (lecturas_reloj w) (lecturas_azar w))).
  change (fst (generarID w'))
    with (Normal (A := cadena) (id_generado (lecturas_reloj w') (lecturas_azar w'))).
  rewrite <- id_generado_iny. split; [| intros H; now rewrite H].
  intros H.
  exact (f_equal (fun o => match o with Normal a => a | Lanza _ => [] end) H).
Qed.

(** ** Lists of generated identifiers *)

Lemma generados_mono (n k n' k' : nat) (l : list cadena) :
  generados n k l -> (n <= n')%nat -> (k <= k')%nat -> generados n' k' l.
Proof.
  intros (idx & Hl & H1 & H2 & H3) Hn Hk. exists idx.
  repeat split; auto. eapply Forall_impl; [exact H3 |].
  cbn. intros x. lia.
Qed.

Lemma generados_nil (n k : nat) : generados n k [].
Proof. exists []. cbn. repeat split; constructor. Qed.

Lemma Forall_menor_no_In (f : nat * nat -> nat) (n : nat) (idx : list (nat * nat)) :
  Forall (fun x => (f x < n)%nat) idx -> ~ In n (map f idx).
Proof.
  intros H Hin. apply in_map_iff in Hin. destruct Hin as (x & Hx & Hin).
  rewrite Forall_forall in H.
  apply list_elem_of_In in Hin. specialize (H x Hin). lia.
Qed.

Lemma generados_app (n k : nat) (l : list cadena) :
  generados n k l -> generados (S n) (S k) (l ++ [id_generado n k]).
Proof.
  intros (idx & Hl & H1 & H2 & H3). exists (idx ++ [(n, k)]).
  rewrite !map_app. cbn [map fst snd]. subst l.
  split; [reflexivity |]. split; [| split].
  - apply NoDup_app. split; [exact H1 |]. split; [| apply NoDup_singleton].
    intros x Hx Hx'. apply list_elem_of_In in Hx. apply list_elem_of_In in Hx'.
    cbn in Hx'. destruct Hx' as [<- | []].
    revert Hx. apply Forall_menor_no_In.
    eapply Forall_impl; [exact H3 |]. cbn. tauto.
  - apply NoDup_app. split; [exact H2 |]. split; [| apply NoDup_singleton].
    intros x Hx Hx'. apply list_elem_of_In in Hx. apply list_elem_of_In in Hx'.
    cbn in Hx'. destruct Hx' as [<- | []].
    revert Hx. apply Forall_menor_no_In.
    eapply Forall_impl; [exact H3 |]. cbn. tauto.
  - apply Forall_app. split.
    + eapply Forall_impl; [exact H3 |]. cbn. intros x. lia.
    + constructor; [cbn; lia | constructor].
Qed.

Lemma generados_delete (i n k : nat) (l : list cadena) :
  generados n k l -> generados n k (delete i l).
Proof.
  intros (idx & Hl & H1 & H2 & H3). exists (delete i idx). subst l.
  split; [| split; [| split]].
  - revert i. induction idx as [| x idx IH]; intros [| i]; cbn; auto.
    f_equal. apply IH.
    + now inversion H1.
    + now inversion H2.
    + now inversion H3.
  - eapply sublist_NoDup; [exact H1 |].
    change (map fst (delete i idx)) with (fst <$> delete i idx).
    rewrite list_fmap_delete. apply sublist_delete.
  - eapply sublist_NoDup; [exact H2 |].
    change (map snd (delete i idx)) with (snd <$> delete i idx).
    rewrite list_fmap_delete. apply sublist_delete.
  - revert i. clear H1 H2.
    induction H3 as [| x idx Hx H3 IH]; intros [| i]; cbn; auto.
Qed.

Lemma generados_no_vacios (n k : nat) (l : list cadena) :
  generados n k l -> Forall (fun i => i <> []) l.
Proof.
  intros (idx & -> & _). apply Forall_forall. intros i Hi.
  apply list_elem_of_In, in_map_iff in Hi. destruct Hi as (x & <- & _).
  apply id_generado_no_vacio.
Qed.

Lemma iniciales_generados (n k : nat) (ss : list Semilla) :
  exists idx : list (nat * nat),
    ids (iniciales_desde n k ss) = map (fun x => id_generado (fst x) (snd x)) idx
    /\ NoDup (map fst idx) /\ NoDup (map snd idx)
    /\ Forall (fun x => (n <= fst x < n + 2 * length ss)%nat
                        /\ (k <= snd x < k + length ss)%nat) idx.
Proof.
  revert n k. induction ss as [| s ss IH]; intros n k.
  - exists []. cbn. repeat split; constructor.
  - destruct (IH (S (S n)) (S k)) as (idx & Hl & H1 & H2 & H3).
    exists ((n, k) :: idx). cbn [iniciales_desde ids map fst snd length].
    split; [f_equal; exact Hl |]. split; [| split].
    + apply NoDup_cons. split; [| exact H1].
      intros Hin. apply list_elem_of_In, in_map_iff in Hin.
      destruct Hin as (x & Hx & Hin). rewrite Forall_forall in H3.
      apply list_elem_of_In in Hin. specialize (H3 x Hin). lia.
    + apply NoDup_cons. split; [| exact H2].
      intros Hin. apply list_elem_of_In, in_map_iff in Hin.
      destruct Hin as (x & Hx & Hin). rewrite Forall_forall in H3.
      apply list_elem_of_In in Hin. specialize (H3 x Hin). lia.
    + constructor; [cbn; lia |].
      eapply Forall_impl; [exact H3 |]. cbn. intros x. lia.
Qed.

(** The default set brings new identifiers only. *)
Lemma generados_iniciales (w : Mundo) :
  generados (lecturas_reloj w + 16) (lecturas_azar w + 8)
    (ids (peliculasIniciales_en w)).
Proof.
  destruct (iniciales_generados (lecturas_reloj w) (lecturas_azar w) semillas)
    as (idx & Hl & H1 & H2 & H3).
  exists idx. split; [exact Hl |]. split; [exact H1 |]. split; [exact H2 |].
  eapply Forall_impl; [exact H3 |]. cbn.
  change (length semillas) with 8%nat. intros x. lia.
Qed.

Lemma lookup_map_par (idx : list (nat * nat)) (f : nat * nat -> nat) (i : nat)
    (x : nat * nat) :
  idx !! i = Some x -> map f idx !! i = Some (f x).
Proof.
  intros H. change (map f idx) with (f <$> idx).
  now rewrite list_lookup_fmap, H.
Qed.

(** Generated identifiers are distinct as soon as the clock, or the
    random generator, never gives the same value twice. *)
Lemma generados_NoDup (n k : nat) (l : list cadena) :
  (forall a b : nat, reloj a = reloj b -> a = b)
  \/ (forall a b : nat, azar a = azar b -> a = b) ->
  generados n k l -> NoDup l.
Proof.
  intros Hiny (idx & -> & H1 & H2 & _).
  change (map (fun x => id_generado (fst x) (snd x)) idx)
    with ((fun x => id_generado (fst x) (snd x)) <$> idx).
  apply NoDup_fmap_2_strong.
  - intros x y Hx Hy Hxy. apply id_generado_iny in Hxy.
    destruct Hxy as (Hr & Ha).
    apply list_elem_of_lookup in Hx. destruct Hx as (i & Hi).
    apply list_elem_of_lookup in Hy. destruct Hy as (j & Hj).
    assert (Hij : i = j).
    { destruct Hiny as [Hin | Hin].
      - apply Hin in Hr.
        eapply (NoDup_lookup (map fst idx)); [exact H1 | |].
        + apply lookup_map_par. exact Hi.
        + rewrite Hr. apply lookup_map_par. exact Hj.
      - apply Hin in Ha.
        eapply (NoDup_lookup (map snd idx)); [exact H2 | |].
        + apply lookup_map_par. exact Hi.
        + rewrite Ha. apply lookup_map_par. exact Hj. }
    subst j. congruence.
  - clear H2. induction idx as [| x idx IH]; [constructor |].
    cbn in H1. apply NoDup_cons in H1. destruct H1 as (Hx & H1).
    apply NoDup_cons. split; [| now apply IH].
    intros Hin. apply Hx. apply list_elem_of_In, in_map_iff.
    exists x. split; [reflexivity |]. now apply list_elem_of_In.
Qed.

End Identificadores.

(* ===================================================================== *)
(** * Identifiers over the visits of the page *)
(* ===================================================================== *)

Section Historias.

Context {P : Plataforma} {E : Entorno}.

Lemma ids_guardados_stringify (l : list Pelicula) :
  ids_guardados (Some (JSON_stringify (map toJSON l))) = ids l.
Proof. cbn. unfold ids. now rewrite !map_map. Qed.

Lemma guardada_efecto (l : list Pelicula) (w : Mundo) :
  let w' := snd (guardada l w) in
  (almacen w' = almacen w \/ almacen w' = Some (JSON_stringify (map toJSON l)))
  /\ lecturas_reloj w' = lecturas_reloj w
  /\ lecturas_azar w' = lecturas_azar w.
Proof. unfold guardada. destruct (cuota _); cbn; auto. Qed.

Lemma tras_validar_efecto (p : Pelicula) (w : Mundo) :
  almacen (tras_validar p w) = almacen w
  /\ (lecturas_reloj w <= lecturas_reloj (tras_validar p w))%nat
  /\ lecturas_azar (tras_validar p w) = lecturas_azar w.
Proof. unfold tras_validar. destruct (lee_reloj p); cbn; repeat split; lia. Qed.

Lemma ids_no_vacios (l : list Pelicula) :
  Forall (fun i => i <> []) (ids l) -> Forall (fun p => id p <> []) l.
Proof. unfold ids. now rewrite Forall_map. Qed.

Lemma ids_insert_mismo (l : list Pelicula) (n : nat) (p q : Pelicula) :
  l !! n = Some p -> id q = id p -> ids (<[n := q]> l) = ids l.
Proof.
  revert n. induction l as [| x l IH]; intros [| n]; cbn; try discriminate.
  - intros [= ->] Hq. now rewrite Hq.
  - intros Hn Hq. f_equal. now apply IH.
Qed.

Lemma ids_delete (l : list Pelicula) (n : nat) :
  ids (delete n l) = delete n (ids l).
Proof.
  revert n. induction l as [| x l IH]; intros [| n]; cbn; auto.
  f_equal. apply IH.
Qed.

(** What a step must show for the identifiers to stay generated. *)
Lemma paso_generados (w w' : Mundo) (r : ref) (l' : list Pelicula) :
  generados (lecturas_reloj w) (lecturas_azar w) (ids_guardados (almacen w)) ->
  generados (lecturas_reloj w') (lecturas_azar w') (ids l') ->
  (lecturas_reloj w <= lecturas_reloj w')%nat ->
  (lecturas_azar w <= lecturas_azar w')%nat ->
  gestor_en w' r l' ->
  almacen w' = almacen w \/ almacen w' = Some (JSON_stringify (map toJSON l')) ->
  identificadores_generados (w', true).
Proof.
  intros Hs Hl Hn Hk Hg Ha. unfold identificadores_generados. cbn [fst snd].
  rewrite (gestor_en_items _ _ _ Hg).
  split; [exact Hl |]. split.
  - destruct Ha as [-> | ->].
    + eapply generados_mono; eauto.
    + now rewrite ids_guardados_stringify.
  - intros _. exists r, l'. split; [exact Hg |].
    eapply ids_no_vacios, generados_no_vacios; eauto.
Qed.

Lemma ejecutar_generados (c : llamada) (w : Mundo) :
  sin_id_propio c = true ->
  identificadores_generados (w, true) ->
  identificadores_generados (snd (ejecutar c w), true).
Proof.
  intros Hc (Hl & Hs & Hbf). cbn [fst snd] in *.
  destruct (Hbf eq_refl) as (r & l & Hg & Hids).
  rewrite (gestor_en_items _ _ _ Hg) in Hl.
  destruct c as [a | ident datos | ident | q]; cbn [ejecutar].
  - assert (Hsin : a_id a = None \/ a_id a = Some []).
    { cbn in Hc. destruct (a_id a) as [[| x s] |]; auto. discriminate. }
    unfold construir.
    rewrite (ligar_normal _ _ _ _ _
               (Pelicula_new_sin_id _ _ _ _ _ _ _ (a_id a) w Hsin)).
    rewrite snd_ligar_devolver.
    set (p := {| id := id_generado (lecturas_reloj w) (lecturas_azar w) |}).
    set (w1 := con_lectura_reloj (con_lectura_azar (con_lectura_reloj w))).
    assert (Hg1 : gestor_en w1 r l) by exact Hg.
    pose proof (agregar_items p w1 r l Hg1) as Hg2.
    assert (Hef : (almacen (snd (agregar p w1)) = almacen w
                   \/ almacen (snd (agregar p w1))
                      = Some (JSON_stringify
                                (map toJSON
                                   (if bool_decide (violadas (ano_actual w1) p = [])
                                    then l ++ [p] else l))))
                  /\ (S (S (lecturas_reloj w)) <= lecturas_reloj (snd (agregar p w1)))%nat
                  /\ lecturas_azar (snd (agregar p w1)) = S (lecturas_azar w)).
    { rewrite (agregar_ok p w1 r l Hg1).
      destruct (tras_validar_efecto p w1) as (T1 & T2 & T3).
      destruct (bool_decide _).
      - rewrite y_devolver_mundo.
        destruct (guardada_efecto (l ++ [p])
                    (con_elementos r (l ++ [p]) (tras_validar p w1)))
          as (G1 & G2 & G3).
        cbv zeta in G1, G2, G3. rewrite G2, G3. cbn [snd].
        split; [| split; [exact T2 | exact T3]].
        destruct G1 as [G1 | G1]; [left | right; exact G1].
        rewrite G1. exact T1.
      - cbn [snd]. split; [left; exact T1 | split; [exact T2 | exact T3]]. }
    destruct Hef as (Ha & Hn & Hk).
    eapply (paso_generados w (snd (agregar p w1)));
      [exact Hs | | lia | lia | exact Hg2 | exact Ha].
    destruct (bool_decide _).
    + unfold ids. rewrite map_app. cbn [map id p].
      eapply generados_mono; [apply generados_app; exact Hl | lia | lia].
    + eapply generados_mono; [exact Hl | lia | lia].
  - rewrite snd_ligar_devolver.
    pose proof (actualizar_items ident datos w r l Hg Hids) as H.
    destruct (find_ _ l) as [original |].
    + cbv zeta in H. destruct H as (n & Hn & Hp & _ & Hrun & Hg2).
      set (q := actualizada ident datos original) in *.
      set (w1 := con_lectura_reloj w) in *.
      assert (Hef : (almacen (snd (actualizar ident datos w)) = almacen w
                     \/ almacen (snd (actualizar ident datos w))
                        = Some (JSON_stringify
                                  (map toJSON
                                     (if bool_decide (violadas (ano_actual w1) q = [])
                                      then <[n := q]> l else l))))
                    /\ (lecturas_reloj w <= lecturas_reloj (snd (actualizar ident datos w)))%nat
                    /\ lecturas_azar (snd (actualizar ident datos w)) = lecturas_azar w).
      { rewrite Hrun.
        destruct (tras_validar_efecto q w1) as (T1 & T2 & T3).
        destruct (bool_decide _).
        - rewrite y_devolver_mundo.
          destruct (guardada_efecto (<[n := q]> l)
                      (con_elementos r (<[n := q]> l) (tras_validar q w1)))
            as (G1 & G2 & G3).
          cbv zeta in G1, G2, G3. rewrite G2, G3. cbn [snd].
          split; [| split; [cbn in T2 |- *; lia | exact T3]].
          destruct G1 as [G1 | G1]; [left | right; exact G1].
          rewrite G1. exact T1.
        - cbn [snd].
          split; [left; exact T1 | split; [cbn in T2 |- *; lia | exact T3]]. }
      destruct Hef as (Ha & Hn' & Hk).
      eapply (paso_generados w (snd (actualizar ident datos w)));
        [exact Hs | | lia | lia | exact Hg2 | exact Ha].
      assert (Hi : ids (if bool_decide (violadas (ano_actual w1) q = [])
                        then <[n := q]> l else l) = ids l).
      { destruct (bool_decide _); [| reflexivity].
        apply (ids_insert_mismo l n original q Hn). cbn. now rewrite Hp. }
      rewrite Hi. eapply generados_mono; [exact Hl | lia | lia].
    + rewrite H. cbn [snd]. unfold identificadores_generados. cbn [fst snd].
      rewrite (gestor_en_items _ _ _ Hg). auto.
  - rewrite snd_ligar_devolver.
    pose proof (eliminar_items ident w r l Hg) as H.
    destruct (find_ _ l) as [p |].
    + destruct H as (n & _ & _ & _ & Hrun & Hg2).
      destruct (guardada_efecto (delete n l) (con_elementos r (delete n l) w))
        as (G1 & G2 & G3).
      cbv zeta in G1, G2, G3.
      rewrite <- (y_devolver_mundo _ (aceptada msg_eliminada None)), <- Hrun
        in G1, G2, G3.
      cbn [lecturas_reloj lecturas_azar almacen con_elementos con_monton]
        in G1, G2, G3.
      eapply (paso_generados w (snd (eliminar ident w)));
        [exact Hs | | lia | lia | exact Hg2 | exact G1].
      rewrite ids_delete, G2, G3. now apply generados_delete.
    + rewrite H. cbn [snd]. unfold identificadores_generados. cbn [fst snd].
      rewrite (gestor_en_items _ _ _ Hg). auto.
  - rewrite snd_ligar_devolver.
    destruct (consultar_amplia q w r l Hg) as (v & w' & Hrun & Ha & _).
    rewrite Hrun. cbn [snd].
    pose proof (amplia_gestor_en _ _ _ _ Ha Hg) as Hg'.
    destruct Ha as (_ & Hal & _ & Hn & Hk & _).
    eapply (paso_generados w w'); [exact Hs | | lia | lia | exact Hg' | left; exact Hal].
    now rewrite Hn, Hk.
Qed.

(** ** The constructor *)

Lemma corresponde_ids_iguales (l : list Pelicula) (regs : list Registro) :
  Forall2 corresponde l regs ->
  Forall (fun i => i <> []) (map r_id regs) ->
  ids l = map r_id regs.
Proof.
  induction 1 as [| p reg l regs Hc _ IH]; cbn; [reflexivity |].
  intros H. inversion H as [| ? ? Hr Hrs]; subst.
  unfold corresponde in Hc.
  destruct Hc as (_ & _ & _ & _ & _ & _ & _ & _ & Hid & _).
  f_equal; [now apply Hid | now apply IH].
Qed.

(** The world that [obtenerPeliculasIniciales] leaves, whether or not
    the storage took the default set. *)
Lemma sembrar_generados (w : Mundo) :
  generados (lecturas_reloj w) (lecturas_azar w) (ids_guardados (almacen w)) ->
  let x := obtenerPeliculasIniciales w in
  let w' := snd x in
  generados (lecturas_reloj w') (lecturas_azar w') (ids (items w'))
  /\ generados (lecturas_reloj w') (lecturas_azar w') (ids_guardados (almacen w'))
  /\ forall r : ref,
       fst x = Normal r -> con_this_peliculas (Some r) w' = w'.
Proof.
  intros Hs x w'. unfold w', x. rewrite obtenerPeliculasIniciales_ok.
  rewrite y_devolver_mundo.
  pose proof (gestor_en_con_iniciales w) as Hg.
  pose proof (guardada_gestor_en (peliculasIniciales_en w) _ _ _ Hg) as Hg'.
  destruct (guardada_efecto (peliculasIniciales_en w) (con_iniciales w))
    as (G1 & G2 & G3).
  cbv zeta in G1, G2, G3.
  rewrite (gestor_en_items _ _ _ Hg'), G2, G3.
  change (lecturas_reloj (con_iniciales w)) with (lecturas_reloj w + 16)%nat.
  change (lecturas_azar (con_iniciales w)) with (lecturas_azar w + 8)%nat.
  split; [apply generados_iniciales |]. split.
  - destruct G1 as [-> | ->].
    + change (almacen (con_iniciales w)) with (almacen w).
      eapply generados_mono; [exact Hs | lia | lia].
    + rewrite ids_guardados_stringify. apply generados_iniciales.
  - intros r Hr.
    assert (Hrs : r = siguiente w).
    { destruct (guardada _ _) as [[[] | e] w2]; cbn in Hr; congruence. }
    subst r. destruct Hg' as (Ht & _).
    destruct (snd (guardada _ _)) as [m s t a es lr la]. cbn in Ht |- *.
    now rewrite Ht.
Qed.

Lemma visitar_generados (w : Mundo) :
  generados (lecturas_reloj w) (lecturas_azar w) (ids_guardados (almacen w)) ->
  let x := PeliculaManager_new w in
  let w' := snd x in
  generados (lecturas_reloj w') (lecturas_azar w') (ids (items w'))
  /\ generados (lecturas_reloj w') (lecturas_azar w') (ids_guardados (almacen w')).
Proof.
  intros Hs x w'. unfold w', x. rewrite PeliculaManager_new_ok.
  set (w0 := con_this_peliculas None w).
  assert (Hs0 : generados (lecturas_reloj w0) (lecturas_azar w0)
                  (ids_guardados (almacen w0))) by exact Hs.
  assert (Hseed : forall w1 : Mundo,
    generados (lecturas_reloj w1) (lecturas_azar w1) (ids_guardados (almacen w1)) ->
    let y := match obtenerPeliculasIniciales w1 with
             | (Normal r, w2) => (Normal tt, con_this_peliculas (Some r) w2)
             | (Lanza e, w2) => (Lanza e, w2)
             end in
    generados (lecturas_reloj (snd y)) (lecturas_azar (snd y)) (ids (items (snd y)))
    /\ generados (lecturas_reloj (snd y)) (lecturas_azar (snd y))
         (ids_guardados (almacen (snd y)))).
  { intros w1 Hs1. destruct (sembrar_generados w1 Hs1) as (H1 & H2 & H4).
    cbv zeta in H1, H2, H4.
    destruct (obtenerPeliculasIniciales w1) as [[r | e] w2]; cbn [fst snd] in *.
    - rewrite (H4 r eq_refl). auto.
    - auto. }
  destruct (almacen w) as [[| | regs] |] eqn:Ha.
  - rewrite cargarPeliculas_ausente by (right; exact Ha).
    destruct (obtenerPeliculasIniciales w0) as [[r | e] w1] eqn:H1.
    + specialize (Hseed w0 Hs0). cbv zeta in Hseed. now rewrite H1 in Hseed.
    + destruct (sembrar_generados w0 Hs0) as (_ & H2 & _).
      cbv zeta in H2. rewrite H1 in H2. cbn [snd] in H2.
      exact (Hseed w1 H2).
  - rewrite cargarPeliculas_ilegible by exact Ha.
    exact (Hseed w0 Hs0).
  - destruct (cargarPeliculas_arreglo regs w0 Ha) as (l & w1 & Hrun & Hw & Hcor).
    rewrite Hrun. cbn [snd].
    assert (Hit : items (con_this_peliculas (Some (siguiente w1)) (con_arreglo l w1)) = l).
    { apply (gestor_en_items _ (siguiente w1)).
      unfold gestor_en. cbn. repeat split; [apply lookup_insert_eq | lia]. }
    rewrite Hit.
    destruct Hw as (_ & _ & _ & Hal & _ & Hn & Hk).
    cbn [lecturas_reloj lecturas_azar almacen con_this_peliculas con_arreglo
         con_siguiente con_monton].
    rewrite Hal. change (almacen w0) with (almacen w). rewrite Ha.
    cbn [ids_guardados] in Hs |- *.
    assert (Hs1 : generados (lecturas_reloj w1) (lecturas_azar w1) (map r_id regs)).
    { eapply generados_mono; [exact Hs | exact Hn | exact Hk]. }
    split; [| exact Hs1].
    rewrite (corresponde_ids_iguales l regs Hcor); [exact Hs1 |].
    eapply generados_no_vacios; eauto.
  - rewrite cargarPeliculas_ausente by (left; exact Ha).
    destruct (obtenerPeliculasIniciales w0) as [[r | e] w1] eqn:H1.
    + specialize (Hseed w0 Hs0). cbv zeta in Hseed. now rewrite H1 in Hseed.
    + destruct (sembrar_generados w0 Hs0) as (_ & H2 & _).
      cbv zeta in H2. rewrite H1 in H2. cbn [snd] in H2.
      exact (Hseed w1 H2).
Qed.

Lemma suceder_generados (e : evento) (x : Mundo * bool) :
  de_la_interfaz e = true ->
  identificadores_generados x -> identificadores_generados (suceder e x).
Proof.
  intros He Hx. destruct e as [| c]; cbn [suceder].
  - destruct Hx as (_ & Hs & _).
    destruct (visitar_generados (fst x) Hs) as (H1 & H2). cbv zeta in H1, H2.
    destruct (PeliculaManager_new (fst x)) as [[[] | e] w'] eqn:Hnew;
      cbn [fst snd] in *; unfold identificadores_generados; cbn [fst snd].
    + split; [exact H1 |]. split; [exact H2 |]. intros _.
      eapply PeliculaManager_new_bien_formado; eauto.
    + split; [exact H1 |]. split; [exact H2 |]. discriminate.
  - destruct x as [w [|]]; cbn [fst snd]; [| exact Hx].
    now apply ejecutar_generados.
Qed.

Lemma historia_generados (es : list evento) (x : Mundo * bool) :
  forallb de_la_interfaz es = true ->
  identificadores_generados x -> identificadores_generados (historia es x).
Proof.
  revert x. induction es as [| e es IH]; intros x Hes Hx; [exact Hx |].
  cbn in Hes. apply andb_true_iff in Hes. destruct Hes as (He & Hes).
  cbn [historia fold_left]. apply IH; [exact Hes |].
  now apply suceder_generados.
Qed.

(** X9.  Start from a world with no manager and no record in the
    storage; load the page and call the manager any number of times, in
    any order, the records to add being constructed without an
    identifier of their own as the form constructs them.  If the clock
    never reads the same instant twice, or the random generator never
    gives the same text twice, then at every moment the identifiers of
    the collection are distinct, and so are those of the records in the
    storage. *)
Theorem identificadores_distintos_desde_la_interfaz
    (w0 : Mundo) (es : list evento) :
  (forall a b : nat, reloj a = reloj b -> a = b)
  \/ (forall a b : nat, azar a = azar b -> a = b) ->
  this_peliculas w0 = None ->
  ids_guardados (almacen w0) = [] ->
  forallb de_la_interfaz es = true ->
  let w := fst (historia es (w0, false)) in
  NoDup (ids (items w)) /\ NoDup (ids_guardados (almacen w)).
Proof.
  intros Hiny Ht Ha Hes w.
  assert (H0 : identificadores_generados (w0, false)).
  { unfold identificadores_generados, items. cbn [fst snd].
    rewrite Ht, Ha. split; [apply generados_nil |].
    split; [apply generados_nil | discriminate]. }
  destruct (historia_generados es _ Hes H0) as (H1 & H2 & _).
  split; eapply generados_NoDup; eauto.
Qed.

End Historias.

(* ===================================================================== *)
(** * Sorting by year *)
(* ===================================================================== *)

(** Insertion under a comparison function that, on the records it is
    given, says [Gt] exactly when the first has the smaller key: the
    outcome has the larger keys first and keeps the records of each key
    in their order, and no other arrangement does both. *)
Section OrdenPorClave.

Variable k : Pelicula -> Z.
Variable Q : Pelicula -> Prop.
Variable cmp : Pelicula -> Pelicula -> comparison.

Hypothesis cmp_Gt :
  forall a b : Pelicula, Q a -> Q b -> (cmp a b = Gt <-> k a < k b).

Lemma insertar_clave_ordenado (x : Pelicula) (l : list Pelicula) :
  Q x -> Forall Q l ->
  StronglySorted (fun a b => k b <= k a) l ->
  StronglySorted (fun a b => k b <= k a) (insertar cmp x l).
Proof.
  intros Hx Hl Hs. induction Hs as [| y l Hs IH Hy]; cbn.
  - repeat constructor.
  - inversion Hl as [| ? ? Qy Ql]; subst.
    pose proof (cmp_Gt x y Hx Qy) as Hc.
    destruct (cmp x y).
    + assert (Hxy : ~ k x < k y) by (rewrite <- Hc; discriminate).
      constructor; [now constructor |].
      constructor; [lia |].
      eapply Forall_impl; [exact Hy |]. cbn. intros z Hz. lia.
    + assert (Hxy : ~ k x < k y) by (rewrite <- Hc; discriminate).
      constructor; [now constructor |].
      constructor; [lia |].
      eapply Forall_impl; [exact Hy |]. cbn. intros z Hz. lia.
    + assert (Hxy : k x < k y) by now apply Hc.
      constructor; [now apply IH |].
      rewrite (insertar_perm cmp x l).
      constructor; [lia | exact Hy].
Qed.

Lemma ordenar_clave_Q (l : list Pelicula) :
  Forall Q l -> Forall Q (ordenar cmp l).
Proof.
  intros H. now rewrite (ordenar_perm cmp l).
Qed.

Lemma ordenar_clave_ordenado (l : list Pelicula) :
  Forall Q l -> StronglySorted (fun a b => k b <= k a) (ordenar cmp l).
Proof.
  induction 1 as [| x l Hx Hl IH]; cbn; [constructor |].
  apply insertar_clave_ordenado; auto. now apply ordenar_clave_Q.
Qed.

Lemma insertar_clave_filtro (t : Z) (x : Pelicula) (l : list Pelicula) :
  Q x -> Forall Q l ->
  List.filter (fun p => k p =? t) (insertar cmp x l)
  = List.filter (fun p => k p =? t) (x :: l).
Proof.
  intros Hx Hl. induction Hl as [| y l Qy Hl IH]; [reflexivity |].
  cbn [insertar]. pose proof (cmp_Gt x y Hx Qy) as Hc.
  destruct (cmp x y); try reflexivity.
  assert (Hxy : k x < k y) by now apply Hc.
  cbn [List.filter] in *. rewrite IH.
  destruct (Z.eqb_spec (k x) t), (Z.eqb_spec (k y) t); try reflexivity.
  lia.
Qed.

Lemma ordenar_clave_filtro (t : Z) (l : list Pelicula) :
  Forall Q l ->
  List.filter (fun p => k p =? t) (ordenar cmp l)
  = List.filter (fun p => k p =? t) l.
Proof.
  induction 1 as [| x l Hx Hl IH]; [reflexivity |].
  cbn [ordenar]. rewrite insertar_clave_filtro; auto using ordenar_clave_Q.
  cbn [List.filter]. now rewrite IH.
Qed.

Lemma filtro_clave_In (t : Z) (x : Pelicula) (l r : list Pelicula) :
  List.filter (fun p => k p =? t) l = x :: r -> In x l.
Proof.
  intros H.
  assert (Hx : In x (List.filter (fun p => k p =? t) l)) by (rewrite H; now left).
  apply filter_In in Hx. tauto.
Qed.

Lemma primero_clave_maxima (x : Pelicula) (l : list Pelicula) (z : Pelicula) :
  StronglySorted (fun a b => k b <= k a) (x :: l) -> In z (x :: l) ->
  k z <= k x.
Proof.
  intros Hs Hz. inversion Hs as [| ? ? _ Hall]; subst.
  destruct Hz as [<- | Hz]; [lia |].
  rewrite Forall_forall in Hall. apply Hall. now apply list_elem_of_In.
Qed.

Lemma orden_por_clave_unico (s1 s2 : list Pelicula) :
  StronglySorted (fun a b => k b <= k a) s1 ->
  StronglySorted (fun a b => k b <= k a) s2 ->
  (forall t : Z,
     List.filter (fun p => k p =? t) s2 = List.filter (fun p => k p =? t) s1) ->
  s2 = s1.
Proof.
  revert s2. induction s1 as [| x s1 IH]; intros s2 H1 H2 Hf.
  - destruct s2 as [| y s2]; [reflexivity |].
    specialize (Hf (k y)). cbn in Hf. rewrite Z.eqb_refl in Hf. discriminate Hf.
  - destruct s2 as [| y s2].
    { specialize (Hf (k x)). cbn in Hf. rewrite Z.eqb_refl in Hf. discriminate Hf. }
    assert (Hxy : k x <= k y).
    { assert (Hx : List.filter (fun p => k p =? k x) (y :: s2)
                   = x :: List.filter (fun p => k p =? k x) s1).
      { rewrite (Hf (k x)). cbn [List.filter]. now rewrite Z.eqb_refl. }
      apply filtro_clave_In in Hx. now apply (primero_clave_maxima y s2 x). }
    assert (Hyx : k y <= k x).
    { assert (Hy : List.filter (fun p => k p =? k y) (x :: s1)
                   = y :: List.filter (fun p => k p =? k y) s2).
      { rewrite <- (Hf (k y)). cbn [List.filter]. now rewrite Z.eqb_refl. }
      apply filtro_clave_In in Hy. now apply (primero_clave_maxima x s1 y). }
    assert (Heq : k y = k x) by lia.
    pose proof (Hf (k x)) as Hx. cbn [List.filter] in Hx.
    rewrite Heq, Z.eqb_refl in Hx. injection Hx as Hhead Htail.
    subst y. f_equal.
    apply IH.
    + now inversion H1.
    + now inversion H2.
    + intros t. specialize (Hf t). cbn [List.filter] in Hf.
      destruct (k x =? t); [now injection Hf | exact Hf].
Qed.

End OrdenPorClave.

Section OrdenPorAno.

Context {P : Plataforma} {E : Entorno}.

Lemma cmp_ano_Gt (d : bool) (a b : Pelicula) :
  con_ano a -> con_ano b ->
  (cmp_ano d a b = Gt <-> clave_ano d a < clave_ano d b).
Proof.
  unfold con_ano, cmp_ano, clave_ano, signo_entero, resta_entero, signo_Z.
  destruct (ano a) as [| x], (ano b) as [| y]; try congruence.
  intros _ _. destruct d; rewrite Z.compare_gt_iff; lia.
Qed.

Lemma ordenado_por_clave_ano (d : bool) (l : list Pelicula) :
  Forall con_ano l ->
  (ordenado_por_ano d l
   <-> StronglySorted (fun a b => clave_ano d b <= clave_ano d a) l).
Proof.
  unfold ordenado_por_ano.
  induction 1 as [| x l Hx Hl IH]; [split; constructor |].
  assert (Hall : Forall (ano_en_orden d x) l
                 <-> Forall (fun b => clave_ano d b <= clave_ano d x) l).
  { clear IH. induction Hl as [| y l Hy Hl IH]; [split; constructor |].
    rewrite !Forall_cons, IH.
    unfold con_ano, ano_en_orden, clave_ano in *.
    destruct (ano x) as [| a], (ano y) as [| b]; try congruence.
    destruct d; split; intros (H1 & H2); split; auto; lia. }
  split; intros H; inversion H as [| ? ? Hs Hf]; subst; constructor;
    try (now apply IH); now apply Hall.
Qed.

Lemma mismo_ano_clave (d : bool) (y : Z) (l : list Pelicula) :
  Forall con_ano l ->
  List.filter (mismo_ano y) l
  = List.filter (fun p => clave_ano d p =? (if d then y else - y)) l.
Proof.
  induction 1 as [| x l Hx Hl IH]; [reflexivity |].
  cbn [List.filter]. rewrite IH.
  assert (Hk : mismo_ano y x = (clave_ano d x =? (if d then y else - y))).
  { unfold con_ano, mismo_ano, clave_ano in *.
    destruct (ano x) as [| a]; [congruence |].
    destruct d; [reflexivity |].
    destruct (Z.eqb_spec a y), (Z.eqb_spec (- a) (- y)); try reflexivity; lia. }
  now rewrite Hk.
Qed.

Lemma conserva_empates_clave_ano (d : bool) (l l' : list Pelicula) :
  Forall con_ano l -> Forall con_ano l' ->
  (conserva_empates_de_ano l l'
   <-> forall t : Z,
         List.filter (fun p => clave_ano d p =? t) l'
         = List.filter (fun p => clave_ano d p =? t) l).
Proof.
  intros Hl Hl'. unfold conserva_empates_de_ano. split; intros H t.
  - specialize (H (if d then t else - t)).
    rewrite (mismo_ano_clave d _ l Hl), (mismo_ano_clave d _ l' Hl') in H.
    destruct d; [exact H |]. now rewrite Z.opp_involutive in H.
  - rewrite (mismo_ano_clave d _ l Hl), (mismo_ano_clave d _ l' Hl').
    apply H.
Qed.

(** X10.  In a reachable world where every record has a year,
    [ordenarPorAno] returns the records of the collection sorted by
    year, latest first when [descendente] is true or omitted and
    earliest first when it is false, the records of a same year in the
    order they have in the collection; there is one such arrangement. *)
Theorem ordenarPorAno_ordena_y_conserva_empates
    (w : Mundo) (descendente : option bool) :
  alcanzable w ->
  Forall con_ano (items w) ->
  let d := match descendente with Some b => b | None => true end in
  exists s : list Pelicula,
    elementos (ordenarPorAno descendente) w = Some s
    /\ Permutation s (items w)
    /\ ordenado_por_ano d s
    /\ conserva_empates_de_ano (items w) s
    /\ (forall s' : list Pelicula,
          Permutation s' (items w) ->
          ordenado_por_ano d s' ->
          conserva_empates_de_ano (items w) s' ->
          s' = s).
Proof.
  intros Hw Hq d. apply alcanzable_bien_formado in Hw.
  destruct Hw as (r & l & Hg & _).
  rewrite (gestor_en_items _ _ _ Hg) in *.
  exists (ordenar (cmp_ano d) l).
  assert (Hqs : Forall con_ano (ordenar (cmp_ano d) l)).
  { now rewrite (ordenar_perm (cmp_ano d) l). }
  assert (Hord : StronglySorted (fun a b => clave_ano d b <= clave_ano d a)
                   (ordenar (cmp_ano d) l)).
  { apply (ordenar_clave_ordenado (clave_ano d) con_ano); [| exact Hq].
    apply cmp_ano_Gt. }
  assert (Hemp : forall t : Z,
            List.filter (fun p => clave_ano d p =? t) (ordenar (cmp_ano d) l)
            = List.filter (fun p => clave_ano d p =? t) l).
  { intros t. apply (ordenar_clave_filtro (clave_ano d) con_ano); [| exact Hq].
    apply cmp_ano_Gt. }
  split.
  { eapply devuelve_arreglo_elementos.
    unfold ordenarPorAno. fold d. apply (ordenar_copia_devuelve _ w r l Hg). }
  split; [apply ordenar_perm |].
  split; [now apply ordenado_por_clave_ano |].
  split; [now apply (conserva_empates_clave_ano d) |].
  intros s' Hp Hs' He'.
  assert (Hqs' : Forall con_ano s') by now rewrite Hp.
  apply (orden_por_clave_unico (clave_ano d)).
  - exact Hord.
  - now apply ordenado_por_clave_ano.
  - intros t. rewrite Hemp.
    now apply (conserva_empates_clave_ano d l s' Hq Hqs').
Qed.

End OrdenPorAno.
(* ===================================================================== *)
(** * [escapeHtml] *)
(* ===================================================================== *)

Section EscapeHtml.

(** What [escapeHtml] puts in the place of one code unit. *)
Lemma escapeHtml_cons (c : N) (text : cadena) :
  escapeHtml (c :: text)
  = (if clase_html c then buscar_en_mapa mapa_html c else [c]) ++ escapeHtml text.
Proof. reflexivity. Qed.

Lemma reemplazo_casos (c : N) :
  (clase_html c = false /\ c <> 38%N /\ c <> 60%N /\ c <> 62%N
   /\ c <> 34%N /\ c <> 39%N)
  \/ (c = 38%N /\ clase_html c = true
      /\ buscar_en_mapa mapa_html c = [38; 97; 109; 112; 59]%N)
  \/ (c = 60%N /\ clase_html c = true
      /\ buscar_en_mapa mapa_html c = [38; 108; 116; 59]%N)
  \/ (c = 62%N /\ clase_html c = true
      /\ buscar_en_mapa mapa_html c = [38; 103; 116; 59]%N)
  \/ (c = 34%N /\ clase_html c = true
      /\ buscar_en_mapa mapa_html c = [38; 113; 117; 111; 116; 59]%N)
  \/ (c = 39%N /\ clase_html c = true
      /\ buscar_en_mapa mapa_html c = [38; 35; 48; 51; 57; 59]%N).
Proof.
  unfold clase_html.
  destruct (N.eqb_spec c 38) as [-> | H1]; [right; left; repeat split |].
  destruct (N.eqb_spec c 60) as [-> | H2];
    [right; right; left; repeat split |].
  destruct (N.eqb_spec c 62) as [-> | H3];
    [right; right; right; left; repeat split |].
  destruct (N.eqb_spec c 34) as [-> | H4];
    [right; right; right; right; left; repeat split |].
  destruct (N.eqb_spec c 39) as [-> | H5];
    [right; right; right; right; right; repeat split |].
  left. repeat split; assumption.
Qed.

Lemma empieza_con_app (e r : cadena) : empieza_con e (e ++ r) = true.
Proof.
  induction e as [| x e IH]; cbn; [reflexivity |].
  now rewrite N.eqb_refl, IH.
Qed.

Lemma entidades_son (e : cadena) :
  In e entidades
  <-> e = [38; 97; 109; 112; 59]%N \/ e = [38; 108; 116; 59]%N
      \/ e = [38; 103; 116; 59]%N \/ e = [38; 113; 117; 111; 116; 59]%N
      \/ e = [38; 35; 48; 51; 57; 59]%N.
Proof.
  change entidades
    with [[38; 97; 109; 112; 59]%N; [38; 108; 116; 59]%N; [38; 103; 116; 59]%N;
          [38; 113; 117; 111; 116; 59]%N; [38; 35; 48; 51; 57; 59]%N].
  cbn. intuition congruence.
Qed.

(** X11.  The text that [escapeHtml] returns holds no angle bracket, no
    double quote and no apostrophe, and every ampersand in it is the
    first character of one of the five entities of the table, which
    follows in full. *)
Theorem escapeHtml_no_deja_marcas (text : cadena) :
  Forall (fun c => c <> 60%N /\ c <> 62%N /\ c <> 34%N /\ c <> 39%N)
    (escapeHtml text)
  /\ forall i : nat,
       escapeHtml text !! i = Some 38%N ->
       exists e : cadena,
         In e entidades /\ empieza_con e (drop i (escapeHtml text)) = true.
Proof.
  induction text as [| c text (IH1 & IH2)].
  - split; [constructor |]. intros i Hi. destruct i; discriminate.
  - rewrite escapeHtml_cons.
    assert (Hsig : forall (e : cadena) (i : nat),
      (e ++ escapeHtml text) !! (length e + i)%nat = Some 38%N ->
      exists e' : cadena,
        In e' entidades
        /\ empieza_con e' (drop (length e + i) (e ++ escapeHtml text)) = true).
    { intros e i Hi. rewrite lookup_app_r in Hi by lia.
      replace (length e + i - length e)%nat with i in Hi by lia.
      destruct (IH2 i Hi) as (e' & He' & Hp). exists e'. split; [exact He' |].
      rewrite drop_app_ge by lia.
      now replace (length e + i - length e)%nat with i by lia. }
    destruct (reemplazo_casos c)
      as [(Hc & H38 & H60 & H62 & H34 & H39)
         | [(-> & Hc & He) | [(-> & Hc & He) | [(-> & Hc & He)
         | [(-> & Hc & He) | (-> & Hc & He)]]]]];
      rewrite Hc; try rewrite He.
    + split; [constructor; auto |].
      intros [| i] Hi; [cbn in Hi; congruence |].
      apply (Hsig [c] i Hi).
    + split; [repeat (constructor; [repeat split; discriminate |]); exact IH1 |].
      intros i Hi.
      destruct i as [| [| [| [| [| i]]]]]; try discriminate Hi.
      * eexists. split; [apply entidades_son; left; reflexivity |].
        apply (empieza_con_app [38; 97; 109; 112; 59]%N).
      * apply (Hsig [38; 97; 109; 112; 59]%N i Hi).
    + split; [repeat (constructor; [repeat split; discriminate |]); exact IH1 |].
      intros i Hi.
      destruct i as [| [| [| [| i]]]]; try discriminate Hi.
      * eexists. split; [apply entidades_son; right; left; reflexivity |].
        apply (empieza_con_app [38; 108; 116; 59]%N).
      * apply (Hsig [38; 108; 116; 59]%N i Hi).
    + split; [repeat (constructor; [repeat split; discriminate |]); exact IH1 |].
      intros i Hi.
      destruct i as [| [| [| [| i]]]]; try discriminate Hi.
      * eexists. split; [apply entidades_son; right; right; left; reflexivity |].
        apply (empieza_con_app [38; 103; 116; 59]%N).
      * apply (Hsig [38; 103; 116; 59]%N i Hi).
    + split; [repeat (constructor; [repeat split; discriminate |]); exact IH1 |].
      intros i Hi.
      destruct i as [| [| [| [| [| [| i]]]]]]; try discriminate Hi.
      * eexists. split;
          [apply entidades_son; right; right; right; left; reflexivity |].
        apply (empieza_con_app [38; 113; 117; 111; 116; 59]%N).
      * apply (Hsig [38; 113; 117; 111; 116; 59]%N i Hi).
    + split; [repeat (constructor; [repeat split; discriminate |]); exact IH1 |].
      intros i Hi.
      destruct i as [| [| [| [| [| [| i]]]]]]; try discriminate Hi.
      * eexists. split;
          [apply entidades_son; right; right; right; right; reflexivity |].
        apply (empieza_con_app [38; 35; 48; 51; 57; 59]%N).
      * apply (Hsig [38; 35; 48; 51; 57; 59]%N i Hi).
Qed.

Lemma escapeHtml_cancela (s t : cadena) :
  escapeHtml s = escapeHtml t -> s = t.
Proof.
  revert t. induction s as [| c s IH]; intros [| d t].
  - reflexivity.
  - rewrite escapeHtml_cons. cbn [escapeHtml replace_clase].
    destruct (reemplazo_casos d)
      as [(Hd & _) | [(-> & Hd & He) | [(-> & Hd & He) | [(-> & Hd & He)
         | [(-> & Hd & He) | (-> & Hd & He)]]]]];
      rewrite Hd; try rewrite He; discriminate.
  - rewrite escapeHtml_cons. cbn [escapeHtml replace_clase].
    destruct (reemplazo_casos c)
      as [(Hc & _) | [(-> & Hc & He) | [(-> & Hc & He) | [(-> & Hc & He)
         | [(-> & Hc & He) | (-> & Hc & He)]]]]];
      rewrite Hc; try rewrite He; discriminate.
  - rewrite !escapeHtml_cons.
    destruct (reemplazo_casos c)
      as [(Hc & C38 & _) | [(-> & Hc & He) | [(-> & Hc & He) | [(-> & Hc & He)
         | [(-> & Hc & He) | (-> & Hc & He)]]]]];
      rewrite Hc; try rewrite He;
      destruct (reemplazo_casos d)
        as [(Hd & D38 & _) | [(-> & Hd & He') | [(-> & Hd & He')
           | [(-> & Hd & He') | [(-> & Hd & He') | (-> & Hd & He')]]]]];
      rewrite Hd; try rewrite He'; cbn [app];
      intros H; try discriminate H;
      try (injection H as H; try congruence; f_equal; now apply IH).
    injection H as -> H. f_equal. now apply IH.
Qed.

(** X12.  [escapeHtml] loses nothing: two texts are escaped to the same
    text exactly when they are the same text. *)
Theorem escapeHtml_inyectiva (s t : cadena) :
  escapeHtml s = escapeHtml t <-> s = t.
Proof.
  split; [apply escapeHtml_cancela | now intros ->].
Qed.

Lemma escapeHtml_length (text : cadena) :
  (length text <= length (escapeHtml text))%nat
  /\ (length (escapeHtml text) = length text ->
      Forall (fun c => clase_html c = false) text).
Proof.
  induction text as [| c text (IH1 & IH2)];
    [split; [cbn; lia | intros _; constructor] |].
  rewrite escapeHtml_cons, length_app. cbn [length].
  destruct (reemplazo_casos c)
    as [(Hc & _) | [(-> & Hc & He) | [(-> & Hc & He) | [(-> & Hc & He)
       | [(-> & Hc & He) | (-> & Hc & He)]]]]];
    rewrite Hc; try rewrite He; cbn [length]; split; try lia;
    intros H; try (exfalso; lia).
  constructor; [exact Hc |]. apply IH2. lia.
Qed.

Lemma escapeHtml_sin_especiales (text : cadena) :
  Forall (fun c => clase_html c = false) text -> escapeHtml text = text.
Proof.
  induction 1 as [| c text Hc _ IH]; [reflexivity |].
  rewrite escapeHtml_cons, Hc, IH. reflexivity.
Qed.

(** X13.  [escapeHtml] returns its argument unchanged exactly when the
    argument holds none of the five characters, and a longer text
    otherwise.  Escaping twice is escaping once only for such texts: in
    the others the ampersand of every entity is escaped again. *)
Theorem escapeHtml_sobre_lo_escapado (text : cadena) :
  (escapeHtml text = text <-> Forall (fun c => clase_html c = false) text)
  /\ (escapeHtml text <> text -> (length text < length (escapeHtml text))%nat)
  /\ (escapeHtml (escapeHtml text) = escapeHtml text <-> escapeHtml text = text).
Proof.
  assert (H1 : forall s, escapeHtml s = s <-> Forall (fun c => clase_html c = false) s).
  { intros s. split; [| apply escapeHtml_sin_especiales].
    intros H. apply escapeHtml_length. now rewrite H. }
  split; [apply H1 |]. split.
  - intros Hne. destruct (escapeHtml_length text) as (Hle & Heq).
    destruct (Nat.eq_dec (length (escapeHtml text)) (length text)) as [He | He];
      [| lia].
    exfalso. apply Hne. apply H1. now apply Heq.
  - split.
    + intros H. now apply escapeHtml_cancela.
    + intros H. now rewrite H.
Qed.

End EscapeHtml.
(* ===================================================================== *)
(** * The pattern of [validarEmail] *)
(* ===================================================================== *)

Section Email.

Lemma una_o_mas_ok (clase : N -> bool) (sigue : cadena -> bool) (s : cadena) :
  una_o_mas clase sigue s = true
  <-> exists a r : cadena,
        s = a ++ r /\ a <> [] /\ Forall (fun c => clase c = true) a
        /\ sigue r = true.
Proof.
  induction s as [| c s IH]; cbn [una_o_mas].
  - split; [discriminate |].
    intros (a & r & H & Ha & _). destruct a; [congruence | discriminate].
  - rewrite andb_true_iff, orb_true_iff, IH. split.
    + intros (Hc & [(a & r & -> & Ha & Hf & Hs) | Hs]).
      * exists (c :: a), r.
        split; [reflexivity |]. split; [discriminate |].
        split; [now constructor | exact Hs].
      * exists [c], s.
        split; [reflexivity |]. split; [discriminate |].
        split; [now repeat constructor | exact Hs].
    + intros (a & r & H & Ha & Hf & Hs).
      destruct a as [| x a]; [congruence |].
      cbn in H. injection H as -> ->. inversion Hf as [| ? ? Hx Hf']; subst.
      split; [exact Hx |]. destruct a as [| y a].
      * right. exact Hs.
      * left. exists (y :: a), r.
        split; [reflexivity |]. split; [discriminate |]. auto.
Qed.

Lemma una_ok (k : N) (p : list pieza) (s : cadena) :
  coincide_entera (Una (es_caracter k) :: p) s = true
  <-> exists r : cadena, s = k :: r /\ coincide_entera p r = true.
Proof.
  cbn [coincide_entera]. destruct s as [| c r].
  - split; [discriminate | intros (r & H & _); discriminate].
  - unfold es_caracter. rewrite andb_true_iff, N.eqb_eq. split.
    + intros (-> & H). eauto.
    + intros (r' & [= -> ->] & H). auto.
Qed.

Lemma ni_blanco_ni_arroba_ok (c : N) :
  ni_blanco_ni_arroba c = true <-> es_blanco c = false /\ c <> 64%N.
Proof.
  unfold ni_blanco_ni_arroba.
  rewrite andb_true_iff, !negb_true_iff, N.eqb_neq. tauto.
Qed.

Lemma parte_ok (a : cadena) :
  a <> [] /\ Forall (fun c => ni_blanco_ni_arroba c = true) a <-> parte a.
Proof.
  unfold parte. split; intros (Ha & Hf); (split; [exact Ha |]);
    (eapply Forall_impl; [exact Hf |]); intros c; apply ni_blanco_ni_arroba_ok.
Qed.

Lemma una_o_mas_pieza (clase : N -> bool) (p : list pieza) (s : cadena) :
  coincide_entera (UnaOMas clase :: p) s = true
  <-> exists a r : cadena,
        s = a ++ r /\ a <> [] /\ Forall (fun c => clase c = true) a
        /\ coincide_entera p r = true.
Proof.
  change (coincide_entera (UnaOMas clase :: p) s)
    with (una_o_mas clase (coincide_entera p) s).
  apply una_o_mas_ok.
Qed.

Lemma coincide_fin (s : cadena) : coincide_entera [] s = true <-> s = [].
Proof. destruct s; cbn; split; congruence. Qed.

Lemma validarEmail_direccion (email : cadena) :
  validarEmail email = true <-> direccion email.
Proof.
  unfold validarEmail, patron_email, direccion.
  rewrite una_o_mas_pieza. split.
  - intros (a & r1 & -> & Ha & Hfa & H1).
    apply una_ok in H1. destruct H1 as (r2 & -> & H2).
    apply una_o_mas_pieza in H2.
    destruct H2 as (b & r3 & -> & Hb & Hfb & H3).
    apply una_ok in H3. destruct H3 as (r4 & -> & H4).
    apply una_o_mas_pieza in H4.
    destruct H4 as (c & r5 & -> & Hc & Hfc & H5).
    apply coincide_fin in H5. subst r5. rewrite app_nil_r.
    exists a, b, c. split; [reflexivity |].
    repeat split; try assumption;
      (eapply Forall_impl; [eassumption |]); intros x; apply ni_blanco_ni_arroba_ok.
  - intros (a & b & c & -> & Pa & Pb & Pc).
    apply parte_ok in Pa, Pb, Pc.
    destruct Pa as (Ha & Hfa), Pb as (Hb & Hfb), Pc as (Hc & Hfc).
    exists a, ([64%N] ++ b ++ [46%N] ++ c).
    split; [reflexivity |]. split; [exact Ha |]. split; [exact Hfa |].
    apply una_ok. exists (b ++ [46%N] ++ c). split; [reflexivity |].
    apply una_o_mas_pieza.
    exists b, ([46%N] ++ c).
    split; [reflexivity |]. split; [exact Hb |]. split; [exact Hfb |].
    apply una_ok. exists c. split; [reflexivity |].
    apply una_o_mas_pieza.
    exists c, []. rewrite app_nil_r. repeat split; auto.
Qed.

Lemma quitar_blancos_sin_blancos (s : cadena) :
  Forall (fun c => es_blanco c = false) s -> quitar_blancos s = s.
Proof. intros [| c r Hc _]; cbn; [reflexivity | now rewrite Hc]. Qed.

Lemma trim_sin_blancos (s : cadena) :
  Forall (fun c => es_blanco c = false) s -> trim s = s.
Proof.
  intros H. unfold trim. rewrite (quitar_blancos_sin_blancos s H).
  rewrite quitar_blancos_sin_blancos; [apply rev_involutive |].
  apply Forall_forall. intros c Hc. rewrite Forall_forall in H. apply H.
  apply list_elem_of_In. apply list_elem_of_In in Hc. now apply in_rev.
Qed.

Lemma direccion_sin_blancos (email : cadena) :
  direccion email ->
  Forall (fun c => es_blanco c = false) email
  /\ length (List.filter (fun c => (c =? 64)%N) email) = 1%nat.
Proof.
  intros (a & b & c & -> & (_ & Ha) & (_ & Hb) & (_ & Hc)).
  assert (Hsin : forall s : cadena,
    Forall (fun x => es_blanco x = false /\ x <> 64%N) s ->
    List.filter (fun x => (x =? 64)%N) s = []).
  { induction 1 as [| x s (_ & Hx) _ IH]; [reflexivity |].
    cbn. apply N.eqb_neq in Hx. now rewrite Hx. }
  split.
  - repeat (apply Forall_app; split);
      try (eapply Forall_impl; [eassumption |]; cbn; tauto);
      now repeat constructor.
  - rewrite !List.filter_app, (Hsin a Ha), (Hsin b Hb), (Hsin c Hc).
    reflexivity.
Qed.

(** X14.  [validarEmail] accepts exactly the texts made of a local
    part, an at sign and a domain with a dot inside it, neither first
    nor last, where no part is empty or holds white space or another at
    sign.  A text it accepts has therefore no white space (so [trim]
    leaves it as it is) and exactly one at sign. *)
Theorem validarEmail_acepta_las_direcciones (email : cadena) :
  (validarEmail email = true <-> direccion email)
  /\ (validarEmail email = true ->
      Forall (fun c => es_blanco c = false) email
      /\ trim email = email
      /\ length (List.filter (fun c => (c =? 64)%N) email) = 1%nat).
Proof.
  split; [apply validarEmail_direccion |].
  intros H. apply validarEmail_direccion, direccion_sin_blancos in H.
  destruct H as (H1 & H2). split; [exact H1 |].
  split; [now apply trim_sin_blancos | exact H2].
Qed.

End Email.

(* ===================================================================== *)
(** * Users and sessions *)
(* ===================================================================== *)

Section Usuarios.

Context {P : Plataforma} {Sis : Sistema}.

Lemma ligarA_normal {A B} (m : MA A) (k : A -> MA B) (w w' : MundoAuth) (a : A) :
  m w = (Normal a, w') -> ligarA m k w = k a w'.
Proof. intros H. unfold ligarA. now rewrite H. Qed.

(** [obtenerUsuarios] always returns, and changes nothing. *)
Lemma obtenerUsuarios_ok (w : MundoAuth) :
  obtenerUsuarios w = (Normal (usuarios_de w), w).
Proof.
  unfold obtenerUsuarios, usuarios_de, intentarA, ligarA, getItem_usuarios.
  destruct (usuarios_guardados w) as [[| | l] |]; reflexivity.
Qed.

Lemma usuarios_de_vacio (w : MundoAuth) :
  usuarios_de w = []
  <-> usuarios_guardados w = None \/ usuarios_guardados w = Some UVacia
      \/ usuarios_guardados w = Some UNoJSON
      \/ usuarios_guardados w = Some (UArreglo []).
Proof.
  unfold usuarios_de.
  destruct (usuarios_guardados w) as [[| | [| u l]] |]; split; auto;
    try discriminate; intros [H | [H | [H | H]]]; discriminate.
Qed.

(** The world after [n] more readings of the clock. *)
Lemma Date_ahora_ok (w : MundoAuth) :
  Date_ahora w
  = (Normal (hora (lecturas_hora w)),
     {| usuarios_guardados := usuarios_guardados w;
        sesion_guardada := sesion_guardada w;
        lecturas_hora := S (lecturas_hora w) |}).
Proof. reflexivity. Qed.

Lemma find_primero (f : Usuario -> bool) (l : list Usuario) :
  match List.find f l with
  | Some u =>
    exists n : nat,
      l !! n = Some u /\ f u = true
      /\ forall (j : nat) (v : Usuario),
           (j < n)%nat -> l !! j = Some v -> f v = false
  | None => forall v : Usuario, In v l -> f v = false
  end.
Proof.
  induction l as [| x l IH]; cbn [List.find]; [intros v [] |].
  destruct (f x) eqn:Hx.
  - exists 0%nat. repeat split; [exact Hx |]. intros j v Hj. lia.
  - destruct (List.find f l) as [u |].
    + destruct IH as (n & Hn & Hu & Hmin). exists (S n).
      repeat split; [exact Hn | exact Hu |].
      intros [| j] v Hj Hv; cbn in Hv; [congruence |].
      eapply Hmin; [| exact Hv]. lia.
    + intros v [<- | Hv]; auto.
Qed.

Lemma find_por_primero (f : Usuario -> bool) (l : list Usuario) (n : nat)
    (u : Usuario) :
  l !! n = Some u -> f u = true ->
  (forall (j : nat) (v : Usuario), (j < n)%nat -> l !! j = Some v -> f v = false) ->
  List.find f l = Some u.
Proof.
  revert n. induction l as [| x l IH]; intros [| n]; cbn; try discriminate.
  - intros [= ->] Hu _. now rewrite Hu.
  - intros Hn Hu Hmin. rewrite (Hmin 0%nat x) by (cbn; auto; lia).
    apply (IH n Hn Hu). intros j v Hj Hv. apply (Hmin (S j) v); [lia | exact Hv].
Qed.

Lemma credenciales_ok (usuario password : cadena) (u : Usuario) :
  credenciales usuario password u = true
  <-> u_usuario u = usuario /\ u_password u = password.
Proof.
  unfold credenciales. now rewrite andb_true_iff, !igual_verdad.
Qed.

Lemma credenciales_no (usuario password : cadena) (u : Usuario) :
  credenciales usuario password u = false
  <-> (u_usuario u = usuario -> u_password u <> password).
Proof.
  rewrite <- not_true_iff_false, credenciales_ok. tauto.
Qed.

Lemma verdadera_no_vacia (s : cadena) : verdadera s = true <-> s <> [].
Proof. destruct s; cbn; split; congruence. Qed.

(** [login] with a user name and a password that are not empty. *)
Lemma login_ok (w : MundoAuth) (usuario password : cadena) :
  usuario <> [] -> password <> [] ->
  login usuario password w
  = match List.find (credenciales usuario password) (usuarios_de w) with
    | Some u =>
      let s := sesion_de u (hora (lecturas_hora w)) in
      if cabe_sesion s then
        (Normal {| ra_exito := true; ra_mensaje := msg_bienvenido;
                   ra_usuario := Some s |},
         con_sesion (Some (SSesion s)) (snd (Date_ahora w)))
      else (Lanza QuotaExceededError, snd (Date_ahora w))
    | None => (Normal (sin_exito msg_incorrectos), w)
    end.
Proof.
  intros Hu Hp. unfold login.
  apply verdadera_no_vacia in Hu, Hp. rewrite Hu, Hp. cbn [negb orb].
  rewrite (ligarA_normal _ _ _ _ _ (obtenerUsuarios_ok w)).
  destruct (List.find _ (usuarios_de w)) as [u |]; [| reflexivity].
  rewrite (ligarA_normal _ _ _ _ _ (Date_ahora_ok w)).
  unfold ligarA, setItem_sesion. cbv zeta.
  destruct (cabe_sesion _); reflexivity.
Qed.

(** X15.  [login] asks for a user name and a password that are not
    empty, and looks for the first stored user with exactly that name
    and that password.  When there is none the answer says so and
    nothing has changed.  When there is one, the session written is made
    of the identifier, the name, the user name and the address of that
    user and of the instant of the call, and the answer carries it; if
    the storage refuses the session, the error of [setItem] leaves
    [login]. *)
Theorem login_busca_las_credenciales (w : MundoAuth) (usuario password : cadena) :
  let l := usuarios_de w in
  let w1 := snd (Date_ahora w) in
  (usuario = [] \/ password = [] ->
   login usuario password w = (Normal (sin_exito msg_requeridos), w))
  /\ (usuario <> [] -> password <> [] ->
      (forall u : Usuario,
         In u l -> u_usuario u = usuario -> u_password u <> password) ->
      login usuario password w = (Normal (sin_exito msg_incorrectos), w))
  /\ (usuario <> [] -> password <> [] ->
      forall (n : nat) (u : Usuario),
        l !! n = Some u -> u_usuario u = usuario -> u_password u = password ->
        (forall (j : nat) (v : Usuario),
           (j < n)%nat -> l !! j = Some v ->
           u_usuario v = usuario -> u_password v <> password) ->
        let s := sesion_de u (hora (lecturas_hora w)) in
        (cabe_sesion s = true ->
         login usuario password w
         = (Normal {| ra_exito := true; ra_mensaje := msg_bienvenido;
                      ra_usuario := Some s |},
            con_sesion (Some (SSesion s)) w1))
        /\ (cabe_sesion s = false ->
            login usuario password w = (Lanza QuotaExceededError, w1))).
Proof.
  intros l w1. split; [| split].
  - intros H. unfold login.
    assert (Hv : negb (verdadera usuario) || negb (verdadera password) = true).
    { destruct H as [-> | ->]; cbn; [reflexivity | apply orb_true_r]. }
    now rewrite Hv.
  - intros Hu Hp Hno. rewrite (login_ok w usuario password Hu Hp).
    pose proof (find_primero (credenciales usuario password) (usuarios_de w)) as H.
    destruct (List.find _ _) as [u |]; [| reflexivity].
    destruct H as (n & Hn & Hc & _). apply credenciales_ok in Hc.
    destruct Hc as (H1 & H2). exfalso. apply (Hno u); auto.
    apply list_elem_of_In. eapply list_elem_of_lookup_2; eauto.
  - intros Hu Hp n u Hn H1 H2 Hmin s.
    rewrite (login_ok w usuario password Hu Hp).
    rewrite (find_por_primero _ _ n u Hn).
    + cbv zeta. fold s. fold w1. split; intros Hc; now rewrite Hc.
    + now apply credenciales_ok.
    + intros j v Hj Hv. apply credenciales_no. eauto.
Qed.

(** ** Sessions *)

Lemma obtenerSesionActiva_ok (w : MundoAuth) :
  obtenerSesionActiva w
  = (Normal match sesion_guardada w with
            | Some (SSesion s) => Some (VSesion s)
            | Some SOtro => Some VOtro
            | _ => None
            end, w).
Proof.
  unfold obtenerSesionActiva, intentarA, ligarA, getItem_sesion.
  destruct (sesion_guardada w) as [[| | | s |] |]; reflexivity.
Qed.

Lemma estaAutenticado_ok (w : MundoAuth) :
  estaAutenticado w
  = (Normal match sesion_guardada w with
            | Some (SSesion _) | Some SOtro => true
            | _ => false
            end, w).
Proof.
  unfold estaAutenticado.
  rewrite (ligarA_normal _ _ _ _ _ (obtenerSesionActiva_ok w)).
  destruct (sesion_guardada w) as [[| | | s |] |]; reflexivity.
Qed.

(** X16.  [estaAutenticado] never throws and changes nothing; it answers
    true exactly when the session entry holds the text of a JSON value
    other than [null], whatever that value is.  After a [login] that
    answers with a success, [obtenerSesionActiva] returns the session of
    the answer and [estaAutenticado] is true; a [login] that answers
    without success leaves the world as it was, an open session
    included.  After [logout], [estaAutenticado] is false, the users are
    as they were, and a second [logout] changes nothing. *)
Theorem la_sesion_se_abre_y_se_cierra
    (w : MundoAuth) (usuario password : cadena) :
  let w' := snd (login usuario password w) in
  (exists b : bool,
     estaAutenticado w = (Normal b, w)
     /\ (b = true
         <-> sesion_guardada w = Some SOtro
             \/ exists s : Sesion, sesion_guardada w = Some (SSesion s)))
  /\ (forall res : ResultadoAuth,
        fst (login usuario password w) = Normal res -> ra_exito res = true ->
        exists s : Sesion,
          ra_usuario res = Some s
          /\ obtenerSesionActiva w' = (Normal (Some (VSesion s)), w')
          /\ estaAutenticado w' = (Normal true, w'))
  /\ (forall res : ResultadoAuth,
        fst (login usuario password w) = Normal res -> ra_exito res = false ->
        w' = w)
  /\ estaAutenticado (snd (logout w)) = (Normal false, snd (logout w))
  /\ usuarios_guardados (snd (logout w)) = usuarios_guardados w
  /\ logout (snd (logout w)) = (Normal tt, snd (logout w)).
Proof.
  intros w'. split; [| split; [| split; [| split; [| split]]]].
  - eexists. split; [apply estaAutenticado_ok |].
    destruct (sesion_guardada w) as [[| | | s |] |]; split;
      try discriminate; try reflexivity; eauto;
      intros [H | (s' & H)]; discriminate.
  - intros res Hres Hex. unfold w' in *.
    assert (Hne : usuario <> [] /\ password <> []).
    { destruct usuario as [| a u]; [| destruct password as [| b p]];
        [exfalso | exfalso | split; discriminate];
        cbn in Hres; injection Hres as <-; discriminate. }
    destruct Hne as (Hu & Hp).
    rewrite (login_ok w usuario password Hu Hp) in *.
    destruct (List.find _ _) as [u |];
      [| cbn in Hres; injection Hres as <-; discriminate].
    cbv zeta in *. destruct (cabe_sesion _); [| discriminate].
    cbn [fst snd] in *. injection Hres as <-.
    eexists. split; [reflexivity |].
    rewrite obtenerSesionActiva_ok, estaAutenticado_ok. cbn. auto.
  - intros res Hres Hex. unfold w' in *.
    destruct (list_eq_dec usuario []) as [-> | Hu]; [reflexivity |].
    destruct (list_eq_dec password []) as [-> | Hp].
    { unfold login. rewrite orb_true_r. reflexivity. }
    rewrite (login_ok w usuario password Hu Hp) in *.
    destruct (List.find _ _) as [u |]; [| reflexivity].
    cbv zeta in *. destruct (cabe_sesion _); [| discriminate].
    cbn [fst] in Hres. injection Hres as <-. discriminate.
  - now rewrite estaAutenticado_ok.
  - reflexivity.
  - reflexivity.
Qed.

(** ** The constructor *)

Lemma AuthManager_new_ok (w : MundoAuth) :
  AuthManager_new w
  = match usuarios_de w with
    | [] =>
      let n := lecturas_hora w in
      let d := usuariosPrueba (hora n) (hora (S n)) (hora (S (S n))) in
      let w3 := {| usuarios_guardados := usuarios_guardados w;
                   sesion_guardada := sesion_guardada w;
                   lecturas_hora := S (S (S n)) |} in
      if cabe_usuarios d then (Normal tt, con_usuarios (Some (UArreglo d)) w3)
      else (Lanza QuotaExceededError, w3)
    | _ :: _ => (Normal tt, w)
    end.
Proof.
  unfold AuthManager_new, inicializarUsuariosPorDefecto.
  rewrite (ligarA_normal _ _ _ _ _ (obtenerUsuarios_ok w)).
  destruct (usuarios_de w) as [| u l]; [| reflexivity].
  change (Z.of_nat (length (@nil Usuario)) =? 0) with true. cbv iota.
  rewrite (ligarA_normal _ _ _ _ _ (Date_ahora_ok w)).
  rewrite (ligarA_normal _ _ _ _ _ (Date_ahora_ok _)).
  rewrite (ligarA_normal _ _ _ _ _ (Date_ahora_ok _)).
  cbn [lecturas_hora usuarios_guardados sesion_guardada].
  unfold setItem_usuarios. cbv zeta.
  destruct (cabe_usuarios _); reflexivity.
Qed.

Lemma usuariosPrueba_entran (f1 f2 f3 : Z) (u : Usuario) :
  In u (usuariosPrueba f1 f2 f3) ->
  u_usuario u <> [] /\ u_password u <> []
  /\ List.find (credenciales (u_usuario u) (u_password u)) (usuariosPrueba f1 f2 f3)
     = Some u.
Proof.
  intros [<- | [<- | [<- | []]]]; (split; [discriminate |]);
    (split; [discriminate |]); vm_compute; reflexivity.
Qed.

(** X17.  The constructor of [AuthManager] writes the three users of the
    array literal whenever [obtenerUsuarios] returns an empty array,
    that is when the storage has no users entry, an empty one, one that
    is not JSON, or the text of an empty array; their registration dates
    are three successive readings of the clock.  Each of the three can
    then log in with the user name and the password of the literal.
    When the storage holds a user the constructor changes nothing; when
    it refuses the three users, the error of [setItem] leaves the
    constructor. *)
Theorem AuthManager_new_escribe_los_usuarios_de_prueba (w : MundoAuth) :
  let n := lecturas_hora w in
  let d := usuariosPrueba (hora n) (hora (S n)) (hora (S (S n))) in
  let w' := snd (AuthManager_new w) in
  (usuarios_de w = []
   <-> usuarios_guardados w = None \/ usuarios_guardados w = Some UVacia
       \/ usuarios_guardados w = Some UNoJSON
       \/ usuarios_guardados w = Some (UArreglo []))
  /\ (usuarios_de w <> [] -> AuthManager_new w = (Normal tt, w))
  /\ (usuarios_de w = [] -> cabe_usuarios d = true ->
      fst (AuthManager_new w) = Normal tt
      /\ usuarios_guardados w' = Some (UArreglo d)
      /\ sesion_guardada w' = sesion_guardada w
      /\ lecturas_hora w' = S (S (S n))
      /\ forall u : Usuario,
           In u d ->
           let s := sesion_de u (hora (S (S (S n)))) in
           cabe_sesion s = true ->
           fst (login (u_usuario u) (u_password u) w')
           = Normal {| ra_exito := true; ra_mensaje := msg_bienvenido;
                       ra_usuario := Some s |})
  /\ (usuarios_de w = [] -> cabe_usuarios d = false ->
      fst (AuthManager_new w) = Lanza QuotaExceededError
      /\ usuarios_guardados w' = usuarios_guardados w
      /\ sesion_guardada w' = sesion_guardada w).
Proof.
  intros n d w'. split; [apply usuarios_de_vacio |].
  unfold w'. rewrite AuthManager_new_ok. split; [| split].
  - destruct (usuarios_de w); [congruence | reflexivity].
  - intros -> Hc. cbv zeta. fold n. fold d. rewrite Hc. cbn [fst snd].
    repeat (split; [reflexivity |]).
    intros u Hu Hs.
    destruct (usuariosPrueba_entran _ _ _ u Hu) as (H1 & H2 & H3).
    rewrite (login_ok _ _ _ H1 H2).
    change (usuarios_de (con_usuarios (Some (UArreglo d)) _)) with d.
    unfold d. rewrite H3. cbv zeta.
    cbn [lecturas_hora con_usuarios]. now rewrite Hs.
  - intros -> Hc. cbv zeta. fold n. fold d. rewrite Hc. cbn. auto.
Qed.

End Usuarios.

(* ===================================================================== *)
(** * [registrar] *)
(* ===================================================================== *)

Section Registrar.

Context {P : Plataforma} {Sis : Sistema}.

Lemma existsb_usuario (usuario : cadena) (l : list Usuario) :
  existsb (fun u => igual (u_usuario u) usuario) l = false
  <-> ~ In usuario (map u_usuario l).
Proof.
  induction l as [| u l IH]; cbn; [tauto |].
  rewrite orb_false_iff, IH, igual_falso. tauto.
Qed.

Lemma existsb_email (email : cadena) (l : list Usuario) :
  existsb (fun u => igual (u_email u) email) l = false
  <-> ~ In email (map u_email l).
Proof.
  induction l as [| u l IH]; cbn; [tauto |].
  rewrite orb_false_iff, IH, igual_falso. tauto.
Qed.

Lemma validarEmail_vacia : validarEmail [] = false.
Proof. reflexivity. Qed.

(** The world after the two clock readings of a registration. *)
Lemma registrar_ok (d : DatosRegistro) (w : MundoAuth) :
  registrar d w
  = if negb (3 <=? longitud (trim (dr_nombre d))) then
      (Normal (sin_exito msg_nombre_corto), w)
    else if negb (validarEmail (dr_email d)) then
      (Normal (sin_exito msg_email_invalido), w)
    else if negb (4 <=? longitud (trim (dr_usuario d))) then
      (Normal (sin_exito msg_usuario_corto), w)
    else if negb (6 <=? longitud (dr_password d)) then
      (Normal (sin_exito msg_password_corta), w)
    else if negb (igual (dr_password d) (dr_confirmPassword d)) then
      (Normal (sin_exito msg_no_coinciden), w)
    else if existsb (fun u => igual (u_usuario u) (dr_usuario d)) (usuarios_de w) then
      (Normal (sin_exito msg_usuario_existe), w)
    else if existsb (fun u => igual (u_email u) (dr_email d)) (usuarios_de w) then
      (Normal (sin_exito msg_email_registrado), w)
    else
      let n := lecturas_hora w in
      let u := usuario_nuevo d (hora n) (hora (S n)) in
      let w2 := {| usuarios_guardados := usuarios_guardados w;
                   sesion_guardada := sesion_guardada w;
                   lecturas_hora := S (S n) |} in
      if cabe_usuarios (usuarios_de w ++ [u]) then
        (Normal {| ra_exito := true; ra_mensaje := msg_cuenta_creada;
                   ra_usuario := None |},
         con_usuarios (Some (UArreglo (usuarios_de w ++ [u]))) w2)
      else (Lanza (Error msg_no_guardados), w2).
Proof.
  unfold registrar. cbv zeta.
  rewrite (prueba_longitud (dr_nombre d) 3) by lia.
  destruct (3 <=? longitud (trim (dr_nombre d))); cbn [negb]; [| reflexivity].
  assert (He : negb (verdadera (dr_email d)) || negb (validarEmail (dr_email d))
               = negb (validarEmail (dr_email d))).
  { destruct (dr_email d); reflexivity. }
  rewrite He.
  destruct (validarEmail (dr_email d)); cbn [negb]; [| reflexivity].
  rewrite (prueba_longitud (dr_usuario d) 4) by lia.
  destruct (4 <=? longitud (trim (dr_usuario d))); cbn [negb]; [| reflexivity].
  assert (Hp : negb (verdadera (dr_password d)) || (longitud (dr_password d) <? 6)
               = negb (6 <=? longitud (dr_password d))).
  { rewrite (Z.leb_antisym (longitud (dr_password d)) 6), negb_involutive.
    destruct (dr_password d); reflexivity. }
  rewrite Hp.
  destruct (6 <=? longitud (dr_password d)); cbn [negb]; [| reflexivity].
  destruct (igual (dr_password d) (dr_confirmPassword d)); cbn [negb];
    [| reflexivity].
  rewrite (ligarA_normal _ _ _ _ _ (obtenerUsuarios_ok w)).
  destruct (existsb _ (usuarios_de w)); [reflexivity |].
  destruct (existsb _ (usuarios_de w)); [reflexivity |].
  rewrite (ligarA_normal _ _ _ _ _ (Date_ahora_ok w)).
  rewrite (ligarA_normal _ _ _ _ _ (Date_ahora_ok _)).
  cbn [lecturas_hora usuarios_guardados sesion_guardada].
  unfold ligarA, guardarUsuarios, intentarA, setItem_usuarios, lanzarA.
  fold (usuario_nuevo d (hora (lecturas_hora w)) (hora (S (lecturas_hora w)))).
  destruct (cabe_usuarios _); reflexivity.
Qed.

Ltac ocho_partes :=
  split; [| split; [| split; [| split; [| split; [| split; [| split]]]]]].

Lemma leb_aceptable (k : Z) (s : cadena) :
  (k <=? longitud s) = true <-> k <= longitud s.
Proof. apply Z.leb_le. Qed.

(** X18.  [registrar] checks its conditions one after the other and
    answers with the message of the first that fails, unlike [validar],
    which collects them all: the name of three characters after
    [trim], the address that [validarEmail] accepts, the user name of
    four characters after [trim], the password of six, the
    confirmation equal to the password, no stored user with the user
    name as given, none with the address as given.  Whenever it answers
    without success, nothing is read from the clock and nothing is
    written. *)
Theorem registrar_comprueba_en_orden (w : MundoAuth) (d : DatosRegistro) :
  let l := usuarios_de w in
  (~ nombre_aceptable d ->
   registrar d w = (Normal (sin_exito msg_nombre_corto), w))
  /\ (nombre_aceptable d -> ~ direccion (dr_email d) ->
      registrar d w = (Normal (sin_exito msg_email_invalido), w))
  /\ (nombre_aceptable d -> direccion (dr_email d) -> ~ usuario_aceptable d ->
      registrar d w = (Normal (sin_exito msg_usuario_corto), w))
  /\ (nombre_aceptable d -> direccion (dr_email d) -> usuario_aceptable d ->
      ~ password_aceptable d ->
      registrar d w = (Normal (sin_exito msg_password_corta), w))
  /\ (nombre_aceptable d -> direccion (dr_email d) -> usuario_aceptable d ->
      password_aceptable d -> ~ password_confirmada d ->
      registrar d w = (Normal (sin_exito msg_no_coinciden), w))
  /\ (nombre_aceptable d -> direccion (dr_email d) -> usuario_aceptable d ->
      password_aceptable d -> password_confirmada d -> ~ usuario_libre d l ->
      registrar d w = (Normal (sin_exito msg_usuario_existe), w))
  /\ (nombre_aceptable d -> direccion (dr_email d) -> usuario_aceptable d ->
      password_aceptable d -> password_confirmada d -> usuario_libre d l ->
      ~ email_libre d l ->
      registrar d w = (Normal (sin_exito msg_email_registrado), w))
  /\ (forall res : ResultadoAuth,
        fst (registrar d w) = Normal res -> ra_exito res = false ->
        snd (registrar d w) = w).
Proof.
  intros l. rewrite registrar_ok.
  unfold nombre_aceptable, usuario_aceptable, password_aceptable,
    password_confirmada, usuario_libre, email_libre.
  rewrite <- validarEmail_direccion.
  rewrite <- (existsb_usuario (dr_usuario d) l), <- (existsb_email (dr_email d) l).
  rewrite <- (leb_aceptable 3), <- (leb_aceptable 4), <- (leb_aceptable 6).
  fold l.
  assert (Hig : igual (dr_password d) (dr_confirmPassword d) = true
                <-> dr_confirmPassword d = dr_password d).
  { rewrite igual_verdad. split; congruence. }
  rewrite <- Hig.
  destruct (3 <=? longitud (trim (dr_nombre d))); cbn [negb];
    [| ocho_partes; intros; cbn [fst snd]; congruence].
  destruct (validarEmail (dr_email d)); cbn [negb];
    [| ocho_partes; intros; cbn [fst snd]; congruence].
  destruct (4 <=? longitud (trim (dr_usuario d))); cbn [negb];
    [| ocho_partes; intros; cbn [fst snd]; congruence].
  destruct (6 <=? longitud (dr_password d)); cbn [negb];
    [| ocho_partes; intros; cbn [fst snd]; congruence].
  destruct (igual (dr_password d) (dr_confirmPassword d)); cbn [negb];
    [| ocho_partes; intros; cbn [fst snd]; congruence].
  destruct (existsb (fun u => igual (u_usuario u) (dr_usuario d)) l);
    [ocho_partes; intros; cbn [fst snd]; congruence |].
  destruct (existsb (fun u => igual (u_email u) (dr_email d)) l);
    [ocho_partes; intros; cbn [fst snd]; congruence |].
  cbv zeta. ocho_partes; try (intros; congruence).
  destruct (cabe_usuarios _); cbn [fst snd]; intros res [= <-]; discriminate.
Qed.

Lemma usuarios_de_con_usuarios (l : list Usuario) (w : MundoAuth) :
  usuarios_de (con_usuarios (Some (UArreglo l)) w) = l.
Proof. reflexivity. Qed.

(** [registrar] when every condition holds. *)
Lemma registrar_aceptado (w : MundoAuth) (d : DatosRegistro) :
  nombre_aceptable d -> direccion (dr_email d) -> usuario_aceptable d ->
  password_aceptable d -> password_confirmada d ->
  usuario_libre d (usuarios_de w) -> email_libre d (usuarios_de w) ->
  let n := lecturas_hora w in
  let u := usuario_nuevo d (hora n) (hora (S n)) in
  let w2 := {| usuarios_guardados := usuarios_guardados w;
               sesion_guardada := sesion_guardada w;
               lecturas_hora := S (S n) |} in
  registrar d w
  = if cabe_usuarios (usuarios_de w ++ [u]) then
      (Normal {| ra_exito := true; ra_mensaje := msg_cuenta_creada;
                 ra_usuario := None |},
       con_usuarios (Some (UArreglo (usuarios_de w ++ [u]))) w2)
    else (Lanza (Error msg_no_guardados), w2).
Proof.
  unfold nombre_aceptable, usuario_aceptable, password_aceptable,
    password_confirmada, usuario_libre, email_libre.
  intros H1 H2 H3 H4 H5 H6 H7. rewrite registrar_ok.
  apply leb_aceptable in H1, H3, H4. apply validarEmail_direccion in H2.
  apply existsb_usuario in H6. apply existsb_email in H7.
  assert (H5' : igual (dr_password d) (dr_confirmPassword d) = true).
  { apply igual_verdad. congruence. }
  now rewrite H1, H2, H3, H4, H5', H6, H7.
Qed.

Lemma find_app_usuario (f : Usuario -> bool) (l : list Usuario) (u : Usuario) :
  List.find f (l ++ [u])
  = match List.find f l with
    | Some v => Some v
    | None => if f u then Some u else None
    end.
Proof.
  induction l as [| x l IH]; cbn; [reflexivity |].
  destruct (f x); [reflexivity | exact IH].
Qed.

Lemma longitud_no_vacia (s : cadena) (k : Z) :
  0 < k -> k <= longitud s -> s <> [].
Proof. intros Hk Hs ->. unfold longitud in Hs. cbn [length] in Hs. lia. Qed.

(** X19.  When every condition of [registrar] holds and the storage
    takes the new array, the answer is the success and the stored users
    are those of before followed by the new one, whose name and user
    name are those given without the white space around them, whose
    address is the one given in lower case, and whose password is the
    one given; the session is not touched.  [login] with that user name
    and that password then finds a user and opens a session, which is
    the session of the new user when the user name was given without
    white space around it.  When the storage refuses the array,
    [registrar] throws the error of [guardarUsuarios] and the stored
    users are those of before. *)
Theorem registrar_y_despues_login (w : MundoAuth) (d : DatosRegistro) :
  nombre_aceptable d -> direccion (dr_email d) -> usuario_aceptable d ->
  password_aceptable d -> password_confirmada d ->
  usuario_libre d (usuarios_de w) -> email_libre d (usuarios_de w) ->
  let l := usuarios_de w in
  let n := lecturas_hora w in
  let u := usuario_nuevo d (hora n) (hora (S n)) in
  let w' := snd (registrar d w) in
  u_nombre u = trim (dr_nombre d)
  /\ u_usuario u = trim (dr_usuario d)
  /\ u_email u = toLowerCase (dr_email d)
  /\ u_password u = dr_password d
  /\ (cabe_usuarios (l ++ [u]) = true ->
      fst (registrar d w)
      = Normal {| ra_exito := true; ra_mensaje := msg_cuenta_creada;
                  ra_usuario := None |}
      /\ usuarios_de w' = l ++ [u]
      /\ sesion_guardada w' = sesion_guardada w
      /\ exists v : Usuario,
           In v (l ++ [u])
           /\ u_usuario v = trim (dr_usuario d)
           /\ u_password v = dr_password d
           /\ (trim (dr_usuario d) = dr_usuario d -> v = u)
           /\ let s := sesion_de v (hora (S (S n))) in
              (cabe_sesion s = true ->
               fst (login (trim (dr_usuario d)) (dr_password d) w')
               = Normal {| ra_exito := true; ra_mensaje := msg_bienvenido;
                           ra_usuario := Some s |}))
  /\ (cabe_usuarios (l ++ [u]) = false ->
      fst (registrar d w) = Lanza (Error msg_no_guardados)
      /\ usuarios_guardados w' = usuarios_guardados w
      /\ sesion_guardada w' = sesion_guardada w).
Proof.
  intros H1 H2 H3 H4 H5 H6 H7 l n u w'.
  pose proof (registrar_aceptado w d H1 H2 H3 H4 H5 H6 H7) as Hrun.
  cbv zeta in Hrun. fold l n u in Hrun.
  split; [reflexivity |]. split; [reflexivity |].
  split.
  { cbn. f_equal. apply trim_sin_blancos.
    now apply direccion_sin_blancos. }
  split; [reflexivity |].
  unfold w'. rewrite Hrun. split.
  - intros Hc. rewrite Hc. cbn [fst snd].
    split; [reflexivity |]. split; [reflexivity |]. split; [reflexivity |].
    assert (Hu : trim (dr_usuario d) <> []).
    { apply (longitud_no_vacia _ 4); [lia | exact H3]. }
    assert (Hp : dr_password d <> []).
    { apply (longitud_no_vacia _ 6); [lia | exact H4]. }
    pose proof (find_primero (credenciales (trim (dr_usuario d)) (dr_password d))
                  (l ++ [u])) as Hf.
    assert (Hfu : credenciales (trim (dr_usuario d)) (dr_password d) u = true).
    { apply credenciales_ok. split; reflexivity. }
    rewrite find_app_usuario, Hfu in Hf.
    destruct (List.find (credenciales (trim (dr_usuario d)) (dr_password d)) l)
      as [v |] eqn:Hfl.
    + destruct Hf as (i & Hi & Hv & _). apply credenciales_ok in Hv.
      destruct Hv as (Hv1 & Hv2).
      exists v. split.
      { apply list_elem_of_In. eapply list_elem_of_lookup_2; eauto. }
      split; [exact Hv1 |]. split; [exact Hv2 |]. split.
      * intros Ht. exfalso. apply H6. unfold l in Hfl.
        apply find_some in Hfl. destruct Hfl as (Hin & _).
        rewrite <- Ht, <- Hv1. now apply in_map.
      * intros Hs. rewrite (login_ok _ _ _ Hu Hp).
        rewrite usuarios_de_con_usuarios, find_app_usuario, Hfl.
        cbv zeta. cbn [lecturas_hora con_usuarios]. now rewrite Hs.
    + exists u. split; [apply in_or_app; right; now left |].
      split; [reflexivity |]. split; [reflexivity |]. split; [reflexivity |].
      intros Hs. rewrite (login_ok _ _ _ Hu Hp).
      rewrite usuarios_de_con_usuarios, find_app_usuario, Hfl, Hfu.
      cbv zeta. cbn [lecturas_hora con_usuarios]. now rewrite Hs.
  - intros Hc. rewrite Hc. cbn. auto.
Qed.

(** The users after [registrar]: those of before, and the new one when
    the answer is the success. *)
Lemma registrar_usuarios (w : MundoAuth) (d : DatosRegistro) :
  usuarios_de (snd (registrar d w)) = usuarios_de w
  \/ (usuarios_de (snd (registrar d w))
      = usuarios_de w
        ++ [usuario_nuevo d (hora (lecturas_hora w)) (hora (S (lecturas_hora w)))]
      /\ validarEmail (dr_email d) = true
      /\ usuario_libre d (usuarios_de w) /\ email_libre d (usuarios_de w)).
Proof.
  rewrite registrar_ok.
  destruct (negb (3 <=? _)); [now left |].
  destruct (validarEmail (dr_email d)) eqn:He; cbn [negb]; [| now left].
  destruct (negb (4 <=? _)); [now left |].
  destruct (negb (6 <=? _)); [now left |].
  destruct (negb (igual _ _)); [now left |].
  destruct (existsb (fun u => igual (u_usuario u) (dr_usuario d)) (usuarios_de w))
    eqn:H1; [now left |].
  destruct (existsb (fun u => igual (u_email u) (dr_email d)) (usuarios_de w))
    eqn:H2; [now left |].
  cbv zeta. destruct (cabe_usuarios _); [| left; reflexivity].
  right. cbn [snd]. rewrite usuarios_de_con_usuarios.
  split; [reflexivity |]. split; [reflexivity |].
  split; [now apply existsb_usuario | now apply existsb_email].
Qed.

Lemma NoDup_map_app_uno {A} (f : Usuario -> A) (l : list Usuario) (u : Usuario) :
  NoDup (map f l) -> ~ In (f u) (map f l) -> NoDup (map f (l ++ [u])).
Proof.
  intros Hnd Hno. rewrite map_app. cbn [map].
  apply NoDup_app. split; [exact Hnd |]. split; [| apply NoDup_singleton].
  intros x Hx Hx'. apply list_elem_of_In in Hx. apply list_elem_of_In in Hx'.
  cbn in Hx'. destruct Hx' as [<- | []]. contradiction.
Qed.

(** X20.  [registrar] keeps the stored user names distinct when the
    user name comes without white space around it, and the stored
    addresses distinct when the address comes in lower case: what it
    compares with the stored users is then what it stores. *)
Theorem registrar_conserva_nombres_y_emails_distintos
    (w : MundoAuth) (d : DatosRegistro) :
  let w' := snd (registrar d w) in
  (NoDup (map u_usuario (usuarios_de w)) ->
   trim (dr_usuario d) = dr_usuario d ->
   NoDup (map u_usuario (usuarios_de w')))
  /\ (NoDup (map u_email (usuarios_de w)) ->
      toLowerCase (dr_email d) = dr_email d ->
      NoDup (map u_email (usuarios_de w'))).
Proof.
  intros w'. unfold w'.
  destruct (registrar_usuarios w d) as [-> | (-> & He & Hu & Hm)];
    [split; auto |].
  split.
  - intros Hnd Ht. apply NoDup_map_app_uno; [exact Hnd |].
    cbn. rewrite Ht. exact Hu.
  - intros Hnd Hl. apply NoDup_map_app_uno; [exact Hnd |].
    cbn. rewrite trim_sin_blancos.
    + rewrite Hl. exact Hm.
    + now apply direccion_sin_blancos, validarEmail_direccion.
Qed.

(** X21.  [registrar] looks for the user name as it is given and stores
    it without the white space around it.  So when the user name given
    is the name of a stored user with white space around it, and the
    other conditions hold, [registrar] answers with the success and two
    stored users have the same user name. *)
Theorem registrar_acepta_un_nombre_repetido
    (w : MundoAuth) (d : DatosRegistro) (u0 : Usuario) :
  In u0 (usuarios_de w) ->
  trim (dr_usuario d) = u_usuario u0 ->
  nombre_aceptable d -> direccion (dr_email d) -> usuario_aceptable d ->
  password_aceptable d -> password_confirmada d ->
  usuario_libre d (usuarios_de w) -> email_libre d (usuarios_de w) ->
  let n := lecturas_hora w in
  let u := usuario_nuevo d (hora n) (hora (S n)) in
  let w' := snd (registrar d w) in
  cabe_usuarios (usuarios_de w ++ [u]) = true ->
  dr_usuario d <> u_usuario u0
  /\ fst (registrar d w)
     = Normal {| ra_exito := true; ra_mensaje := msg_cuenta_creada;
                 ra_usuario := None |}
  /\ usuarios_de w' = usuarios_de w ++ [u]
  /\ u_usuario u = u_usuario u0
  /\ ~ NoDup (map u_usuario (usuarios_de w')).
Proof.
  intros Hin Ht H1 H2 H3 H4 H5 H6 H7 n u w' Hc.
  pose proof (registrar_aceptado w d H1 H2 H3 H4 H5 H6 H7) as Hrun.
  cbv zeta in Hrun. fold n u in Hrun. rewrite Hc in Hrun.
  unfold w'. rewrite Hrun. cbn [fst snd]. rewrite usuarios_de_con_usuarios.
  split.
  { intros Heq. apply H6. rewrite Heq. now apply in_map. }
  split; [reflexivity |]. split; [reflexivity |]. split; [exact Ht |].
  rewrite map_app. cbn [map]. intros Hnd.
  apply NoDup_app in Hnd. destruct Hnd as (_ & Hdis & _).
  apply (Hdis (u_usuario u0)).
  - apply list_elem_of_In. now apply in_map.
  - apply list_elem_of_In. left. exact Ht.
Qed.

End Registrar.

(* ===================================================================== *)
(** * Worked examples *)
(* ===================================================================== *)

Import Ejemplo.

(** A world defined as the outcome of a constructor call followed by
    calls is reachable. *)
Ltac es_alcanzable En w0 cs :=
  exists w0, (snd (PeliculaManager_new (E := En) w0)), cs;
  split; vm_compute; reflexivity.

(** ** Validation *)

(** A record with every field wrong collects the seven messages, in the
    order of the rules. *)
Example validar_todo_mal :
  fst (validar (E := entorno_que_avanza)
         (actualizada (js "peli-1") datos_invalidos pelicula_sin_titulo)
         mundo_sembrado)
  = Normal {| valido := false; errores := mensajes |}.
Proof. vm_compute. reflexivity. Qed.

Example validar_todo_bien :
  fst (validar (E := entorno_que_avanza)
         (actualizada (js "peli-1") datos_validos pelicula_sin_titulo)
         mundo_sembrado)
  = Normal {| valido := true; errores := [] |}.
Proof. vm_compute. reflexivity. Qed.

(** ** Loading *)

(** With a storage that takes nothing, the constructor of the manager
    throws instead of returning, whether the entry is not JSON or
    missing. *)
Example constructor_sin_cuota :
  fst (PeliculaManager_new (E := entorno_sin_cuota) (mundo_inicial (Some NoJSON)))
  = Lanza (Error msg_no_guardadas)
  /\ fst (PeliculaManager_new (E := entorno_sin_cuota) (mundo_inicial None))
     = Lanza (Error msg_no_guardadas).
Proof.
  split.
  - apply (cargar_sin_cuota (E := entorno_sin_cuota)); reflexivity.
  - vm_compute. reflexivity.
Qed.

(** C1, counterexample.  After the eight default films are deleted, the
    storage holds the text of an empty array; the constructor then
    returns with an empty collection, not with the default set. *)
Lemma recargar_coleccion_vacia_no_siembra :
  alcanzable (E := entorno_que_avanza) mundo_vaciado
  /\ items mundo_vaciado = []
  /\ almacen mundo_vaciado = Some (JSON_stringify (map toJSON []))
  /\ PeliculaManager_new (E := entorno_que_avanza) mundo_vaciado
     = (Normal tt, mundo_recargado)
  /\ items mundo_recargado = []
  /\ items mundo_recargado
     <> peliculasIniciales_en (E := entorno_que_avanza) mundo_vaciado.
Proof.
  split.
  { es_alcanzable entorno_que_avanza (mundo_inicial None) (map Eliminar (ids (items mundo_sembrado))). }
  split; [vm_compute; reflexivity |].
  split; [vm_compute; reflexivity |].
  split; [vm_compute; reflexivity |].
  split; [vm_compute; reflexivity |].
  vm_compute. discriminate.
Qed.

Lemma cargar_o_sembrar_testigo :
  cuota (Entorno := entorno_que_avanza)
    (JSON_stringify
       (map toJSON
          (peliculasIniciales_en (E := entorno_que_avanza) (mundo_inicial None))))
  = true
  /\ exists w' : Mundo,
       PeliculaManager_new (E := entorno_que_avanza) (mundo_inicial None)
       = (Normal tt, w')
       /\ items w'
          = peliculasIniciales_en (E := entorno_que_avanza) (mundo_inicial None)
       /\ length (items w') = 8%nat.
Proof.
  split; [reflexivity |].
  destruct (cargar_o_sembrar (E := entorno_que_avanza) (mundo_inicial None)
              eq_refl) as (w' & Hnew & Hit & _).
  exists w'. split; [exact Hnew |]. split; [exact Hit |].
  rewrite Hit. reflexivity.
Defined.

(** C2, counterexample.  A stored record with an empty title is loaded
    into the collection, where it fails [validar] in every year. *)
Lemma carga_acepta_registro_invalido :
  alcanzable (E := entorno_que_avanza) mundo_con_registro_invalido
  /\ items mundo_con_registro_invalido = [pelicula_sin_titulo]
  /\ fst (validar (E := entorno_que_avanza) pelicula_sin_titulo
            mundo_con_registro_invalido)
     = Normal {| valido := false; errores := [msg_titulo] |}
  /\ forall y : Z, ~ cumple y pelicula_sin_titulo.
Proof.
  split.
  { es_alcanzable entorno_que_avanza
      (mundo_inicial (Some (JSONArreglo [registro_sin_titulo])))
      (@nil llamada). }
  split; [vm_compute; reflexivity |].
  split; [vm_compute; reflexivity |].
  intros y. unfold cumple, violadas, veredictos, mensajes.
  change (regla_titulo pelicula_sin_titulo) with false.
  cbn [seleccionar]. discriminate.
Qed.

Lemma solo_entran_registros_validos_testigo :
  let w := mundo_tres_seguidas entorno_detenido in
  let cs := [Actualizar (id_generado (E := entorno_detenido) 0 0) datos_invalidos;
             Agregar (alien None);
             Eliminar (id_generado (E := entorno_detenido) 0 1)] in
  (forall n m : nat,
     (n <= m)%nat ->
     getFullYear (reloj (Entorno := entorno_detenido) n)
     <= getFullYear (reloj (Entorno := entorno_detenido) m))
  /\ alcanzable (E := entorno_detenido) w
  /\ Forall (cumple (ano_actual (E := entorno_detenido) w)) (items w)
  /\ Forall (cumple (ano_actual (E := entorno_detenido)
                       (correr (E := entorno_detenido) cs w)))
       (items (correr (E := entorno_detenido) cs w))
  /\ length (items (correr (E := entorno_detenido) cs w)) = 3%nat.
Proof.
  intros w cs.
  assert (Hreloj : forall n m : nat,
    (n <= m)%nat ->
    getFullYear (reloj (Entorno := entorno_detenido) n)
    <= getFullYear (reloj (Entorno := entorno_detenido) m)).
  { intros n m _. cbn. lia. }
  assert (Hw : alcanzable (E := entorno_detenido) w).
  { es_alcanzable entorno_detenido (mundo_inicial (Some (JSONArreglo [])))
      [Agregar (alien None); Agregar (aliens None); Agregar (alien3 None)]. }
  assert (Hval : Forall (cumple (ano_actual (E := entorno_detenido) w)) (items w)).
  { unfold cumple. apply (bool_decide_unpack _). vm_compute. exact I. }
  split; [exact Hreloj |]. split; [exact Hw |]. split; [exact Hval |].
  split.
  - exact (proj1 (solo_entran_registros_validos (E := entorno_detenido) w
                    Hreloj Hw Hval) cs).
  - vm_compute. reflexivity.
Defined.

(** ** Identifiers *)

(** C5, counterexample.  Two films added with the same explicit
    identifier are both in the collection. *)
Lemma agregar_acepta_id_repetido :
  alcanzable (E := entorno_que_avanza) mundo_con_id_repetido
  /\ ids (items mundo_con_id_repetido) = [js "peli-1"; js "peli-1"]
  /\ ~ NoDup (ids (items mundo_con_id_repetido)).
Proof.
  assert (Hids : ids (items mundo_con_id_repetido) = [js "peli-1"; js "peli-1"]).
  { vm_compute. reflexivity. }
  split.
  { es_alcanzable entorno_que_avanza (mundo_inicial (Some (JSONArreglo [])))
      [Agregar (alien (Some "peli-1"%string));
       Agregar (aliens (Some "peli-1"%string))]. }
  split; [exact Hids |].
  rewrite Hids. intros H. apply NoDup_cons in H as [Hn _].
  apply Hn. apply list_elem_of_here.
Qed.

Lemma ids_distintos_se_conservan_testigo :
  alcanzable (E := entorno_que_avanza) mundo_sembrado
  /\ NoDup (ids (items mundo_sembrado))
  /\ NoDup (ids (items (snd (actualizar (E := entorno_que_avanza)
                               (id_generado (E := entorno_que_avanza) 0 0)
                               datos_validos mundo_sembrado))))
  /\ NoDup (ids (items (snd (eliminar (E := entorno_que_avanza)
                               (id_generado (E := entorno_que_avanza) 2 1)
                               mundo_sembrado)))).
Proof.
  assert (Hw : alcanzable (E := entorno_que_avanza) mundo_sembrado).
  { es_alcanzable entorno_que_avanza (mundo_inicial None) (@nil llamada). }
  assert (Hnd : NoDup (ids (items mundo_sembrado))).
  { apply (bool_decide_unpack _). vm_compute. exact I. }
  split; [exact Hw |]. split; [exact Hnd |].
  pose proof (ids_distintos_se_conservan (E := entorno_que_avanza)
                mundo_sembrado Hw Hnd) as (Hact & Heli & _).
  split; [apply Hact | apply Heli].
Defined.

(** C6, counterexample.  With two records under one identifier,
    [eliminar] removes the first, and [obtenerPorId] then returns the
    second instead of finding nothing. *)
Lemma eliminar_deja_otro_registro_con_el_id :
  let w' := snd (eliminar (E := entorno_que_avanza) (js "peli-1")
                   mundo_con_id_repetido) in
  alcanzable (E := entorno_que_avanza) mundo_con_id_repetido
  /\ (exists p : Pelicula,
        fst (obtenerPorId (js "peli-1") mundo_con_id_repetido) = Normal (Some p)
        /\ titulo p = js "Alien")
  /\ (exists p : Pelicula,
        fst (obtenerPorId (js "peli-1") w') = Normal (Some p)
        /\ titulo p = js "Aliens")
  /\ fst (obtenerPorId (js "peli-1") w') <> Normal None.
Proof.
  intros w'. split.
  { es_alcanzable entorno_que_avanza (mundo_inicial (Some (JSONArreglo [])))
      [Agregar (alien (Some "peli-1"%string));
       Agregar (aliens (Some "peli-1"%string))]. }
  split.
  { eexists. split; [vm_compute; reflexivity | vm_compute; reflexivity]. }
  split.
  { eexists. split; [vm_compute; reflexivity | vm_compute; reflexivity]. }
  vm_compute. discriminate.
Qed.

Lemma eliminar_quita_el_primero_testigo :
  let ident := id_generado (E := entorno_que_avanza) 2 1 in
  let w' := snd (eliminar (E := entorno_que_avanza) ident mundo_sembrado) in
  alcanzable (E := entorno_que_avanza) mundo_sembrado
  /\ length (items mundo_sembrado) = 8%nat
  /\ length (items w') = 7%nat
  /\ fst (obtenerPorId ident w') = Normal None.
Proof.
  intros ident w'.
  assert (Hw : alcanzable (E := entorno_que_avanza) mundo_sembrado).
  { es_alcanzable entorno_que_avanza (mundo_inicial None) (@nil llamada). }
  assert (Hnd : NoDup (ids (items mundo_sembrado))).
  { apply (bool_decide_unpack _). vm_compute. exact I. }
  assert (H8 : length (items mundo_sembrado) = 8%nat) by (vm_compute; reflexivity).
  split; [exact Hw |]. split; [exact H8 |].
  pose proof (eliminar_quita_el_primero (E := entorno_que_avanza)
                mundo_sembrado ident Hw) as T.
  cbv zeta in T. fold w' in T.
  remember (fst (obtenerPorId ident mundo_sembrado)) as o eqn:Ho in T.
  vm_compute in Ho. subst o. cbv beta iota in T.
  destruct T as (n & _ & _ & _ & _ & Hlen & _ & Hno & _).
  split; [rewrite H8 in Hlen; lia | exact (Hno Hnd)].
Defined.

(** ** [actualizar] *)

(** The example platform obeys the laws of the two conversions. *)

Lemma leer_digitos_acumula (d : Decimal.uint) (n : nat) (p : positive) :
  leer_digitos 10 (bytes_de (NilEmpty.string_of_uint d)) n (Z.pos p)
  = ((n + length (bytes_de (NilEmpty.string_of_uint d)))%nat,
     Z.pos (Pos.of_uint_acc d p), []).
Proof.
  revert n p.
  induction d as [| d IH | d IH | d IH | d IH | d IH | d IH | d IH | d IH
                  | d IH | d IH];
    intros n p;
    [cbn; now rewrite Nat.add_0_r | ..];
    cbn [NilEmpty.string_of_uint bytes_de leer_digitos length Pos.of_uint_acc];
    match goal with
    | |- context [valor_en_base 10 ?c] =>
      let v := eval vm_compute in (valor_en_base 10 c) in
      change (valor_en_base 10 c) with v
    end;
    cbv iota beta;
    match goal with
    | |- leer_digitos _ _ _ ?a = (_, Z.pos (Pos.of_uint_acc _ ?q), _) =>
      replace a with (Z.pos q) by lia
    end;
    rewrite IH; f_equal; f_equal; lia.
Qed.

Lemma leer_digitos_decimal (d : Decimal.uint) (n : nat) :
  leer_digitos 10 (bytes_de (NilEmpty.string_of_uint d)) n 0
  = ((n + length (bytes_de (NilEmpty.string_of_uint d)))%nat,
     Z.of_N (Pos.of_uint d), []).
Proof.
  revert n.
  induction d as [| d IH | d IH | d IH | d IH | d IH | d IH | d IH | d IH
                  | d IH | d IH];
    intros n;
    [cbn; now rewrite Nat.add_0_r | ..];
    cbn [NilEmpty.string_of_uint bytes_de leer_digitos length Pos.of_uint];
    match goal with
    | |- context [valor_en_base 10 ?c] =>
      let v := eval vm_compute in (valor_en_base 10 c) in
      change (valor_en_base 10 c) with v
    end;
    cbv iota beta;
    [ change (0 * 10 + 0) with 0; rewrite IH; f_equal; f_equal; lia | ..];
    match goal with
    | |- leer_digitos _ _ _ ?a = _ =>
      let v := eval vm_compute in a in change a with v
    end;
    rewrite leer_digitos_acumula; cbn [Z.of_N]; f_equal; f_equal; lia.
Qed.

Ltac cifras_al_frente :=
  cbn [NilEmpty.string_of_uint bytes_de] in *;
  repeat match goal with
  | H : context [N_of_ascii ?a] |- _ =>
    let c := eval vm_compute in (N_of_ascii a) in
    change (N_of_ascii a) with c in H
  | |- context [N_of_ascii ?a] =>
    let c := eval vm_compute in (N_of_ascii a) in
    change (N_of_ascii a) with c
  end.

(** The decimal text of a positive integer begins with a digit, and no
    [x] follows a leading zero. *)
Lemma parseInt_cadena_digitos (d : Decimal.uint) (menos : bool) :
  d <> Decimal.Nil ->
  let s := bytes_de (NilEmpty.string_of_uint d) in
  parseInt_cadena (if menos then 45%N :: s else s)
  = Entero (if menos then - Z.of_N (Pos.of_uint d) else Z.of_N (Pos.of_uint d)).
Proof.
  intros Hd s.
  assert (Hq : quitar_blancos s = s).
  { unfold s. destruct d; [congruence | ..]; reflexivity. }
  assert (Hs : leer_signo s = (false, s)).
  { unfold s. destruct d; [congruence | ..]; reflexivity. }
  assert (Hl : exists k : nat,
    leer_digitos 10 s 0 0 = (S k, Z.of_N (Pos.of_uint d), [])).
  { unfold s. rewrite leer_digitos_decimal.
    destruct d; [congruence | ..]; cbn [NilEmpty.string_of_uint bytes_de length];
      eexists; reflexivity. }
  destruct Hl as (k & Hl).
  assert (Hp : parseInt_cadena s = Entero (Z.of_N (Pos.of_uint d))
               /\ parseInt_cadena (45%N :: s)
                  = Entero (- Z.of_N (Pos.of_uint d))).
  { unfold parseInt_cadena.
    change (quitar_blancos (45%N :: s)) with (45%N :: s).
    change (leer_signo (45%N :: s)) with (true, s).
    rewrite Hq, Hs. cbv beta iota.
    generalize (Z.of_N (Pos.of_uint d)) Hl. clear Hl Hq Hs. unfold s. clear s.
    intros v Hl.
    destruct d as [| d | d | d | d | d | d | d | d | d | d];
      [congruence | ..]; cifras_al_frente;
      try (cbv beta iota; rewrite Hl; split; reflexivity).
    destruct d; cifras_al_frente; cbv beta iota; rewrite Hl; split; reflexivity. }
  destruct menos; tauto.
Qed.

Lemma parseInt_ejemplo_decimal (z : Z) :
  parseInt_ejemplo (Vcadena (decimal z)) = Entero z.
Proof.
  unfold parseInt_ejemplo, decimal. destruct z as [| p | p].
  - reflexivity.
  - cbn [Z.to_int NilZero.string_of_int].
    assert (Hd := DecimalPos.Unsigned.to_uint_nonnil p).
    unfold NilZero.string_of_uint.
    destruct (Pos.to_uint p) as [| d | d | d | d | d | d | d | d | d | d] eqn:Hp;
      [congruence | ..];
      rewrite <- Hp in *;
      rewrite (parseInt_cadena_digitos (Pos.to_uint p) false Hd);
      now rewrite DecimalPos.Unsigned.of_to.
  - cbn [Z.to_int NilZero.string_of_int bytes_de].
    assert (Hd := DecimalPos.Unsigned.to_uint_nonnil p).
    unfold NilZero.string_of_uint.
    destruct (Pos.to_uint p) as [| d | d | d | d | d | d | d | d | d | d] eqn:Hp;
      [congruence | ..];
      rewrite <- Hp in *;
      change (N_of_ascii "-") with 45%N;
      rewrite (parseInt_cadena_digitos (Pos.to_uint p) true Hd);
      now rewrite DecimalPos.Unsigned.of_to.
Qed.

Lemma conversiones_de_la_plataforma : Conversiones plataforma.
Proof.
  split.
  - intros z Hz. cbn. apply Z.ltb_lt in Hz. now rewrite Hz.
  - intros z _. apply parseInt_ejemplo_decimal.
  - reflexivity.
Qed.

(** C4, counterexample.  A payload whose year is the text [1979.9xyz]
    and whose rating is the text [8.5abc] passes [validar]; the record
    that [obtenerPorId] returns afterwards has the year 1979 and the
    rating 8.5, which are not the values supplied, and it is the record
    that the payload with [1979] and [8.5] gives. *)
Lemma actualizar_guarda_lo_que_las_conversiones_leen :
  let ident := js "peli-1" in
  let w := mundo_con_id_repetido in
  let w' := snd (actualizar (E := entorno_que_avanza) ident datos_con_resto w) in
  alcanzable (E := entorno_que_avanza) w
  /\ d_ano datos_con_resto = Vcadena (js "1979.9xyz")
  /\ d_calificacion datos_con_resto = Vcadena (js "8.5abc")
  /\ fst (actualizar (E := entorno_que_avanza) ident datos_con_resto w)
     = Normal (aceptada msg_actualizada None)
  /\ (exists q : Pelicula,
        fst (obtenerPorId ident w') = Normal (Some q)
        /\ ano q = Entero 1979
        /\ calificacion q = literal_decimal 85
        /\ d_ano datos_con_resto <> Ventero 1979
        /\ d_ano datos_con_resto <> Vcadena (decimal 1979)
        /\ d_calificacion datos_con_resto <> Vnumero (literal_decimal 85))
  /\ datos_con_resto <> datos_validos
  /\ w' = snd (actualizar (E := entorno_que_avanza) ident datos_validos w).
Proof.
  cbv zeta.
  split.
  { es_alcanzable entorno_que_avanza (mundo_inicial (Some (JSONArreglo [])))
      [Agregar (alien (Some "peli-1"%string));
       Agregar (aliens (Some "peli-1"%string))]. }
  split; [reflexivity |]. split; [reflexivity |].
  split; [vm_compute; reflexivity |].
  split.
  { eexists. split; [vm_compute; reflexivity |].
    split; [vm_compute; reflexivity |]. split; [vm_compute; reflexivity |].
    split; [discriminate |]. split; vm_compute; discriminate. }
  split; [vm_compute; discriminate |].
  vm_compute. reflexivity.
Qed.

Lemma actualizar_reemplaza_en_su_lugar_testigo :
  let ident := js "peli-1" in
  let w := mundo_con_id_repetido in
  let w' := snd (actualizar (E := entorno_que_avanza) ident datos_validos w) in
  let wn := snd (actualizar (E := entorno_que_avanza) ident datos_numericos w) in
  alcanzable (E := entorno_que_avanza) w
  /\ exists original : Pelicula,
       fst (obtenerPorId ident w) = Normal (Some original)
       /\ items w' = <[0%nat := actualizada ident datos_validos original]> (items w)
       /\ fst (obtenerPorId ident w')
          = Normal (Some (actualizada ident datos_validos original))
       /\ ano (actualizada ident datos_validos original) = Entero 1979
       /\ ano (actualizada ident datos_numericos original) = Entero 1979
       /\ calificacion (actualizada ident datos_numericos original)
          = literal_decimal 85
       /\ fst (obtenerPorId ident wn)
          = Normal (Some (actualizada ident datos_numericos original)).
Proof.
  intros ident w w' wn.
  assert (Hw : alcanzable (E := entorno_que_avanza) w).
  { es_alcanzable entorno_que_avanza (mundo_inicial (Some (JSONArreglo [])))
      [Agregar (alien (Some "peli-1"%string));
       Agregar (aliens (Some "peli-1"%string))]. }
  split; [exact Hw |].
  pose proof (actualizar_reemplaza_en_su_lugar (E := entorno_que_avanza)
                w ident datos_validos Hw) as T.
  pose proof (actualizar_reemplaza_en_su_lugar (E := entorno_que_avanza)
                w ident datos_numericos Hw) as Tn.
  cbv zeta in T, Tn. fold w' in T. fold wn in Tn.
  destruct (fst (obtenerPorId ident w)) as [[original |] | e] eqn:Ho.
  - exists original. split; [reflexivity |].
    destruct T as (_ & _ & _ & _ & _ & _ & _ & _ & _ & Hley & n & v & Hn & Hv & Hif).
    destruct Tn as (_ & _ & _ & _ & _ & _ & _ & _ & _ & Hleyn
                    & n' & v' & Hn' & Hv' & Hif').
    destruct (Hley conversiones_de_la_plataforma) as (_ & Hdec & _).
    destruct (Hleyn conversiones_de_la_plataforma) as (Hent & _ & Hnum).
    assert (Horig : Normal (Some original) = fst (obtenerPorId ident w))
      by (symmetry; exact Ho).
    vm_compute in Horig. injection Horig as ->.
    assert (H0 : n = 0%nat).
    { destruct n as [| [| n]]; [reflexivity | exfalso | exfalso].
      - vm_compute in Hn. discriminate Hn.
      - vm_compute in Hn. discriminate Hn. }
    assert (H0' : n' = 0%nat).
    { destruct n' as [| [| n']]; [reflexivity | exfalso | exfalso].
      - vm_compute in Hn'. discriminate Hn'.
      - vm_compute in Hn'. discriminate Hn'. }
    subst n n'.
    vm_compute in Hv. injection Hv as <-. cbv beta iota in Hif.
    vm_compute in Hv'. injection Hv' as <-. cbv beta iota in Hif'.
    destruct Hif as (Hit & _ & Hid & _). destruct Hif' as (_ & _ & Hid' & _).
    split; [exact Hit |]. split; [exact Hid |].
    split; [apply (Hdec 1979); [reflexivity | vm_compute; discriminate] |].
    split; [apply (Hent 1979); [reflexivity | reflexivity] |].
    split; [| exact Hid'].
    assert (Hlit : exists s m e,
      literal_decimal 85 = S754_finite s m e /\ bounded 53 1024 m e = true).
    { vm_compute. eauto. }
    destruct Hlit as (s & m & e & Hlit & Hb).
    rewrite Hlit. apply Hnum; [| exact Hb].
    cbn [d_calificacion datos_numericos]. now rewrite Hlit.
  - exfalso. vm_compute in Ho. discriminate Ho.
  - exact (False_ind _ T).
Defined.

Lemma actualizar_sin_registro_testigo :
  alcanzable (E := entorno_que_avanza) mundo_sembrado
  /\ ~ In (js "peli-1") (ids (items mundo_sembrado))
  /\ actualizar (E := entorno_que_avanza) (js "peli-1") datos_invalidos
       mundo_sembrado
     = (Normal no_encontrada, mundo_sembrado).
Proof.
  assert (Hw : alcanzable (E := entorno_que_avanza) mundo_sembrado).
  { es_alcanzable entorno_que_avanza (mundo_inicial None) (@nil llamada). }
  assert (Hno : ~ In (js "peli-1") (ids (items mundo_sembrado))).
  { rewrite <- list_elem_of_In. apply (bool_decide_unpack _).
    vm_compute. exact I. }
  split; [exact Hw |]. split; [exact Hno |].
  exact (actualizar_sin_registro (E := entorno_que_avanza) mundo_sembrado
           (js "peli-1") datos_invalidos Hw Hno).
Defined.

(** ** Queries *)

Lemma consultas_no_modifican_testigo :
  alcanzable (E := entorno_que_avanza) mundo_sembrado
  /\ exists (v : respuesta) (w' : Mundo),
       consultar (QordenarPorCalificacion (Some false)) mundo_sembrado
       = (Normal v, w')
       /\ items w' = items mundo_sembrado
       /\ almacen w' = almacen mundo_sembrado
       /\ escrituras w' = escrituras mundo_sembrado.
Proof.
  assert (Hw : alcanzable (E := entorno_que_avanza) mundo_sembrado).
  { es_alcanzable entorno_que_avanza (mundo_inicial None) (@nil llamada). }
  split; [exact Hw |].
  destruct (consultas_no_modifican (E := entorno_que_avanza) mundo_sembrado
              (QordenarPorCalificacion (Some false)) Hw)
    as (v & w' & Hrun & _ & Hit & Hal & Hes & _).
  exists v, w'. auto.
Defined.

Lemma buscarYFiltrar_en_cualquier_orden_testigo :
  alcanzable (E := entorno_que_avanza) mundo_sembrado
  /\ exists lbf : list Pelicula,
       elementos (buscarYFiltrar (js "NOLAN") (js "Ciencia Ficción"))
         mundo_sembrado = Some lbf
       /\ lbf = List.filter
                  (fun p => coincide_genero (js "Ciencia Ficción") p
                            && coincide_termino (js "NOLAN") p)
                  (items mundo_sembrado)
       /\ map titulo lbf = [js "Inception"; js "Interestelar"].
Proof.
  assert (Hw : alcanzable (E := entorno_que_avanza) mundo_sembrado).
  { es_alcanzable entorno_que_avanza (mundo_inicial None) (@nil llamada). }
  split; [exact Hw |].
  destruct (buscarYFiltrar_en_cualquier_orden (E := entorno_que_avanza)
              mundo_sembrado (js "NOLAN") (js "Ciencia Ficción") Hw)
    as (lb & lg & lbf & _ & _ & Hbf & _ & _ & Hit & _).
  exists lbf. split; [exact Hbf |]. split; [exact Hit |].
  rewrite Hit. vm_compute. reflexivity.
Defined.

Example ordenarPorCalificacion_semillas :
  option_map (map titulo)
    (elementos (ordenarPorCalificacion None) mundo_sembrado)
  = Some [js "El Padrino"; js "Pulp Fiction";
          js "El Señor de los Anillos: El Retorno del Rey";
          js "Inception"; js "Forrest Gump"; js "Matrix";
          js "Interestelar"; js "Gladiador"].
Proof. vm_compute. reflexivity. Qed.

(** ** The most recent records *)

(** C8, counterexample.  Three films created one after the other within
    one millisecond have the same creation date; the sort leaves them in
    the order of the collection, and [obtenerRecientes(2)] returns the
    first two, not the last two reversed. *)
Lemma recientes_con_la_misma_fecha :
  let w := mundo_tres_seguidas entorno_detenido in
  alcanzable (E := entorno_detenido) w
  /\ exists a b c : Pelicula,
       items w = [a; b; c]
       /\ titulo a = js "Alien" /\ titulo b = js "Aliens"
       /\ titulo c = js "Alien 3"
       /\ elementos (obtenerRecientes (Some 2)) w = Some [a; b]
       /\ elementos (obtenerRecientes (Some 2)) w <> Some [c; b].
Proof.
  intros w. split.
  { es_alcanzable entorno_detenido (mundo_inicial (Some (JSONArreglo [])))
      [Agregar (alien None); Agregar (aliens None); Agregar (alien3 None)]. }
  eexists _, _, _. split; [vm_compute; reflexivity |].
  split; [vm_compute; reflexivity |].
  split; [vm_compute; reflexivity |].
  split; [vm_compute; reflexivity |].
  split; [vm_compute; reflexivity |].
  vm_compute. discriminate.
Qed.

Lemma obtenerRecientes_devuelve_los_ultimos_testigo :
  let w := mundo_tres_seguidas entorno_que_avanza in
  alcanzable (E := entorno_que_avanza) w
  /\ option_map (map titulo) (elementos (obtenerRecientes (Some 2)) w)
     = Some [js "Alien 3"; js "Aliens"]
  /\ Permutation (ordenar cmp_recientes (items w)) (items w).
Proof.
  intros w.
  assert (Hw : alcanzable (E := entorno_que_avanza) w).
  { es_alcanzable entorno_que_avanza (mundo_inicial (Some (JSONArreglo [])))
      [Agregar (alien None); Agregar (aliens None); Agregar (alien3 None)]. }
  split; [exact Hw |].
  pose proof (obtenerRecientes_devuelve_los_ultimos (E := entorno_que_avanza)
                w 2 Hw) as T.
  cbv zeta in T. destruct T as (Hperm & _ & _ & _ & Hel & _).
  split; [| exact Hperm].
  change (Z.of_nat 2) with 2 in Hel. rewrite Hel. vm_compute. reflexivity.
Defined.

(* ===================================================================== *)
(** * Worked examples for the visits and for the users *)
(* ===================================================================== *)

Import EjemploUsuarios.

Lemma mundo_sembrado_alcanzable :
  alcanzable (E := entorno_que_avanza) mundo_sembrado.
Proof.
  es_alcanzable entorno_que_avanza (mundo_inicial None) (@nil llamada).
Qed.

Lemma pelicula_nueva_valida :
  violadas (ano_actual (E := entorno_que_avanza) mundo_sembrado) pelicula_nueva
  = [].
Proof. vm_compute. reflexivity. Qed.

Lemma pelicula_nueva_sin_par :
  ~ In (id pelicula_nueva) (ids (items mundo_sembrado)).
Proof.
  rewrite <- list_elem_of_In. apply (bool_decide_unpack _).
  vm_compute. exact I.
Qed.

(** ** [agregar] and the queries *)

Lemma agregar_y_luego_consultar_testigo :
  let w := mundo_sembrado in
  let w' := snd (agregar (E := entorno_que_avanza) pelicula_nueva w) in
  alcanzable (E := entorno_que_avanza) w
  /\ violadas (ano_actual (E := entorno_que_avanza) w) pelicula_nueva = []
  /\ items w' = items w ++ [pelicula_nueva]
  /\ fst (obtenerPorId (js "peli-9") w') = Normal (Some pelicula_nueva).
Proof.
  intros w w'.
  split; [exact mundo_sembrado_alcanzable |].
  split; [exact pelicula_nueva_valida |].
  destruct (agregar_y_luego_consultar (E := entorno_que_avanza) w pelicula_nueva
              mundo_sembrado_alcanzable pelicula_nueva_valida)
    as (H1 & _ & H3 & _).
  split; [exact H1 |]. exact (H3 pelicula_nueva_sin_par).
Defined.

Lemma eliminar_deshace_agregar_testigo :
  let w := mundo_sembrado in
  let w1 := snd (agregar (E := entorno_que_avanza) pelicula_nueva w) in
  let w2 := snd (eliminar (E := entorno_que_avanza) (js "peli-9") w1) in
  alcanzable (E := entorno_que_avanza) w
  /\ ~ In (id pelicula_nueva) (ids (items w))
  /\ length (items w) = 8%nat
  /\ items w2 = items w
  /\ almacen w2 = Some (JSON_stringify (map toJSON (items w))).
Proof.
  intros w w1 w2.
  split; [exact mundo_sembrado_alcanzable |].
  split; [exact pelicula_nueva_sin_par |].
  split; [vm_compute; reflexivity |].
  destruct (eliminar_deshace_agregar (E := entorno_que_avanza) w pelicula_nueva
              mundo_sembrado_alcanzable pelicula_nueva_valida
              pelicula_nueva_sin_par)
    as (H1 & H2).
  split; [exact H1 |]. exact (proj2 (H2 eq_refl)).
Defined.

(** ** The storage and the collection *)

Lemma el_almacen_refleja_la_coleccion_testigo :
  let w := mundo_sembrado in
  alcanzable (E := entorno_que_avanza) w
  /\ reflejado (snd (agregar (E := entorno_que_avanza) pelicula_nueva w))
  /\ reflejado
       (correr (E := entorno_que_avanza)
          [Agregar (alien None); Eliminar (js "peli-9");
           Actualizar (js "peli-9") datos_validos]
          w).
Proof.
  intros w.
  split; [exact mundo_sembrado_alcanzable |].
  destruct (el_almacen_refleja_la_coleccion (E := entorno_que_avanza) w
              mundo_sembrado_alcanzable)
    as (H1 & _ & _ & H4).
  split.
  - apply (H1 pelicula_nueva (aceptada msg_agregada (Some pelicula_nueva)));
      vm_compute; reflexivity.
  - assert (Hr : reflejado w) by (vm_compute; reflexivity).
    destruct (H4 Hr) as (_ & H5). apply H5. intros c0. reflexivity.
Defined.

Lemma mundo_sin_peliculas_alcanzable :
  alcanzable (E := entorno_sin_cuota) (mundo_sin_peliculas entorno_sin_cuota).
Proof.
  es_alcanzable entorno_sin_cuota (mundo_inicial (Some (JSONArreglo [])))
    (@nil llamada).
Qed.

Lemma almacen_lleno_no_deshace_testigo :
  let w := mundo_sin_peliculas entorno_sin_cuota in
  let w' := snd (agregar (E := entorno_sin_cuota) pelicula_nueva w) in
  alcanzable (E := entorno_sin_cuota) w
  /\ fst (agregar (E := entorno_sin_cuota) pelicula_nueva w)
     = Lanza (Error msg_no_guardadas)
  /\ items w' = [pelicula_nueva]
  /\ almacen w' = Some (JSONArreglo [])
  /\ ~ reflejado w'.
Proof.
  intros w w'.
  split; [exact mundo_sin_peliculas_alcanzable |].
  destruct (almacen_lleno_no_deshace (E := entorno_sin_cuota) w
              mundo_sin_peliculas_alcanzable)
    as (H1 & _).
  assert (Hv : violadas (ano_actual (E := entorno_sin_cuota) w) pelicula_nueva
               = [])
    by (vm_compute; reflexivity).
  destruct (H1 pelicula_nueva Hv eq_refl) as (Ha & Hb & Hc & Hd).
  split; [exact Ha |]. split; [exact Hb |]. split; [exact Hc |].
  apply Hd. vm_compute. reflexivity.
Defined.

(** ** Loading again *)

Lemma sembradas_sobreviven : Forall sobrevive (items mundo_sembrado).
Proof.
  assert (Hl : items mundo_sembrado
               = ltac:(let v := eval vm_compute in (items mundo_sembrado) in
                       exact v))
    by (vm_compute; reflexivity).
  rewrite Hl.
  repeat (constructor; [split; vm_compute; reflexivity |]).
  constructor.
Qed.

Lemma recargar_devuelve_la_coleccion_testigo :
  let w := mundo_sembrado in
  alcanzable (E := entorno_que_avanza) w
  /\ reflejado w
  /\ Forall sobrevive (items w)
  /\ length (items w) = 8%nat
  /\ exists w' : Mundo,
       PeliculaManager_new (E := entorno_que_avanza) w = (Normal tt, w')
       /\ items w' = items w
       /\ escrituras w' = escrituras w.
Proof.
  intros w.
  assert (Hr : reflejado w) by (vm_compute; reflexivity).
  split; [exact mundo_sembrado_alcanzable |]. split; [exact Hr |].
  split; [exact sembradas_sobreviven |]. split; [vm_compute; reflexivity |].
  destruct (recargar_devuelve_la_coleccion (E := entorno_que_avanza) w
              mundo_sembrado_alcanzable Hr sembradas_sobreviven)
    as (w' & H1 & H2 & _ & H4 & _).
  exists w'. split; [exact H1 |]. split; [exact H2 | exact H4].
Defined.

Lemma constructor_con_almacen_lleno_testigo :
  let w := mundo_inicial None in
  let w' := snd (PeliculaManager_new (E := entorno_sin_cuota) w) in
  cuota (Entorno := entorno_sin_cuota)
    (JSON_stringify
       (map toJSON (peliculasIniciales_en (E := entorno_sin_cuota) w)))
  = false
  /\ fst (PeliculaManager_new (E := entorno_sin_cuota) w)
     = Lanza (Error msg_no_guardadas)
  /\ length (escrituras w') = 2%nat
  /\ almacen w' = None.
Proof.
  intros w w'.
  split; [reflexivity |].
  destruct (constructor_con_almacen_lleno (E := entorno_sin_cuota) w eq_refl)
    as (_ & H2).
  destruct (H2 (or_introl eq_refl)) as (He & Hn & _).
  destruct (Hn eq_refl) as (Hf & Ha).
  split; [exact Hf |]. split; [| exact Ha].
  unfold w'. rewrite He. reflexivity.
Defined.

(** ** Queries *)

Lemma obtenerRecientes_con_cantidad_no_positiva_testigo :
  let w := mundo_sembrado in
  alcanzable (E := entorno_que_avanza) w
  /\ (0 < 3)%nat
  /\ elementos (obtenerRecientes (Some 0)) w = Some []
  /\ elementos (obtenerRecientes (Some (-3))) w
     = Some (take 5 (ordenar cmp_recientes (items w))).
Proof.
  intros w.
  split; [exact mundo_sembrado_alcanzable |]. split; [lia |].
  destruct (obtenerRecientes_con_cantidad_no_positiva
              (E := entorno_que_avanza) w 3 mundo_sembrado_alcanzable)
    as (H1 & H2).
  split; [exact H1 |].
  assert (H3 : (0 < 3)%nat) by lia.
  apply H2 in H3.
  replace (length (items w) - 3)%nat with 5%nat in H3
    by (vm_compute; reflexivity).
  exact H3.
Defined.

Lemma sembradas_con_ano : Forall con_ano (items mundo_sembrado).
Proof.
  assert (Hl : items mundo_sembrado
               = ltac:(let v := eval vm_compute in (items mundo_sembrado) in
                       exact v))
    by (vm_compute; reflexivity).
  rewrite Hl.
  repeat (constructor; [vm_compute; discriminate |]).
  constructor.
Qed.

Lemma ordenarPorAno_ordena_y_conserva_empates_testigo :
  let w := mundo_sembrado in
  alcanzable (E := entorno_que_avanza) w
  /\ Forall con_ano (items w)
  /\ exists s : list Pelicula,
       elementos (ordenarPorAno None) w = Some s
       /\ Permutation s (items w)
       /\ ordenado_por_ano true s
       /\ conserva_empates_de_ano (items w) s.
Proof.
  intros w.
  split; [exact mundo_sembrado_alcanzable |].
  split; [exact sembradas_con_ano |].
  destruct (ordenarPorAno_ordena_y_conserva_empates (E := entorno_que_avanza)
              w None mundo_sembrado_alcanzable sembradas_con_ano)
    as (s & H1 & H2 & H3 & H4 & _).
  exists s. repeat split; assumption.
Defined.

(** ** Identifiers *)

Lemma identificadores_distintos_desde_la_interfaz_testigo :
  let w :=
    fst (historia (E := entorno_que_avanza) dos_visitas
           (mundo_inicial None, false)) in
  (forall a b : nat,
     reloj (Entorno := entorno_que_avanza) a
     = reloj (Entorno := entorno_que_avanza) b -> a = b)
  /\ forallb de_la_interfaz dos_visitas = true
  /\ length (items w) = 10%nat
  /\ NoDup (ids (items w))
  /\ NoDup (ids_guardados (almacen w)).
Proof.
  intros w.
  assert (Hr : forall a b : nat,
    reloj (Entorno := entorno_que_avanza) a
    = reloj (Entorno := entorno_que_avanza) b -> a = b).
  { intros a b H. cbn in H. lia. }
  split; [exact Hr |]. split; [reflexivity |].
  split; [vm_compute; reflexivity |].
  exact (identificadores_distintos_desde_la_interfaz (E := entorno_que_avanza)
           (mundo_inicial None) dos_visitas (or_introl Hr) eq_refl eq_refl
           eq_refl).
Defined.

(** ** [registrar] *)

Lemma ana_puede_registrarse :
  nombre_aceptable registro_de_ana
  /\ direccion (dr_email registro_de_ana)
  /\ usuario_aceptable registro_de_ana
  /\ password_aceptable registro_de_ana
  /\ password_confirmada registro_de_ana
  /\ usuario_libre registro_de_ana (usuarios_de mundo_con_usuarios)
  /\ email_libre registro_de_ana (usuarios_de mundo_con_usuarios).
Proof.
  split; [vm_compute; discriminate |].
  split; [apply validarEmail_direccion; vm_compute; reflexivity |].
  split; [vm_compute; discriminate |].
  split; [vm_compute; discriminate |].
  split; [reflexivity |].
  split; unfold usuario_libre, email_libre; rewrite <- list_elem_of_In;
    apply (bool_decide_unpack _); vm_compute; exact I.
Qed.

Lemma registrar_y_despues_login_testigo :
  let w := mundo_con_usuarios in
  let w' := snd (registrar (Sis := sistema_que_avanza) registro_de_ana w) in
  nombre_aceptable registro_de_ana
  /\ direccion (dr_email registro_de_ana)
  /\ usuario_libre registro_de_ana (usuarios_de w)
  /\ fst (registrar (Sis := sistema_que_avanza) registro_de_ana w)
     = Normal {| ra_exito := true; ra_mensaje := msg_cuenta_creada;
                 ra_usuario := None |}
  /\ length (usuarios_de w') = 4%nat
  /\ sesion_guardada w' = sesion_guardada w.
Proof.
  intros w w'.
  destruct ana_puede_registrarse as (H1 & H2 & H3 & H4 & H5 & H6 & H7).
  split; [exact H1 |]. split; [exact H2 |]. split; [exact H6 |].
  destruct (registrar_y_despues_login (Sis := sistema_que_avanza) w
              registro_de_ana H1 H2 H3 H4 H5 H6 H7)
    as (_ & _ & _ & _ & Hsi & _).
  destruct (Hsi eq_refl) as (Ha & Hb & Hc & _).
  split; [exact Ha |]. split; [| exact Hc].
  unfold w'. rewrite Hb. reflexivity.
Defined.

Lemma el_espacio_puede_registrarse :
  nombre_aceptable registro_con_espacio
  /\ direccion (dr_email registro_con_espacio)
  /\ usuario_aceptable registro_con_espacio
  /\ password_aceptable registro_con_espacio
  /\ password_confirmada registro_con_espacio
  /\ usuario_libre registro_con_espacio (usuarios_de mundo_con_usuarios)
  /\ email_libre registro_con_espacio (usuarios_de mundo_con_usuarios).
Proof.
  split; [vm_compute; discriminate |].
  split; [apply validarEmail_direccion; vm_compute; reflexivity |].
  split; [vm_compute; discriminate |].
  split; [vm_compute; discriminate |].
  split; [reflexivity |].
  split; unfold usuario_libre, email_libre; rewrite <- list_elem_of_In;
    apply (bool_decide_unpack _); vm_compute; exact I.
Qed.

Lemma registrar_acepta_un_nombre_repetido_testigo :
  let w := mundo_con_usuarios in
  let w' := snd (registrar (Sis := sistema_que_avanza) registro_con_espacio w) in
  (exists u0 : Usuario,
     In u0 (usuarios_de w)
     /\ trim (dr_usuario registro_con_espacio) = u_usuario u0)
  /\ usuario_libre registro_con_espacio (usuarios_de w)
  /\ NoDup (map u_usuario (usuarios_de w))
  /\ fst (registrar (Sis := sistema_que_avanza) registro_con_espacio w)
     = Normal {| ra_exito := true; ra_mensaje := msg_cuenta_creada;
                 ra_usuario := None |}
  /\ ~ NoDup (map u_usuario (usuarios_de w')).
Proof.
  intros w w'.
  destruct el_espacio_puede_registrarse as (H1 & H2 & H3 & H4 & H5 & H6 & H7).
  assert (Hu : exists u0 : Usuario,
    In u0 (usuarios_de w)
    /\ trim (dr_usuario registro_con_espacio) = u_usuario u0).
  { eexists. split; [left; reflexivity | vm_compute; reflexivity]. }
  split; [exact Hu |]. split; [exact H6 |].
  split.
  { apply (bool_decide_unpack _). vm_compute. exact I. }
  destruct Hu as (u0 & Hin & Ht).
  destruct (registrar_acepta_un_nombre_repetido (Sis := sistema_que_avanza) w
              registro_con_espacio u0 Hin Ht H1 H2 H3 H4 H5 H6 H7 eq_refl)
    as (_ & Ha & _ & _ & Hb).
  split; [exact Ha | exact Hb].
Defined.
